(** * Orchestrator HAL: message bus client, safety monitor, state manager

    A shallow embedding of three modules of the repository,

    - [hal_service/mqtt_client.py]    (module [MqttClient]),
    - [hal_service/safety_monitor.py] (module [SafetyMonitor]),
    - [hal_service/state_manager.py]  (module [StateManager]),

    with the vocabulary used to talk about topics (module
    [TopicSegments]), followed by the properties established about
    them.

    Conventions of the embedding.  Python floats that only take part in
    comparisons, sums and [%] (scan ranges, angles, clock readings of the
    safety monitor) are exact rationals [Q]; floats fed to [math.cos],
    [math.sin] and compared with [math.pi] (the odometry) are real numbers
    [R]; integers are [Z].  Rounding is therefore not modelled.  Calls to
    [datetime.now()] and [time.time()] are an explicit argument [now] of
    the operation that reads the clock.  Logging is omitted: it changes no
    state that the code reads back. *)

From Stdlib Require Import List String Ascii Bool ZArith QArith Qround Lia Lqa.
From Stdlib Require Import Reals Lra.
From Equations Require Import Equations.
Import ListNotations.

(* ===================================================================== *)
(** * hal_service/mqtt_client.py *)
(* ===================================================================== *)

Module MqttClient.

Local Open Scope string_scope.
Local Open Scope Z_scope.

(** ** Regular expressions

    The module hands two kinds of text to [re.match]: the three constant
    [VALID_PATTERNS] and the text built from a subscription pattern.
    Both are covered by the fragment below: single characters, [.], and
    the repetitions [.*], [[^/]+] and [[a-zA-Z0-9_]+], between [^] and a
    final [$].  Text outside the fragment compiles to [None]. *)

Inductive char_class :=
| Dot        (* .             : anything but a line break *)
| NotSlash   (* [^/]          *)
| WordChar.  (* [a-zA-Z0-9_]  *)

Inductive re_item :=
| RChar (c : ascii)
| ROne (k : char_class)
| RPlus (k : char_class)
| RStar (k : char_class).

Definition regex := list re_item.

Definition newline : ascii := "010"%char.

Definition in_range (lo hi c : ascii) : bool :=
  (nat_of_ascii lo <=? nat_of_ascii c)%nat && (nat_of_ascii c <=? nat_of_ascii hi)%nat.

Definition class_mem (k : char_class) (c : ascii) : bool :=
  match k with
  | Dot => negb (Ascii.eqb c newline)
  | NotSlash => negb (Ascii.eqb c "/")
  | WordChar => in_range "a" "z" c || in_range "A" "Z" c
                || in_range "0" "9" c || Ascii.eqb c "_"
  end.

(** Characters with a meaning of their own in a regular expression. *)
Definition is_meta (c : ascii) : bool :=
  existsb (Ascii.eqb c)
    ["."; "^"; "$"; "*"; "+"; "?"; "{"; "}"; "["; "]"; "\"; "|"; "("; ")"]%char.

Fixpoint starts_with (prefix s : string) : bool :=
  match prefix, s with
  | EmptyString, _ => true
  | String p prefix', String c s' => Ascii.eqb p c && starts_with prefix' s'
  | String _ _, EmptyString => false
  end.

(** Reads the items of a regular expression up to its final [$].  [skip]
    counts the characters that still belong to the item read last. *)
Fixpoint parse_items (s : string) (skip : nat) : option regex :=
  match s with
  | EmptyString => None                       (* no closing [$] *)
  | String c rest =>
      match skip with
      | S k => parse_items rest k
      | O =>
          if starts_with "[a-zA-Z0-9_]+" s
          then option_map (cons (RPlus WordChar)) (parse_items rest 12)
          else if starts_with "[^/]+" s
          then option_map (cons (RPlus NotSlash)) (parse_items rest 4)
          else if starts_with ".*" s
          then option_map (cons (RStar Dot)) (parse_items rest 1)
          else if Ascii.eqb c "."
          then option_map (cons (ROne Dot)) (parse_items rest 0)
          else if Ascii.eqb c "$"
          then match rest with EmptyString => Some [] | _ => None end
          else if is_meta c then None
          else option_map (cons (RChar c)) (parse_items rest 0)
      end
  end.

(** [re.compile] on a text that starts with [^]. *)
Definition compile (text : string) : option regex :=
  match text with
  | String "^" body => parse_items body 0
  | _ => None
  end.

(** [$]: the end of the text, or just before a line break that ends it. *)
Definition end_anchor (s : string) : bool :=
  match s with
  | EmptyString => true
  | String c EmptyString => Ascii.eqb c newline
  | _ => false
  end.

(** Zero or more characters of class [k], then [cont]. *)
Fixpoint star_then (k : char_class) (cont : string -> bool) (s : string) : bool :=
  cont s
  || match s with
     | EmptyString => false
     | String c s' => class_mem k c && star_then k cont s'
     end.

Fixpoint match_items (r : regex) : string -> bool :=
  match r with
  | [] => end_anchor
  | RChar c :: r' =>
      fun s => match s with
               | String x s' => Ascii.eqb x c && match_items r' s'
               | EmptyString => false
               end
  | ROne k :: r' =>
      fun s => match s with
               | String x s' => class_mem k x && match_items r' s'
               | EmptyString => false
               end
  | RPlus k :: r' =>
      fun s => match s with
               | String x s' => class_mem k x && star_then k (match_items r') s'
               | EmptyString => false
               end
  | RStar k :: r' => star_then k (match_items r')
  end.

(** [re.match(text, s) is not None]; [None] when [text] is outside the
    fragment. *)
Definition re_match (text s : string) : option bool :=
  option_map (fun r => match_items r s) (compile text).

(** ** MQTTConfig *)

Record MQTTConfig := {
  broker_host : string;
  broker_port : Z;
  keepalive : Z;
  client_id : string;
  username : option string;
  password : option string;
  max_reconnect_delay : Z;
  base_reconnect_delay : Z
}.

Definition default_config : MQTTConfig :=
  {| broker_host := "localhost"; broker_port := 1883; keepalive := 60;
     client_id := "orchestrator_hal"; username := None; password := None;
     max_reconnect_delay := 300; base_reconnect_delay := 1 |}.

(** ** TopicValidator *)

Definition VALID_PATTERNS : list (string * string) :=
  [ ("command", "^orchestrator/cmd/[a-zA-Z0-9_]+$");
    ("data", "^orchestrator/data/[a-zA-Z0-9_]+$");
    ("status", "^orchestrator/status/[a-zA-Z0-9_]+$") ].

(** [TopicValidator.validate_topic] *)
Definition validate_topic (topic : string) : bool :=
  existsb (fun kv => match re_match (snd kv) topic with
                     | Some b => b
                     | None => false
                     end) VALID_PATTERNS.

(** ** MQTTClientWrapper *)

(** A message handed to the broker connection ([self._client.publish]). *)
Record Message := {
  topic : string;
  json_payload : string;
  qos : Z;
  retain : bool
}.

(** Python values of a payload; a dict keeps its keys in insertion
    order. *)
#[local] Unset Elimination Schemes.
Inductive PyValue :=
| PyNone
| PyBool (b : bool)
| PyInt (z : Z)
| PyFloat (q : Q)
| PyStr (s : string)
| PyList (l : list PyValue)
| PyDict (d : list (string * PyValue)).
#[local] Set Elimination Schemes.

Definition Dict := list (string * PyValue).

(** [key in d] *)
Definition contains (key : string) (d : Dict) : bool :=
  existsb (fun kv => String.eqb (fst kv) key) d.

(** [d[key] = v] for a key that [d] does not hold yet. *)
Definition add_key (key : string) (v : PyValue) (d : Dict) : Dict :=
  (d ++ [(key, v)])%list.

Record Client := {
  config : MQTTConfig;
  _connected : bool;
  _reconnect_delay : Z;
  _stop_reconnect : bool;
  sent : list Message      (* calls of [self._client.publish], oldest first *)
}.

(** [MQTTClientWrapper.__init__] *)
Definition new (cfg : MQTTConfig) : Client :=
  {| config := cfg;
     _connected := false;
     _reconnect_delay := base_reconnect_delay cfg;
     _stop_reconnect := false;
     sent := [] |}.

(** [MQTTClientWrapper._on_connect] *)
Definition _on_connect (rc : Z) (c : Client) : Client :=
  if rc =? 0
  then {| config := config c;
          _connected := true;
          _reconnect_delay := base_reconnect_delay (config c);
          _stop_reconnect := _stop_reconnect c;
          sent := sent c |}
  else c.

(** [MQTTClientWrapper._on_disconnect]; with [rc <> 0] it also calls
    [_start_reconnect], which clears the stop flag when it starts the
    reconnect thread. *)
Definition _on_disconnect (rc : Z) (c : Client) : Client :=
  {| config := config c;
     _connected := false;
     _reconnect_delay := _reconnect_delay c;
     _stop_reconnect := if rc =? 0 then _stop_reconnect c else false;
     sent := sent c |}.

(** One turn of the loop of [MQTTClientWrapper._reconnect_loop].
    [raised] tells whether [self._client.connect] raised. *)
Definition _reconnect_loop_turn (raised : bool) (c : Client) : Client :=
  if negb (_stop_reconnect c) && negb (_connected c)
  then
    if raised
    then {| config := config c;
            _connected := _connected c;
            _reconnect_delay :=
              Z.min (_reconnect_delay c * 2) (max_reconnect_delay (config c));
            _stop_reconnect := _stop_reconnect c;
            sent := sent c |}
    else c
  else c.

(** [MQTTClientWrapper.disconnect] *)
Definition disconnect (c : Client) : Client :=
  {| config := config c;
     _connected := false;
     _reconnect_delay := _reconnect_delay c;
     _stop_reconnect := true;
     sent := sent c |}.

Inductive ConnectionEvent :=
| OnConnect (rc : Z)
| OnDisconnect (rc : Z)
| ReconnectAttempt (raised : bool)
| Disconnect.

Definition connection_step (c : Client) (e : ConnectionEvent) : Client :=
  match e with
  | OnConnect rc => _on_connect rc c
  | OnDisconnect rc => _on_disconnect rc c
  | ReconnectAttempt raised => _reconnect_loop_turn raised c
  | Disconnect => disconnect c
  end.

Definition connection_run (c : Client) (es : list ConnectionEvent) : Client :=
  fold_left connection_step es c.

(** [str.replace(old, new)] for a one-character [old]. *)
Fixpoint replace (old : ascii) (new : string) (s : string) : string :=
  match s with
  | EmptyString => EmptyString
  | String c rest =>
      if Ascii.eqb c old then new ++ replace old new rest
      else String c (replace old new rest)
  end.

(** [MQTTClientWrapper._topic_matches_pattern] *)
Definition _topic_matches_pattern (topic pattern : string) : option bool :=
  let regex_pattern := replace "#" ".*" (replace "+" "[^/]+" pattern) in
  re_match ("^" ++ regex_pattern ++ "$") topic.

Section Publish.

(** [json.dumps(payload, default=str)]; [None] when it raises. *)
Variable json_dumps : Dict -> option string.

(** [MQTTClientWrapper.publish].  [now_iso] is
    [datetime.now().isoformat()] and [rc] the result code of
    [self._client.publish].  Returns the result, the caller's payload
    object as the call leaves it, and the client. *)
Definition publish (now_iso : string) (rc : Z) (c : Client)
    (topic : string) (payload : Dict) (qos : Z) (retain : bool)
  : bool * Dict * Client :=
  if negb (_connected c) then (false, payload, c)
  else if negb (validate_topic topic) then (false, payload, c)
  else
    let payload' :=
      if negb (contains "timestamp" payload)
      then add_key "timestamp" (PyStr now_iso) payload
      else payload in
    match json_dumps payload' with
    | None => (false, payload', c)
    | Some text =>
        (rc =? 0, payload',
         {| config := config c;
            _connected := _connected c;
            _reconnect_delay := _reconnect_delay c;
            _stop_reconnect := _stop_reconnect c;
            sent := (sent c ++ [ {| topic := topic; json_payload := text;
                                    qos := qos; retain := retain |} ])%list |})
    end.

End Publish.

End MqttClient.

(* ===================================================================== *)
(** * Topics as lists of segments

    The vocabulary in which the matching of topics is described: a topic
    or pattern split on [/], the characters a pattern takes literally. *)
(* ===================================================================== *)

Module TopicSegments.

Import MqttClient.
Local Open Scope string_scope.

(** [str.split(sep)] for a one-character separator. *)
Fixpoint split (sep : ascii) (s : string) : list string :=
  match s with
  | EmptyString => [EmptyString]
  | String c rest =>
      if Ascii.eqb c sep then EmptyString :: split sep rest
      else match split sep rest with
           | seg :: segs => String c seg :: segs
           | [] => [String c EmptyString]
           end
  end.

(** [sep.join(segs)] *)
Fixpoint join (sep : ascii) (segs : list string) : string :=
  match segs with
  | [] => EmptyString
  | [seg] => seg
  | seg :: segs' => seg ++ String sep (join sep segs')
  end.

(** Every character of [s] is in the class [k]. *)
Fixpoint all_in (k : char_class) (s : string) : bool :=
  match s with
  | EmptyString => true
  | String c s' => class_mem k c && all_in k s'
  end.

(** A topic without a line break. *)
Definition one_line (s : string) : Prop := all_in Dot s = true.

(** A character that a subscription pattern takes literally: neither a
    wildcard nor a character that the regular expression reads as an
    operator. *)
Definition literal_char (c : ascii) : bool :=
  negb (is_meta c) && negb (Ascii.eqb c "#").

Fixpoint all_literal (s : string) : bool :=
  match s with
  | EmptyString => true
  | String c s' => literal_char c && all_literal s'
  end.

(** A pattern segment is the wildcard [+] or literal text. *)
Definition plain_or_plus (seg : string) : Prop :=
  seg = "+" \/ all_literal seg = true.

(** A pattern segment against a topic segment. *)
Definition segment_matches (pseg tseg : string) : Prop :=
  (pseg = "+" /\ tseg <> "") \/ pseg = tseg.

(** The regular expression that reads the text [p] character by
    character. *)
Definition lit (p : string) : regex := map RChar (list_ascii_of_string p).

(** What [_topic_matches_pattern] makes of one character of a pattern. *)
Definition item_of (c : ascii) : re_item :=
  if Ascii.eqb c "+" then RPlus NotSlash
  else if Ascii.eqb c "#" then RStar Dot
  else RChar c.

Fixpoint pattern_items (p : string) : regex :=
  match p with
  | EmptyString => []
  | String c p' => item_of c :: pattern_items p'
  end.

(** A pattern made of wildcards and literal characters. *)
Fixpoint wildcards_and_literals (p : string) : bool :=
  match p with
  | EmptyString => true
  | String c p' =>
      (literal_char c || Ascii.eqb c "+" || Ascii.eqb c "#")
      && wildcards_and_literals p'
  end.

(** The three shapes of a topic name, [orchestrator/<kind>/<id>] with
    [<kind>] one of [cmd], [data], [status] and [<id>] a non-empty word
    of letters, digits and underscores. *)
Definition topic_shape (t : string) : Prop :=
  exists kind id,
    In kind ["cmd"; "data"; "status"]
    /\ id <> "" /\ all_in WordChar id = true
    /\ t = "orchestrator/" ++ kind ++ "/" ++ id.

End TopicSegments.

(* ===================================================================== *)
(** * hal_service/safety_monitor.py *)
(* ===================================================================== *)

Module SafetyMonitor.

Local Open Scope Q_scope.
Local Open Scope string_scope.

(** [a < b] on floats, as a boolean. *)
Definition Qlt_bool (a b : Q) : bool := negb (Qle_bool b a).

(** Python's [a % 360] for a float [a]: the result has the sign of the
    divisor. *)
Definition mod360 (a : Q) : Q := a - 360 * inject_Z (Qfloor (a / 360)).

(** [l[-n:]] for a positive [n]: the last [n] elements of [l], or all of
    [l] when it is shorter. *)
Definition last_n {A : Type} (n : nat) (l : list A) : list A :=
  skipn (List.length l - n) l.

(** [@dataclass SafetyZone] *)
Record SafetyZone := {
  name : string;
  min_angle : Q;       (* degrees *)
  max_angle : Q;       (* degrees *)
  min_distance : Q;    (* meters *)
  priority : Z;
  action : string      (* "stop", "slow", "warn" *)
}.

(** [@dataclass ObstacleDetection] *)
Record ObstacleDetection := {
  timestamp : Q;       (* seconds on the wall clock *)
  distance : Q;
  angle : Q;
  zone : string;
  severity : string    (* "critical", "warning" *)
}.

(** A [datetime]: naive, as [datetime.now()] returns it, or carrying a
    UTC offset.  A number where a datetime is expected is a naive one. *)
Inductive Datetime :=
| Naive (t : Q)
| Aware (t : Q).

Coercion Naive : Q >-> Datetime.

(** The [timestamp] field of a LiDAR message as
    [datetime.fromisoformat(timestamp.replace('Z', '+00:00'))] reads it:
    text without an offset gives a naive datetime, text that ends in [Z]
    or in an offset an aware one, and any other value makes the call
    raise. *)
Inductive Timestamp :=
| Parsed (d : Datetime)
| Unparsable.

Coercion Parsed : Datetime >-> Timestamp.

(** The [data] object of a LiDAR message with its three required fields. *)
Record LidarData := {
  ranges : list Q;
  angles : list Q;
  scan_timestamp : Timestamp
}.

(** One entry of [safety_config.safety_zones]: every key is optional and
    read with [zone_config.get(key, default)]. *)
Record ZoneConfig := {
  cfg_name : option string;
  cfg_min_angle : option Q;
  cfg_max_angle : option Q;
  cfg_min_distance : option Q;
  cfg_priority : option Z;
  cfg_action : option string
}.

Definition get {A : Type} (o : option A) (default : A) : A :=
  match o with Some v => v | None => default end.

(** What the monitor hands to [mqtt_client.publish]. *)
Inductive Payload :=
| EstopCommand (at_time : Q) (closest : ObstacleDetection) (total_obstacles : nat)
| SafetyStatus (status : string) (stops_triggered : Z) (total_detections : nat).

Record Published := {
  topic : string;
  payload : Payload;
  qos : Z
}.

Definition estop_topic : string := "orchestrator/cmd/estop".
Definition status_topic : string := "orchestrator/status/safety_monitor".

(** The fields of [SafetyMonitor] that the safety logic reads or writes,
    and [published], the calls made to [mqtt_client.publish], oldest
    first. *)
Record Monitor := {
  emergency_stop_active : bool;
  last_lidar_data : option LidarData;
  last_lidar_timestamp : option Datetime;
  safety_zones : list SafetyZone;
  obstacle_detections : list ObstacleDetection;
  emergency_stops_triggered : Z;
  published : list Published
}.

Definition set_active (b : bool) (m : Monitor) : Monitor :=
  {| emergency_stop_active := b;
     last_lidar_data := last_lidar_data m;
     last_lidar_timestamp := last_lidar_timestamp m;
     safety_zones := safety_zones m;
     obstacle_detections := obstacle_detections m;
     emergency_stops_triggered := emergency_stops_triggered m;
     published := published m |}.

Definition set_last_lidar_data (d : LidarData) (m : Monitor) : Monitor :=
  {| emergency_stop_active := emergency_stop_active m;
     last_lidar_data := Some d;
     last_lidar_timestamp := last_lidar_timestamp m;
     safety_zones := safety_zones m;
     obstacle_detections := obstacle_detections m;
     emergency_stops_triggered := emergency_stops_triggered m;
     published := published m |}.

Definition set_last_lidar_timestamp (t : Datetime) (m : Monitor) : Monitor :=
  {| emergency_stop_active := emergency_stop_active m;
     last_lidar_data := last_lidar_data m;
     last_lidar_timestamp := Some t;
     safety_zones := safety_zones m;
     obstacle_detections := obstacle_detections m;
     emergency_stops_triggered := emergency_stops_triggered m;
     published := published m |}.

Definition set_detections (h : list ObstacleDetection) (m : Monitor) : Monitor :=
  {| emergency_stop_active := emergency_stop_active m;
     last_lidar_data := last_lidar_data m;
     last_lidar_timestamp := last_lidar_timestamp m;
     safety_zones := safety_zones m;
     obstacle_detections := h;
     emergency_stops_triggered := emergency_stops_triggered m;
     published := published m |}.

Definition set_triggered (n : Z) (m : Monitor) : Monitor :=
  {| emergency_stop_active := emergency_stop_active m;
     last_lidar_data := last_lidar_data m;
     last_lidar_timestamp := last_lidar_timestamp m;
     safety_zones := safety_zones m;
     obstacle_detections := obstacle_detections m;
     emergency_stops_triggered := n;
     published := published m |}.

(** [self.mqtt_client.publish(topic, payload, qos)]: the call is recorded. *)
Definition publish (t : string) (p : Payload) (q : Z) (m : Monitor) : Monitor :=
  {| emergency_stop_active := emergency_stop_active m;
     last_lidar_data := last_lidar_data m;
     last_lidar_timestamp := last_lidar_timestamp m;
     safety_zones := safety_zones m;
     obstacle_detections := obstacle_detections m;
     emergency_stops_triggered := emergency_stops_triggered m;
     published := published m ++ [ {| topic := t; payload := p; qos := q |} ] |}.

(** [SafetyMonitor._initialize_safety_zones] *)
Definition _initialize_safety_zones (obstacle_threshold : Q)
    (configured : list ZoneConfig) : list SafetyZone :=
  [ {| name := "critical_front"; min_angle := -45; max_angle := 45;
       min_distance := obstacle_threshold; priority := 1; action := "stop" |};
    {| name := "warning_left"; min_angle := 45; max_angle := 135;
       min_distance := obstacle_threshold * (7 # 10); priority := 2;
       action := "slow" |};
    {| name := "warning_right"; min_angle := 225; max_angle := 315;
       min_distance := obstacle_threshold * (7 # 10); priority := 2;
       action := "slow" |} ]
  ++ map (fun zc =>
       {| name := get (cfg_name zc) "custom";
          min_angle := get (cfg_min_angle zc) 0;
          max_angle := get (cfg_max_angle zc) 360;
          min_distance := get (cfg_min_distance zc) (1 # 2);
          priority := get (cfg_priority zc) 3%Z;
          action := get (cfg_action zc) "warn" |}) configured.

(** [SafetyMonitor.__init__] *)
Definition init (obstacle_threshold : Q) (configured : list ZoneConfig) : Monitor :=
  {| emergency_stop_active := false;
     last_lidar_data := None;
     last_lidar_timestamp := None;
     safety_zones := _initialize_safety_zones obstacle_threshold configured;
     obstacle_detections := [];
     emergency_stops_triggered := 0;
     published := [] |}.

(** The angular test of [_check_zone_for_obstacles] on a normalized
    angle. *)
Definition in_zone (z : SafetyZone) (normalized_angle : Q) : bool :=
  if Qle_bool (min_angle z) (max_angle z)
  then Qle_bool (min_angle z) normalized_angle
       && Qle_bool normalized_angle (max_angle z)
  else Qle_bool (min_angle z) normalized_angle
       || Qle_bool normalized_angle (max_angle z).

(** The body of the loop of [_check_zone_for_obstacles] for one point. *)
Definition is_obstacle (z : SafetyZone) (p : Q * Q) : bool :=
  let '(distance, angle) := p in
  let normalized_angle := mod360 angle in
  in_zone z normalized_angle
  && (Qle_bool (1 # 10) distance && Qle_bool distance (min_distance z)).

(** [SafetyMonitor._check_zone_for_obstacles] *)
Definition _check_zone_for_obstacles (z : SafetyZone)
    (ranges angles : list Q) : list (Q * Q) :=
  filter (is_obstacle z) (combine ranges angles).

(** The detections one zone contributes in [_process_lidar_data]. *)
Definition detections_of_zone (now : Q) (rs angs : list Q) (z : SafetyZone)
  : list ObstacleDetection :=
  map (fun o : Q * Q =>
         {| timestamp := now; distance := fst o; angle := snd o;
            zone := name z;
            severity := if String.eqb (action z) "stop"
                        then "critical" else "warning" |})
      (_check_zone_for_obstacles z rs angs).

(** [critical_obstacles] and [warning_obstacles] after the loop over the
    zones. *)
Definition critical_obstacles (now : Q) (zones : list SafetyZone)
    (rs angs : list Q) : list ObstacleDetection :=
  flat_map (detections_of_zone now rs angs)
           (filter (fun z => String.eqb (action z) "stop") zones).

Definition warning_obstacles (now : Q) (zones : list SafetyZone)
    (rs angs : list Q) : list ObstacleDetection :=
  flat_map (detections_of_zone now rs angs)
           (filter (fun z => negb (String.eqb (action z) "stop")) zones).

(** [min(obstacles, key=lambda x: x.distance)]: the first element of
    least distance. *)
Fixpoint closest_from (best : ObstacleDetection) (l : list ObstacleDetection)
  : ObstacleDetection :=
  match l with
  | [] => best
  | d :: l' => closest_from (if Qlt_bool (distance d) (distance best)
                             then d else best) l'
  end.

(** [SafetyMonitor._publish_safety_status] *)
Definition _publish_safety_status (status : string) (m : Monitor) : Monitor :=
  publish status_topic
          (SafetyStatus status (emergency_stops_triggered m)
                        (List.length (obstacle_detections m)))
          0%Z m.

(** [SafetyMonitor._trigger_emergency_stop].  [success] is what
    [mqtt_client.publish] returns for the command. *)
Definition _trigger_emergency_stop (now : Q) (success : bool)
    (obstacles : list ObstacleDetection) (m : Monitor) : Monitor :=
  if emergency_stop_active m then m
  else
    match obstacles with
    | [] => set_triggered (emergency_stops_triggered m + 1) (set_active true m)
            (* [min] of an empty list raises; the handler logs it *)
    | d :: rest =>
        let m1 := set_triggered (emergency_stops_triggered m + 1)
                                (set_active true m) in
        let closest_obstacle := closest_from d rest in
        let m2 := publish estop_topic
                    (EstopCommand now closest_obstacle (List.length obstacles))
                    1%Z m1 in
        if success then _publish_safety_status "emergency_stop" m2 else m2
    end.

(** The history cap at the end of [_process_lidar_data]. *)
Definition limit_history (h : list ObstacleDetection) : list ObstacleDetection :=
  if (1000 <? List.length h)%nat then last_n 500 h else h.

(** [SafetyMonitor._process_lidar_data] *)
Definition _process_lidar_data (now : Q) (success : bool) (d : LidarData)
    (m : Monitor) : Monitor :=
  if negb (List.length (ranges d) =? List.length (angles d))%nat then m
  else
    let crit := critical_obstacles now (safety_zones m) (ranges d) (angles d) in
    let warn := warning_obstacles now (safety_zones m) (ranges d) (angles d) in
    let m1 := match crit with
              | [] => m
              | _ :: _ => _trigger_emergency_stop now success crit m
              end in
    set_detections (limit_history (obstacle_detections m1 ++ crit ++ warn)) m1.

(** [SafetyMonitor._handle_lidar_data]; [None] is a message without
    [data] or without one of the required fields, which is dropped.  The
    scan is stored before its timestamp is read; when the timestamp
    cannot be read the call raises and the scan is not processed. *)
Definition _handle_lidar_data (now : Q) (success : bool)
    (msg : option LidarData) (m : Monitor) : Monitor :=
  match msg with
  | None => m
  | Some d =>
      match scan_timestamp d with
      | Unparsable => set_last_lidar_data d m
      | Parsed t =>
          _process_lidar_data now success d
            (set_last_lidar_timestamp t (set_last_lidar_data d m))
      end
  end.

(** The filter of [_check_emergency_stop_reset]. *)
Definition is_recent_critical (now : Q) (d : ObstacleDetection) : bool :=
  String.eqb (severity d) "critical" && Qlt_bool (now - timestamp d) 3.

(** [SafetyMonitor._check_emergency_stop_reset] *)
Definition _check_emergency_stop_reset (now : Q) (m : Monitor) : Monitor :=
  if negb (emergency_stop_active m) then m
  else
    match last_lidar_data m with
    | None => m
    | Some _ =>
        let recent_critical :=
          filter (is_recent_critical now) (last_n 10 (obstacle_detections m)) in
        match recent_critical with
        | [] => _publish_safety_status "monitoring" (set_active false m)
        | _ :: _ => m
        end
    end.

(** What [_check_data_timeout] logs. *)
Inductive TimeoutLog := Quiet | Warning | WarningAndError.

(** [SafetyMonitor._check_data_timeout].  [None] when it raises: the
    naive [datetime.now()] cannot be subtracted from an aware
    [last_lidar_timestamp]. *)
Definition _check_data_timeout (now : Q) (m : Monitor) : option TimeoutLog :=
  match last_lidar_timestamp m with
  | None => Some Quiet
  | Some (Aware _) => None
  | Some (Naive t) =>
      let time_since_last_data := now - t in
      if Qlt_bool 2 time_since_last_data
      then if Qlt_bool 5 time_since_last_data then Some WarningAndError
           else Some Warning
      else Some Quiet
  end.

(** One turn of [_monitoring_loop]: the data timeout check, the periodic
    status, then the reset check.  When the timeout check raises, the
    loop logs the error and the turn ends there. *)
Definition monitoring_cycle (now : Q) (m : Monitor) : Monitor :=
  match _check_data_timeout now m with
  | None => m
  | Some _ =>
      _check_emergency_stop_reset now (_publish_safety_status "monitoring" m)
  end.

(** What can happen to a running monitor. *)
Inductive Event :=
| LidarMessage (now : Q) (success : bool) (msg : option LidarData)
| MonitoringCycle (now : Q).

Definition step (m : Monitor) (e : Event) : Monitor :=
  match e with
  | LidarMessage now success msg => _handle_lidar_data now success msg m
  | MonitoringCycle now => monitoring_cycle now m
  end.

Definition run (m : Monitor) (es : list Event) : Monitor := fold_left step es m.

(** The states a monitor started with the given configuration can be in. *)
Definition reachable (threshold : Q) (configured : list ZoneConfig)
    (m : Monitor) : Prop :=
  exists es, m = run (init threshold configured) es.

(** Number of emergency-stop commands published so far. *)
Definition estop_publishes (m : Monitor) : nat :=
  List.length (filter (fun p => String.eqb (topic p) estop_topic) (published m)).

End SafetyMonitor.

(* ===================================================================== *)
(** * hal_service/state_manager.py *)
(* ===================================================================== *)

Module StateManager.

Local Open Scope string_scope.
Local Open Scope R_scope.

(** [@dataclass Position] *)
Record Position := { x : R; y : R }.

(** [@dataclass Velocity] *)
Record Velocity := { linear : R; angular : R }.

(** The [data] object of an encoder message: a dict of numeric fields. *)
Definition EncoderData := list (string * R).

(** [d.get(key, default)] *)
Fixpoint dict_get (key : string) (default : R) (d : EncoderData) : R :=
  match d with
  | [] => default
  | (k, v) :: d' => if String.eqb k key then v else dict_get key default d'
  end.

(** Truth value of an attribute that is [None] or a dict. *)
Definition truthy (o : option EncoderData) : bool :=
  match o with
  | Some (_ :: _) => true
  | _ => false
  end.

(** [@dataclass RobotState]; [last_updated] holds the clock reading whose
    ISO text the source stores. *)
Record RobotState := {
  position : Position;
  heading : R;
  velocity : Velocity;
  status : string;
  mission_status : string;
  last_updated : R;
  odometry_valid : bool;
  encoder_data : option (option EncoderData * option EncoderData)
}.

(** The fields of [StateManager] that its update path uses. *)
Record Manager := {
  wheel_base : R;
  robot_state : RobotState;
  left_encoder_data : option EncoderData;
  right_encoder_data : option EncoderData;
  last_left_distance : R;
  last_right_distance : R;
  last_update_time : R;
  update_count : Z;
  last_encoder_update : R
}.

(** [StateManager.__init__] at time [now]. *)
Definition init (wheel_base : R) (now : R) : Manager :=
  {| wheel_base := wheel_base;
     robot_state := {| position := {| x := 0; y := 0 |};
                       heading := 0;
                       velocity := {| linear := 0; angular := 0 |};
                       status := "idle";
                       mission_status := "idle";
                       last_updated := now;
                       odometry_valid := true;
                       encoder_data := None |};
     left_encoder_data := None;
     right_encoder_data := None;
     last_left_distance := 0;
     last_right_distance := 0;
     last_update_time := now;
     update_count := 0;
     last_encoder_update := 0 |}.

Definition with_state (s : RobotState) (m : Manager) : Manager :=
  {| wheel_base := wheel_base m;
     robot_state := s;
     left_encoder_data := left_encoder_data m;
     right_encoder_data := right_encoder_data m;
     last_left_distance := last_left_distance m;
     last_right_distance := last_right_distance m;
     last_update_time := last_update_time m;
     update_count := update_count m;
     last_encoder_update := last_encoder_update m |}.

(** Number of turns of [2 * PI] that [h] lies above [PI], rounded up, and
    below [- PI]: the trip counts of the two normalization loops. *)
Definition turns_above (h : R) : nat := Z.to_nat (up ((h - PI) / (2 * PI))).
Definition turns_below (h : R) : nat := Z.to_nat (up ((- PI - h) / (2 * PI))).

Lemma up_minus_one (r : R) : up (r - 1) = (up r - 1)%Z.
Proof.
  symmetry. apply tech_up; rewrite minus_IZR;
    destruct (archimed r) as [H1 H2]; lra.
Qed.

Lemma up_pos (r : R) : 0 < r -> (0 < up r)%Z.
Proof.
  intro H. destruct (archimed r) as [H1 _].
  apply lt_IZR. lra.
Qed.

Lemma turns_above_decreases (h : R) :
  PI < h -> (turns_above (h - 2 * PI) < turns_above h)%nat.
Proof.
  intro H. unfold turns_above.
  pose proof PI_RGT_0 as Hpi.
  replace ((h - 2 * PI - PI) / (2 * PI)) with ((h - PI) / (2 * PI) - 1)
    by (field; lra).
  rewrite up_minus_one.
  assert (0 < (h - PI) / (2 * PI)) by (apply Rdiv_lt_0_compat; lra).
  pose proof (up_pos _ H0). lia.
Qed.

Lemma turns_below_decreases (h : R) :
  h < - PI -> (turns_below (h + 2 * PI) < turns_below h)%nat.
Proof.
  intro H. unfold turns_below.
  pose proof PI_RGT_0 as Hpi.
  replace ((- PI - (h + 2 * PI)) / (2 * PI)) with ((- PI - h) / (2 * PI) - 1)
    by (field; lra).
  rewrite up_minus_one.
  assert (0 < (- PI - h) / (2 * PI)) by (apply Rdiv_lt_0_compat; lra).
  pose proof (up_pos _ H0). lia.
Qed.

(** [while heading > math.pi: heading -= 2 * math.pi] *)
Equations wrap_down (h : R) : R by wf (turns_above h) lt :=
  wrap_down h with Rlt_dec PI h => {
    | left _ := wrap_down (h - 2 * PI);
    | right _ := h }.
Next Obligation. apply turns_above_decreases. assumption. Qed.

(** [while heading < -math.pi: heading += 2 * math.pi] *)
Equations wrap_up (h : R) : R by wf (turns_below h) lt :=
  wrap_up h with Rlt_dec h (- PI) => {
    | left _ := wrap_up (h + 2 * PI);
    | right _ := h }.
Next Obligation. apply turns_below_decreases. assumption. Qed.

(** The two loops of [_update_odometry] in their order. *)
Definition normalize (h : R) : R := wrap_up (wrap_down h).

(** The [except] branch of [_update_odometry]. *)
Definition odometry_failed (m : Manager) : Manager :=
  let s := robot_state m in
  with_state {| position := position s;
                heading := heading s;
                velocity := velocity s;
                status := status s;
                mission_status := mission_status s;
                last_updated := last_updated s;
                odometry_valid := false;
                encoder_data := encoder_data s |} m.

(** [StateManager._update_odometry] with [current_time = time.time()]. *)
Definition _update_odometry (current_time : R) (m : Manager) : Manager :=
  let dt := current_time - last_update_time m in
  if Rlt_dec dt (1 / 1000) then m
  else
    match left_encoder_data m, right_encoder_data m with
    | Some left_data, Some right_data =>
        let left_distance := dict_get "total_distance" 0 left_data in
        let right_distance := dict_get "total_distance" 0 right_data in
        let delta_left := left_distance - last_left_distance m in
        let delta_right := right_distance - last_right_distance m in
        let delta_distance := (delta_left + delta_right) / 2 in
        if Req_dec_T (wheel_base m) 0 then odometry_failed m   (* ZeroDivisionError *)
        else
          let delta_heading := (delta_right - delta_left) / wheel_base m in
          let s := robot_state m in
          let heading' := normalize (heading s + delta_heading) in
          {| wheel_base := wheel_base m;
             robot_state :=
               {| position :=
                    {| x := x (position s) + delta_distance * cos heading';
                       y := y (position s) + delta_distance * sin heading' |};
                  heading := heading';
                  velocity := {| linear := delta_distance / dt;
                                 angular := delta_heading / dt |};
                  status := status s;
                  mission_status := mission_status s;
                  last_updated := current_time;
                  odometry_valid := true;
                  encoder_data := Some (left_encoder_data m,
                                        right_encoder_data m) |};
             left_encoder_data := left_encoder_data m;
             right_encoder_data := right_encoder_data m;
             last_left_distance := left_distance;
             last_right_distance := right_distance;
             last_update_time := current_time;
             update_count := (update_count m + 1)%Z;
             last_encoder_update := last_encoder_update m |}
    | _, _ => odometry_failed m      (* [None.get] raises *)
    end.

(** [StateManager._handle_left_encoder_data]; [data] is the message's
    [data] field, [None] when it is missing. *)
Definition _handle_left_encoder_data (now : R) (data : option EncoderData)
    (m : Manager) : Manager :=
  let m1 := {| wheel_base := wheel_base m;
               robot_state := robot_state m;
               left_encoder_data := Some (match data with
                                          | Some d => d
                                          | None => []
                                          end);
               right_encoder_data := right_encoder_data m;
               last_left_distance := last_left_distance m;
               last_right_distance := last_right_distance m;
               last_update_time := last_update_time m;
               update_count := update_count m;
               last_encoder_update := now |} in
  if truthy (right_encoder_data m1) then _update_odometry now m1 else m1.

(** [StateManager._handle_right_encoder_data] *)
Definition _handle_right_encoder_data (now : R) (data : option EncoderData)
    (m : Manager) : Manager :=
  let m1 := {| wheel_base := wheel_base m;
               robot_state := robot_state m;
               left_encoder_data := left_encoder_data m;
               right_encoder_data := Some (match data with
                                           | Some d => d
                                           | None => []
                                           end);
               last_left_distance := last_left_distance m;
               last_right_distance := last_right_distance m;
               last_update_time := last_update_time m;
               update_count := update_count m;
               last_encoder_update := now |} in
  if truthy (left_encoder_data m1) then _update_odometry now m1 else m1.

(** [StateManager._reset_odometry] *)
Definition _reset_odometry (now : R) (m : Manager) : Manager :=
  let s := robot_state m in
  {| wheel_base := wheel_base m;
     robot_state := {| position := {| x := 0; y := 0 |};
                       heading := 0;
                       velocity := {| linear := 0; angular := 0 |};
                       status := status s;
                       mission_status := mission_status s;
                       last_updated := now;
                       odometry_valid := odometry_valid s;
                       encoder_data := encoder_data s |};
     left_encoder_data := left_encoder_data m;
     right_encoder_data := right_encoder_data m;
     last_left_distance :=
       match left_encoder_data m with
       | Some ((_ :: _) as d) => dict_get "total_distance" 0 d
       | _ => last_left_distance m
       end;
     last_right_distance :=
       match right_encoder_data m with
       | Some ((_ :: _) as d) => dict_get "total_distance" 0 d
       | _ => last_right_distance m
       end;
     last_update_time := last_update_time m;
     update_count := update_count m;
     last_encoder_update := last_encoder_update m |}.

(** [StateManager._set_position] *)
Definition _set_position (now : R) (x y heading : R) (m : Manager) : Manager :=
  let s := robot_state m in
  with_state {| position := {| x := x; y := y |};
                heading := heading;
                velocity := velocity s;
                status := status s;
                mission_status := mission_status s;
                last_updated := now;
                odometry_valid := odometry_valid s;
                encoder_data := encoder_data s |} m.

Definition valid_statuses : list string :=
  ["active"; "idle"; "error"; "emergency_stop"].

(** [StateManager._set_status] *)
Definition _set_status (now : R) (status : string) (m : Manager) : Manager :=
  if negb (existsb (String.eqb status) valid_statuses) then m
  else
    let s := robot_state m in
    with_state {| position := position s;
                  heading := heading s;
                  velocity := velocity s;
                  status := status;
                  mission_status := mission_status s;
                  last_updated := now;
                  odometry_valid := odometry_valid s;
                  encoder_data := encoder_data s |} m.

(** [StateManager._handle_emergency_stop] *)
Definition _handle_emergency_stop (now : R) (m : Manager) : Manager :=
  let s := robot_state m in
  with_state {| position := position s;
                heading := heading s;
                velocity := {| linear := 0; angular := 0 |};
                status := "emergency_stop";
                mission_status := mission_status s;
                last_updated := now;
                odometry_valid := odometry_valid s;
                encoder_data := encoder_data s |} m.

(** A manager whose wheels have turned the robot by half a turn to the
    right since the last update. *)
Definition half_turn : Manager :=
  {| wheel_base := 1;
     robot_state := robot_state (init 1 0);
     left_encoder_data := Some [("total_distance", PI)];
     right_encoder_data := Some [("total_distance", 0)];
     last_left_distance := 0;
     last_right_distance := 0;
     last_update_time := 0;
     update_count := 0;
     last_encoder_update := 0 |}.

End StateManager.

(* ===================================================================== *)
(** * hal_service/mqtt_client.py: topic types, subscriptions, dispatch *)
(* ===================================================================== *)

Module Subscriptions.

Import MqttClient.
Local Open Scope string_scope.
Local Open Scope Z_scope.

(** [TopicValidator.get_topic_type] *)
Definition get_topic_type (topic : string) : option string :=
  option_map fst
    (find (fun kv => match re_match (snd kv) topic with
                     | Some b => b
                     | None => false
                     end) VALID_PATTERNS).

(** [MQTTClientWrapper.connect]; [raised] tells whether
    [self._client.connect] raised.  The connection flag is not touched:
    it is set by [_on_connect]. *)
Definition connect (raised : bool) (c : Client) : bool * Client :=
  (negb raised, c).

Section Registry.

(** The handlers registered with [subscribe]. *)
Variable Callback : Type.

(** [d[key] = v] on a dict: the value of a key already present is
    replaced where it stands, a new key goes to the end. *)
Fixpoint dict_set (key : string) (v : Callback) (d : list (string * Callback))
  : list (string * Callback) :=
  match d with
  | [] => [(key, v)]
  | (k, x) :: d' =>
      if String.eqb k key then (k, v) :: d' else (k, x) :: dict_set key v d'
  end.

(** [d.pop(key, None)] *)
Fixpoint dict_pop (key : string) (d : list (string * Callback))
  : list (string * Callback) :=
  match d with
  | [] => []
  | (k, x) :: d' =>
      if String.eqb k key then d' else (k, x) :: dict_pop key d'
  end.

(** [d.get(key)] *)
Fixpoint dict_lookup (key : string) (d : list (string * Callback))
  : option Callback :=
  match d with
  | [] => None
  | (k, x) :: d' => if String.eqb k key then Some x else dict_lookup key d'
  end.

(** The wrapper with its [_message_callbacks]. *)
Record Bus := {
  client : Client;
  _message_callbacks : list (string * Callback)
}.

(** [MQTTClientWrapper.subscribe].  [rc] is the result code of
    [self._client.subscribe], [None] when the call raises. *)
Definition subscribe (rc : option Z) (b : Bus) (topic_pattern : string)
    (callback : Callback) : bool * Bus :=
  if negb (_connected (client b)) then (false, b)
  else
    match rc with
    | Some code =>
        if code =? 0
        then (true, {| client := client b;
                       _message_callbacks :=
                         dict_set topic_pattern callback (_message_callbacks b) |})
        else (false, b)
    | None => (false, b)
    end.

(** [MQTTClientWrapper.unsubscribe] *)
Definition unsubscribe (rc : option Z) (b : Bus) (topic_pattern : string)
  : bool * Bus :=
  if negb (_connected (client b)) then (false, b)
  else
    match rc with
    | Some code =>
        if code =? 0
        then (true, {| client := client b;
                       _message_callbacks :=
                         dict_pop topic_pattern (_message_callbacks b) |})
        else (false, b)
    | None => (false, b)
    end.

(** The loop over [self._message_callbacks.items()] in [_on_message]: the
    handlers called, in order.  [None] when a pattern lies outside the
    fragment of regular expressions that is modelled. *)
Fixpoint dispatch (topic : string) (callbacks : list (string * Callback))
  : option (list Callback) :=
  match callbacks with
  | [] => Some []
  | (pattern, callback) :: rest =>
      match _topic_matches_pattern topic pattern with
      | None => None
      | Some true => option_map (cons callback) (dispatch topic rest)
      | Some false => dispatch topic rest
      end
  end.

(** [message_data] as the handlers receive it. *)
Record MessageData := {
  md_topic : string;
  md_payload : PyValue;
  md_qos : Z;
  md_retain : bool;
  md_received_at : string
}.

(** [json.loads(msg.payload.decode('utf-8'))]; [None] when it raises. *)
Variable json_loads : string -> option PyValue.

(** [MQTTClientWrapper._on_message]: the handlers called with the
    message they are given. *)
Definition _on_message (now_iso : string) (b : Bus)
    (topic payload : string) (qos : Z) (retain : bool)
  : option (list Callback * option MessageData) :=
  if negb (validate_topic topic) then Some ([], None)
  else
    match json_loads payload with
    | None => Some ([], None)
    | Some value =>
        option_map
          (fun called =>
             (called, Some {| md_topic := topic; md_payload := value;
                              md_qos := qos; md_retain := retain;
                              md_received_at := now_iso |}))
          (dispatch topic (_message_callbacks b))
    end.

End Registry.

Arguments dict_set {Callback} key v d.
Arguments dict_pop {Callback} key d.
Arguments dict_lookup {Callback} key d.
Arguments Build_Bus {Callback} client _message_callbacks.
Arguments client {Callback} b.
Arguments _message_callbacks {Callback} b.
Arguments subscribe {Callback} rc b topic_pattern callback.
Arguments unsubscribe {Callback} rc b topic_pattern.
Arguments dispatch {Callback} topic callbacks.
Arguments _on_message {Callback} json_loads now_iso b topic payload qos retain.

End Subscriptions.

(* ===================================================================== *)
(** * hal_service/safety_monitor.py: processing times *)
(* ===================================================================== *)

Module Performance.

Import SafetyMonitor.
Local Open Scope Q_scope.

(** The performance fields of [SafetyMonitor]. *)
Record Perf := {
  processing_times : list Q;
  max_processing_time : Q;
  avg_processing_time : Q
}.

(** Their values after [__init__]. *)
Definition init_perf : Perf :=
  {| processing_times := []; max_processing_time := 0;
     avg_processing_time := 0 |}.

(** [max(a, b)] *)
Definition py_max (a b : Q) : Q := if Qlt_bool a b then b else a.

(** [sum(l)] *)
Definition py_sum (l : list Q) : Q := fold_left Qplus l 0.

(** The [finally] block of [_process_lidar_data] for a scan that took
    [processing_time] seconds. *)
Definition track (processing_time : Q) (p : Perf) : Perf :=
  let times := processing_times p ++ [processing_time] in
  let times := if (100 <? List.length times)%nat then last_n 50 times
               else times in
  {| processing_times := times;
     max_processing_time := py_max (max_processing_time p) processing_time;
     avg_processing_time :=
       py_sum times / inject_Z (Z.of_nat (List.length times)) |}.

End Performance.

(* ===================================================================== *)
(** * hal_service/state_manager.py: commands and message handlers *)
(* ===================================================================== *)

Module Commands.

Import StateManager.
Local Open Scope string_scope.
Local Open Scope R_scope.

(** The payload of a message on [orchestrator/cmd/state_manager]; a
    field is [None] when the key is missing. *)
Record Command := {
  cmd_action : option string;
  cmd_x : option R;
  cmd_y : option R;
  cmd_heading : option R;
  cmd_status : option string
}.

(** [payload.get(key, default)] *)
Definition get {A : Type} (o : option A) (default : A) : A :=
  match o with Some v => v | None => default end.

(** [StateManager._handle_command] *)
Definition _handle_command (now : R) (payload : Command) (m : Manager)
  : Manager :=
  let action := get (cmd_action payload) "" in
  if String.eqb action "reset_odometry" then _reset_odometry now m
  else if String.eqb action "set_position"
  then _set_position now (get (cmd_x payload) 0) (get (cmd_y payload) 0)
                     (get (cmd_heading payload) 0) m
  else if String.eqb action "set_status"
  then _set_status now (get (cmd_status payload) "idle") m
  else m.

(** [str.lower] on ASCII text. *)
Definition lower_char (c : ascii) : ascii :=
  if MqttClient.in_range "A" "Z" c
  then ascii_of_nat (nat_of_ascii c + 32)
  else c.

Fixpoint lower (s : string) : string :=
  match s with
  | EmptyString => EmptyString
  | String c s' => String (lower_char c) (lower s')
  end.

(** [needle in s] *)
Fixpoint contains (needle s : string) : bool :=
  MqttClient.starts_with needle s
  || match s with
     | EmptyString => false
     | String _ s' => contains needle s'
     end.

(** [StateManager._handle_encoder_data], the handler of the fallback
    subscription; [device_id] and [data] are the fields of the payload,
    [None] when missing. *)
Definition _handle_encoder_data (now : R) (topic : string)
    (device_id : option string) (data : option EncoderData) (m : Manager)
  : Manager :=
  let encoder_data := get data [] in
  let device_id := get device_id "" in
  let store (left_data right_data : option EncoderData) :=
    let m1 := {| wheel_base := wheel_base m;
                 robot_state := robot_state m;
                 left_encoder_data := left_data;
                 right_encoder_data := right_data;
                 last_left_distance := last_left_distance m;
                 last_right_distance := last_right_distance m;
                 last_update_time := last_update_time m;
                 update_count := update_count m;
                 last_encoder_update := now |} in
    if truthy (left_encoder_data m1) && truthy (right_encoder_data m1)
    then _update_odometry now m1 else m1 in
  if contains "left" (lower topic) || contains "left" (lower device_id)
  then store (Some encoder_data) (right_encoder_data m)
  else if contains "right" (lower topic) || contains "right" (lower device_id)
  then store (left_encoder_data m) (Some encoder_data)
  else m.

(** The messages the state manager reacts to. *)
Inductive Event :=
| LeftEncoder (now : R) (data : option EncoderData)
| RightEncoder (now : R) (data : option EncoderData)
| CommandMessage (now : R) (payload : Command)
| EmergencyStop (now : R).

Definition step (m : Manager) (e : Event) : Manager :=
  match e with
  | LeftEncoder now data => _handle_left_encoder_data now data m
  | RightEncoder now data => _handle_right_encoder_data now data m
  | CommandMessage now payload => _handle_command now payload m
  | EmergencyStop now => _handle_emergency_stop now m
  end.

Definition run (m : Manager) (es : list Event) : Manager := fold_left step es m.

End Commands.

(* ===================================================================== *)
(** * Properties *)
(* ===================================================================== *)

Section SafetyMonitorFacts.

Import SafetyMonitor.
Local Open Scope Q_scope.

Lemma Qle_bool_true (a b : Q) : Qle_bool a b = true <-> a <= b.
Proof. apply Qle_bool_iff. Qed.

Lemma Qle_bool_false (a b : Q) : Qle_bool a b = false <-> b < a.
Proof.
  split; intro H.
  - apply Qnot_le_lt. intro Hle. apply Qle_bool_iff in Hle. congruence.
  - destruct (Qle_bool a b) eqn:E; [|reflexivity].
    apply Qle_bool_iff in E. exfalso. apply (Qlt_not_le _ _ H E).
Qed.

Lemma Qlt_bool_true (a b : Q) : Qlt_bool a b = true <-> a < b.
Proof.
  unfold Qlt_bool. rewrite negb_true_iff. apply Qle_bool_false.
Qed.

(** [angle % 360] lands in [[0, 360)]. *)
Lemma mod360_range (a : Q) : 0 <= mod360 a /\ mod360 a < 360.
Proof.
  unfold mod360.
  pose proof (Qfloor_le (a / 360)) as Hlo.
  pose proof (Qlt_floor (a / 360)) as Hhi.
  rewrite inject_Z_plus in Hhi. change (inject_Z 1) with 1 in Hhi.
  assert (Ha : a == 360 * (a / 360)) by field.
  set (f := inject_Z (Qfloor (a / 360))) in *.
  set (x := a / 360) in *.
  clearbody f x.
  split; Lqa.lra.
Qed.

Lemma in_zone_normal (z : SafetyZone) (na : Q) :
  min_angle z <= max_angle z ->
  (in_zone z na = true <-> min_angle z <= na /\ na <= max_angle z).
Proof.
  intro H. unfold in_zone.
  apply Qle_bool_true in H. rewrite H.
  rewrite andb_true_iff, !Qle_bool_true. tauto.
Qed.

Lemma in_zone_wrap (z : SafetyZone) (na : Q) :
  max_angle z < min_angle z ->
  (in_zone z na = true <-> min_angle z <= na \/ na <= max_angle z).
Proof.
  intro H. unfold in_zone.
  apply Qle_bool_false in H. rewrite H.
  rewrite orb_true_iff, !Qle_bool_true. tauto.
Qed.

Lemma is_obstacle_spec (z : SafetyZone) (d a : Q) :
  is_obstacle z (d, a) = true <->
  in_zone z (mod360 a) = true /\ (1 # 10) <= d /\ d <= min_distance z.
Proof.
  unfold is_obstacle.
  rewrite !andb_true_iff, !Qle_bool_true. tauto.
Qed.

Lemma in_zone_spec (z : SafetyZone) (na : Q) :
  in_zone z na = true <->
  (min_angle z <= max_angle z /\ min_angle z <= na /\ na <= max_angle z)
  \/ (max_angle z < min_angle z /\ (min_angle z <= na \/ na <= max_angle z)).
Proof.
  destruct (Qlt_le_dec (max_angle z) (min_angle z)) as [Hw | Hn].
  - rewrite (in_zone_wrap z na Hw). split.
    + intro H. right. split; assumption.
    + intros [[H _] | [_ H]]; [|exact H].
      exfalso. exact (Qlt_not_le _ _ Hw H).
  - rewrite (in_zone_normal z na Hn). split.
    + intro H. left. split; assumption.
    + intros [[_ H] | [H _]]; [exact H|].
      exfalso. exact (Qlt_not_le _ _ H Hn).
Qed.

Lemma check_zone_In (z : SafetyZone) (rs angs : list Q) (d a : Q) :
  In (d, a) (_check_zone_for_obstacles z rs angs) <->
  In (d, a) (combine rs angs) /\ is_obstacle z (d, a) = true.
Proof. unfold _check_zone_for_obstacles. apply filter_In. Qed.

(** C2: a point whose angle is normalized into [0, 360) is in the zone
    iff [min_angle <= angle <= max_angle] when [min_angle <= max_angle],
    and iff [angle >= min_angle] or [angle <= max_angle] in the wrap case;
    it is reported as an obstacle of the zone iff it is in the zone and
    [0.1 <= distance <= min_distance]; a zone from 350 to 10 degrees
    contains 359 and 1 degrees. *)
Theorem zone_membership_test :
  (forall (z : SafetyZone) (rs angs : list Q) (d a : Q),
      let na := mod360 a in
      (0 <= na /\ na < 360)
      /\ (in_zone z na = true <->
          (min_angle z <= max_angle z /\ min_angle z <= na /\ na <= max_angle z)
          \/ (max_angle z < min_angle z
              /\ (min_angle z <= na \/ na <= max_angle z)))
      /\ (In (d, a) (_check_zone_for_obstacles z rs angs) <->
          In (d, a) (combine rs angs)
          /\ in_zone z na = true /\ (1 # 10) <= d /\ d <= min_distance z))
  /\ (forall (n act : string) (dist : Q) (prio : Z),
        let z := {| name := n; min_angle := 350; max_angle := 10;
                    min_distance := dist; priority := prio; action := act |} in
        in_zone z (mod360 359) = true /\ in_zone z (mod360 1) = true).
Proof.
  split.
  - intros z rs angs d a na. split; [apply mod360_range|]. split.
    + apply in_zone_spec.
    + rewrite check_zone_In, is_obstacle_spec. reflexivity.
  - intros. split; reflexivity.
Qed.

(** No point is an obstacle of a zone that none of the scan's angles
    falls in. *)
Lemma check_zone_outside (z : SafetyZone) (rs angs : list Q) :
  Forall (fun a => in_zone z (mod360 a) = false) angs ->
  _check_zone_for_obstacles z rs angs = [].
Proof.
  intro H. unfold _check_zone_for_obstacles.
  revert rs. induction H as [| a angs Ha _ IH]; intros [| r rs]; simpl; trivial.
  rewrite Ha. simpl. apply IH.
Qed.

Lemma front_zone_outside (threshold na : Q) (n act : string) (prio : Z) :
  315 <= na -> na < 360 ->
  in_zone {| name := n; min_angle := -45; max_angle := 45;
             min_distance := threshold; priority := prio; action := act |}
          na = false.
Proof.
  intros Hlo Hhi. unfold in_zone. simpl.
  replace (Qle_bool (-45) 45) with true by reflexivity.
  apply andb_false_iff. right. apply Qle_bool_false. Lqa.lra.
Qed.

(** C10: the default front stop zone is built with [min_angle = -45] and
    [max_angle = 45]; against angles normalized into [0, 360) this is the
    non-wrap branch, so a point whose normalized angle lies in
    [315, 360), such as one reported at -10 degrees, is outside the front
    zone whatever its distance, and a scan made of such points triggers
    no emergency stop under the default zones. *)
Theorem default_front_zone_misses_right_front_sector
    (threshold : Q) (m : Monitor) (now : Q) (success : bool) (scan : LidarData) :
  safety_zones m = _initialize_safety_zones threshold [] ->
  emergency_stop_active m = false ->
  Forall (fun a => 315 <= mod360 a /\ mod360 a < 360) (angles scan) ->
  (exists front rest,
      safety_zones m = front :: rest
      /\ name front = "critical_front"%string
      /\ min_angle front = -45 /\ max_angle front = 45
      /\ action front = "stop"%string
      /\ Forall (fun z => action z <> "stop"%string) rest
      /\ Forall (fun a => in_zone front (mod360 a) = false) (angles scan)
      /\ _check_zone_for_obstacles front (ranges scan) (angles scan) = [])
  /\ critical_obstacles now (safety_zones m) (ranges scan) (angles scan) = []
  /\ emergency_stop_active (_process_lidar_data now success scan m) = false
  /\ published (_process_lidar_data now success scan m) = published m
  /\ mod360 (-10) == 350.
Proof.
  intros Hz Hact Hang.
  assert (Hout : Forall (fun a =>
            in_zone {| name := "critical_front"; min_angle := -45;
                       max_angle := 45; min_distance := threshold;
                       priority := 1; action := "stop" |} (mod360 a) = false)
            (angles scan)).
  { eapply Forall_impl; [|exact Hang]. intros a [Hlo Hhi].
    apply front_zone_outside; assumption. }
  assert (Hcrit : critical_obstacles now (safety_zones m) (ranges scan)
                                     (angles scan) = []).
  { rewrite Hz. unfold critical_obstacles, _initialize_safety_zones. simpl.
    unfold detections_of_zone. rewrite (check_zone_outside _ _ _ Hout).
    reflexivity. }
  split; [|split; [exact Hcrit|]].
  - rewrite Hz. unfold _initialize_safety_zones. simpl.
    eexists. eexists. split; [reflexivity|]. simpl.
    repeat split; trivial.
    + repeat constructor; simpl; discriminate.
    + apply check_zone_outside. exact Hout.
  - assert (H10 : mod360 (-10) == 350) by reflexivity.
    unfold _process_lidar_data.
    destruct (negb _); [auto|].
    rewrite Hcrit. simpl. auto.
Qed.

Lemma default_front_zone_misses_right_front_sector_witness :
  let m := init (1 # 2) [] in
  let scan := {| ranges := [3 # 10]; angles := [-10]; scan_timestamp := 0 |} in
  emergency_stop_active (_process_lidar_data 0 true scan m) = false
  /\ published (_process_lidar_data 0 true scan m) = published m.
Proof.
  intros m scan.
  refine (let H := default_front_zone_misses_right_front_sector
                     (1 # 2) m 0 true scan _ _ _ in
          conj (proj1 (proj2 (proj2 H))) (proj1 (proj2 (proj2 (proj2 H))))).
  - reflexivity.
  - reflexivity.
  - repeat constructor; vm_compute; congruence.
Defined.

(** ** The emergency-stop latch *)

Lemma detections_of_zone_stamp (now : Q) (rs angs : list Q) (z : SafetyZone) :
  action z = "stop"%string ->
  Forall (fun d => timestamp d = now /\ severity d = "critical"%string)
         (detections_of_zone now rs angs z).
Proof.
  intro Hz. unfold detections_of_zone. apply Forall_forall.
  intros d Hd. apply in_map_iff in Hd. destruct Hd as [o [<- _]]. simpl.
  rewrite Hz. split; reflexivity.
Qed.

Lemma critical_obstacles_stamp (now : Q) (zones : list SafetyZone)
    (rs angs : list Q) :
  Forall (fun d => timestamp d = now /\ severity d = "critical"%string)
         (critical_obstacles now zones rs angs).
Proof.
  unfold critical_obstacles. apply Forall_flat_map. apply Forall_forall.
  intros z Hz. apply filter_In in Hz. destruct Hz as [_ Hz].
  apply detections_of_zone_stamp. apply String.eqb_eq. exact Hz.
Qed.

Lemma estop_publishes_snoc (m : Monitor) (t : string) (p : Payload) (q : Z) :
  estop_publishes (publish t p q m)
  = (estop_publishes m + if String.eqb t estop_topic then 1 else 0)%nat.
Proof.
  unfold estop_publishes, publish. simpl.
  rewrite filter_app, length_app. simpl.
  destruct (String.eqb t estop_topic); reflexivity.
Qed.

(** The first trigger publishes the command exactly once. *)
Lemma trigger_unlatched (now : Q) (success : bool)
    (d : ObstacleDetection) (rest : list ObstacleDetection) (m : Monitor) :
  emergency_stop_active m = false ->
  let m' := _trigger_emergency_stop now success (d :: rest) m in
  emergency_stop_active m' = true
  /\ emergency_stops_triggered m' = (emergency_stops_triggered m + 1)%Z
  /\ estop_publishes m' = S (estop_publishes m)
  /\ obstacle_detections m' = obstacle_detections m
  /\ safety_zones m' = safety_zones m.
Proof.
  intro Hoff. unfold _trigger_emergency_stop. rewrite Hoff.
  destruct success; cbv zeta; unfold _publish_safety_status;
    rewrite ?estop_publishes_snoc; simpl;
    repeat split; try reflexivity; unfold estop_publishes; simpl; lia.
Qed.

(** A trigger while latched changes nothing. *)
Lemma trigger_latched (now : Q) (success : bool)
    (obstacles : list ObstacleDetection) (m : Monitor) :
  emergency_stop_active m = true ->
  _trigger_emergency_stop now success obstacles m = m.
Proof. intro Hon. unfold _trigger_emergency_stop. rewrite Hon. reflexivity. Qed.

Lemma last_n_incl {A : Type} (n : nat) (l : list A) : incl (last_n n l) l.
Proof.
  unfold last_n. intros x Hx.
  rewrite <- (firstn_skipn (List.length l - n) l).
  apply in_or_app. right. exact Hx.
Qed.

Lemma last_n_keeps {A : Type} (n : nat) (l1 l2 : list A) (x : A) :
  (List.length l2 < n)%nat -> In x (last_n n (l1 ++ x :: l2)).
Proof.
  intro H. unfold last_n. rewrite skipn_app.
  apply in_or_app. right.
  rewrite length_app. simpl.
  replace (List.length l1 + S (List.length l2) - n - List.length l1)%nat
    with 0%nat by lia.
  simpl. left. reflexivity.
Qed.

Lemma limit_history_keeps (l1 l2 : list ObstacleDetection) (x : ObstacleDetection) :
  (List.length l2 < 500)%nat -> In x (limit_history (l1 ++ x :: l2)).
Proof.
  intro H. unfold limit_history.
  destruct (1000 <? _)%nat.
  - apply last_n_keeps. exact H.
  - apply in_or_app. right. left. reflexivity.
Qed.

Lemma limit_history_short (h : list ObstacleDetection) :
  (List.length h <= 1000)%nat -> limit_history h = h.
Proof.
  intro H. unfold limit_history.
  destruct (1000 <? List.length h)%nat eqn:E; [|reflexivity].
  apply Nat.ltb_lt in E. lia.
Qed.

Lemma last_n_app_long {A : Type} (n : nat) (l1 l2 : list A) :
  (n <= List.length l2)%nat -> last_n n (l1 ++ l2) = last_n n l2.
Proof.
  intro H. unfold last_n. rewrite skipn_app, length_app.
  rewrite skipn_all2 by lia. simpl. f_equal. lia.
Qed.

Lemma warning_obstacles_stamp (now : Q) (zones : list SafetyZone)
    (rs angs : list Q) :
  Forall (fun d => timestamp d = now /\ severity d = "warning"%string)
         (warning_obstacles now zones rs angs).
Proof.
  unfold warning_obstacles. apply Forall_flat_map. apply Forall_forall.
  intros z Hz. apply filter_In in Hz. destruct Hz as [_ Hz].
  apply negb_true_iff in Hz.
  unfold detections_of_zone. apply Forall_forall.
  intros d Hd. apply in_map_iff in Hd. destruct Hd as [o [<- _]]. simpl.
  rewrite Hz. split; reflexivity.
Qed.

(** C3, as stated, fails: a latched monitor receives a scan with one
    point in the stop zone and a thousand in a warning zone.  The
    critical detection is put in front of the scan's warning detections,
    the history grows past 1000 entries and is cut to its last 500, which
    are all warnings: the history holds no critical detection after the
    scan, the new one included. *)
Lemma critical_detection_dropped_by_history_cap :
  let scan1 := {| ranges := [3 # 10]; angles := [0];
                  scan_timestamp := 100 |} in
  let m := run (init (1 # 2) []) [LidarMessage 100 true (Some scan1)] in
  let scan2 := {| ranges := repeat (3 # 10) 1001;
                  angles := 0 :: repeat 90 1000;
                  scan_timestamp := 200 |} in
  let crit := critical_obstacles 200 (safety_zones m) (ranges scan2)
                                 (angles scan2) in
  let m' := _process_lidar_data 200 true scan2 m in
  emergency_stop_active m = true
  /\ List.length (ranges scan2) = List.length (angles scan2)
  /\ List.length crit = 1%nat
  /\ List.length (obstacle_detections m') = 500%nat
  /\ (forall d, In d (obstacle_detections m') ->
      severity d = "warning"%string)
  /\ ~ (forall dflt, In (last crit dflt) (obstacle_detections m')).
Proof.
  cbv zeta.
  set (m := run _ _). set (scan2 := {| ranges := repeat _ _ |}).
  assert (Hwarn : forall d,
            In d (obstacle_detections (_process_lidar_data 200 true scan2 m)) ->
            severity d = "warning"%string).
  { assert (Hall : forallb (fun d => String.eqb (severity d) "warning")
                     (obstacle_detections
                        (_process_lidar_data 200 true scan2 m)) = true)
      by (vm_compute; reflexivity).
    rewrite forallb_forall in Hall. intros d Hd.
    apply String.eqb_eq. apply Hall. exact Hd. }
  split; [reflexivity|].
  split; [vm_compute; reflexivity|].
  split; [vm_compute; reflexivity|].
  split; [vm_compute; reflexivity|].
  split; [exact Hwarn|].
  intro Hin.
  pose proof (critical_obstacles_stamp 200 (safety_zones m) (ranges scan2)
                                       (angles scan2)) as Hstamp.
  remember (critical_obstacles 200 (safety_zones m) (ranges scan2)
                               (angles scan2)) as crit eqn:Ecrit.
  assert (Hne : crit <> []).
  { rewrite Ecrit. vm_compute. discriminate. }
  destruct (exists_last Hne) as (front & d & Hc).
  specialize (Hin d). rewrite Hc, last_last in Hin.
  apply Hwarn in Hin.
  rewrite Hc in Hstamp. apply Forall_app in Hstamp.
  destruct Hstamp as [_ Hd]. inversion Hd as [| ? ? [_ Hsev] _]; subst.
  rewrite Hsev in Hin. discriminate.
Qed.

(** C3: a scan with a critical detection that arrives while the latch is
    active publishes nothing and leaves the trigger counter alone.  Its
    critical detections, stamped with the current time, are appended to
    the detection history in front of the scan's warning detections, and
    the history is then cut to its last 500 entries when it holds more
    than 1000: the newest critical detection is in the history after the
    scan when the scan yields fewer than 500 warning detections or the
    history stays within 1000 entries, and in the remaining case only the
    last 500 warning detections of the scan are left.  The scan that sets
    the latch publishes the emergency-stop command exactly once, and a
    further critical scan adds no second one. *)
Theorem trigger_is_idempotent_while_latched
    (m : Monitor) (now : Q) (success : bool) (scan : LidarData) :
  List.length (ranges scan) = List.length (angles scan) ->
  critical_obstacles now (safety_zones m) (ranges scan) (angles scan) <> [] ->
  let crit := critical_obstacles now (safety_zones m) (ranges scan)
                                 (angles scan) in
  let warn := warning_obstacles now (safety_zones m) (ranges scan)
                                (angles scan) in
  let m' := _process_lidar_data now success scan m in
  Forall (fun d => timestamp d = now /\ severity d = "critical"%string) crit
  /\ obstacle_detections m'
     = limit_history (obstacle_detections m ++ crit ++ warn)
  /\ (forall dflt,
        (List.length warn < 500)%nat
        \/ (List.length (obstacle_detections m ++ crit ++ warn) <= 1000)%nat ->
        In (last crit dflt) (obstacle_detections m'))
  /\ ((500 <= List.length warn)%nat ->
      (1000 < List.length (obstacle_detections m ++ crit ++ warn))%nat ->
      obstacle_detections m' = last_n 500 warn
      /\ Forall (fun d => severity d = "warning"%string)
                (obstacle_detections m'))
  /\ emergency_stop_active m' = true
  /\ (emergency_stop_active m = true ->
      published m' = published m
      /\ emergency_stops_triggered m' = emergency_stops_triggered m)
  /\ (emergency_stop_active m = false ->
      estop_publishes m' = S (estop_publishes m)
      /\ emergency_stops_triggered m' = (emergency_stops_triggered m + 1)%Z)
  /\ (forall (now2 : Q) (success2 : bool) (scan2 : LidarData),
        List.length (ranges scan2) = List.length (angles scan2) ->
        critical_obstacles now2 (safety_zones m) (ranges scan2) (angles scan2)
          <> [] ->
        published (_process_lidar_data now2 success2 scan2 m') = published m').
Proof.
  intros Hlen Hne. cbv zeta.
  pose proof (critical_obstacles_stamp now (safety_zones m) (ranges scan)
                                       (angles scan)) as Hstamp.
  remember (critical_obstacles now (safety_zones m) (ranges scan)
                               (angles scan)) as crit eqn:Ecrit.
  remember (warning_obstacles now (safety_zones m) (ranges scan)
                              (angles scan)) as warn eqn:Ewarn.
  remember (_process_lidar_data now success scan m) as m' eqn:Em'.
  assert (Hproc : m' = set_detections
            (limit_history (obstacle_detections
                (_trigger_emergency_stop now success crit m) ++ crit ++ warn))
            (_trigger_emergency_stop now success crit m)).
  { rewrite Em'. unfold _process_lidar_data.
    rewrite Hlen, Nat.eqb_refl. simpl.
    rewrite <- Ecrit, <- Ewarn. destruct crit; [contradiction | reflexivity]. }
  clear Em'.
  assert (Hhist : obstacle_detections (_trigger_emergency_stop now success crit m)
                  = obstacle_detections m
          /\ emergency_stop_active (_trigger_emergency_stop now success crit m)
             = true
          /\ safety_zones (_trigger_emergency_stop now success crit m)
             = safety_zones m).
  { destruct (emergency_stop_active m) eqn:Hact.
    - rewrite trigger_latched by exact Hact. auto.
    - destruct crit as [| d rest] eqn:Hc; [contradiction|].
      destruct (trigger_unlatched now success d rest m Hact)
        as (H1 & _ & _ & H4 & H5). auto. }
  destruct Hhist as (Hh & Hon & Hzs).
  assert (Hdet : obstacle_detections m'
                 = limit_history (obstacle_detections m ++ crit ++ warn)).
  { rewrite Hproc. simpl. rewrite Hh. reflexivity. }
  split; [exact Hstamp|].
  split; [exact Hdet|].
  split.
  { intros dflt Hw. rewrite Hdet.
    destruct (exists_last Hne) as (front & d & Hc).
    destruct Hw as [Hw | Hw].
    - rewrite Hc, last_last.
      rewrite <- app_assoc, app_assoc. simpl.
      apply limit_history_keeps. exact Hw.
    - rewrite limit_history_short by exact Hw.
      rewrite Hc, last_last.
      apply in_or_app. right. apply in_or_app. left.
      apply in_or_app. right. left. reflexivity. }
  split.
  { intros Hw Hlong. rewrite Hdet.
    assert (Hcut : limit_history (obstacle_detections m ++ crit ++ warn)
                   = last_n 500 warn).
    { unfold limit_history.
      apply Nat.ltb_lt in Hlong. rewrite Hlong.
      rewrite !last_n_app_long; [reflexivity | exact Hw |].
      rewrite length_app. lia. }
    rewrite Hcut. split; [reflexivity|].
    pose proof (warning_obstacles_stamp now (safety_zones m) (ranges scan)
                                        (angles scan)) as Hws.
    rewrite <- Ewarn in Hws. rewrite Forall_forall in Hws.
    apply Forall_forall. intros d Hd.
    apply (Hws d). exact (last_n_incl 500 _ d Hd). }
  split; [rewrite Hproc; exact Hon|].
  split.
  { intro Hact. rewrite Hproc, trigger_latched by exact Hact. auto. }
  split.
  { intro Hact. rewrite Hproc.
    destruct crit as [| d rest] eqn:Hc; [contradiction|].
    destruct (trigger_unlatched now success d rest m Hact)
      as (_ & H2 & H3 & _ & _).
    split; [exact H3 | exact H2]. }
  intros now2 success2 scan2 Hlen2 Hne2.
  assert (Hon' : emergency_stop_active m' = true) by (rewrite Hproc; exact Hon).
  assert (Hz' : safety_zones m' = safety_zones m) by (rewrite Hproc; exact Hzs).
  unfold _process_lidar_data. rewrite Hlen2, Nat.eqb_refl. simpl.
  rewrite Hz'.
  destruct (critical_obstacles now2 (safety_zones m) (ranges scan2)
                               (angles scan2)); [contradiction|].
  rewrite trigger_latched by exact Hon'. reflexivity.
Qed.

Lemma trigger_is_idempotent_while_latched_witness :
  let m := set_active true (init (1 # 2) []) in
  let scan := {| ranges := [3 # 10]; angles := [0]; scan_timestamp := 1 |} in
  List.length (ranges scan) = List.length (angles scan)
  /\ critical_obstacles 1 (safety_zones m) (ranges scan) (angles scan) <> []
  /\ (emergency_stop_active m = true ->
      published (_process_lidar_data 1 true scan m) = published m
      /\ emergency_stops_triggered (_process_lidar_data 1 true scan m)
         = emergency_stops_triggered m).
Proof.
  intros m scan.
  assert (H1 : List.length (ranges scan) = List.length (angles scan))
    by reflexivity.
  assert (H2 : critical_obstacles 1 (safety_zones m) (ranges scan)
                                  (angles scan) <> [])
    by (vm_compute; discriminate).
  split; [exact H1 | split; [exact H2 |]].
  exact (proj1 (proj2 (proj2 (proj2 (proj2 (proj2
           (trigger_is_idempotent_while_latched m 1 true scan H1 H2))))))).
Defined.

(** What [_check_emergency_stop_reset] looks at: the latch is released
    exactly when it is set, a scan has been received, and none of the
    last ten entries of the history is a critical detection younger than
    three seconds. *)
Lemma reset_clears_iff (now : Q) (m : Monitor) :
  emergency_stop_active m = true ->
  (emergency_stop_active (_check_emergency_stop_reset now m) = false <->
   last_lidar_data m <> None
   /\ Forall (fun d => is_recent_critical now d = false)
             (last_n 10 (obstacle_detections m))).
Proof.
  intro Hon. unfold _check_emergency_stop_reset. rewrite Hon. simpl.
  destruct (last_lidar_data m) as [d |].
  - destruct (filter _ _) as [| x l] eqn:Hf.
    + simpl. split; [intros _ | reflexivity].
      split; [discriminate|].
      apply Forall_forall. intros y Hy.
      destruct (is_recent_critical now y) eqn:Hy'; [|reflexivity].
      assert (Hin : In y (filter (is_recent_critical now)
                                 (last_n 10 (obstacle_detections m))))
        by (apply filter_In; split; assumption).
      rewrite Hf in Hin. destruct Hin.
    + split; [congruence|]. intros [_ Hall]. exfalso.
      assert (Hin : In x (filter (is_recent_critical now)
                                 (last_n 10 (obstacle_detections m))))
        by (rewrite Hf; left; reflexivity).
      apply filter_In in Hin. destruct Hin as [Hin Hx].
      rewrite Forall_forall in Hall. rewrite (Hall x Hin) in Hx. discriminate.
  - split; [congruence|]. intros [H _]. contradiction.
Qed.

(** C1: the reset check reads only the last ten entries of the
    detection history.  One scan with a critical point straight ahead and
    ten warning points to the left sets the latch; the monitoring cycle
    one second later releases it, although the history holds a critical
    detection that is one second old. *)
Theorem reset_overlooks_recent_critical_detection :
  let scan := {| ranges := repeat (3 # 10) 11;
                 angles := 0 :: repeat 90 10;
                 scan_timestamp := 100 |} in
  let m1 := run (init (1 # 2) []) [LidarMessage 100 true (Some scan)] in
  let m2 := run (init (1 # 2) [])
                [LidarMessage 100 true (Some scan); MonitoringCycle 101] in
  emergency_stop_active m1 = true
  /\ obstacle_detections m2 = obstacle_detections m1
  /\ List.length (obstacle_detections m1) = 11%nat
  /\ (exists d, In d (obstacle_detections m2)
               /\ severity d = "critical"%string
               /\ timestamp d = 100
               /\ 101 - timestamp d < 3)
  /\ emergency_stop_active m2 = false.
Proof.
  cbv zeta.
  split; [reflexivity|]. split; [reflexivity|]. split; [reflexivity|].
  split; [|reflexivity].
  eexists. split; [left; reflexivity|].
  repeat split.
Qed.

End SafetyMonitorFacts.

Section StateManagerFacts.

Import StateManager.
Local Open Scope R_scope.

(** ** Heading normalization *)

Lemma wrap_down_eq (h : R) :
  wrap_down h = if Rlt_dec PI h then wrap_down (h - 2 * PI) else h.
Proof.
  rewrite wrap_down_equation_1. destruct (Rlt_dec PI h); reflexivity.
Qed.

Lemma wrap_up_eq (h : R) :
  wrap_up h = if Rlt_dec h (- PI) then wrap_up (h + 2 * PI) else h.
Proof.
  rewrite wrap_up_equation_1. destruct (Rlt_dec h (- PI)); reflexivity.
Qed.

Lemma wrap_down_range (h : R) :
  wrap_down h <= PI
  /\ (- PI <= h -> - PI <= wrap_down h)
  /\ (h <= PI -> wrap_down h = h).
Proof.
  remember (turns_above h) as n eqn:Hn.
  revert h Hn. induction n as [n IH] using lt_wf_ind. intros h Hn.
  rewrite wrap_down_eq. destruct (Rlt_dec PI h) as [Hgt | Hle].
  - assert (Hdec := turns_above_decreases h Hgt).
    destruct (IH (turns_above (h - 2 * PI)) ltac:(lia) (h - 2 * PI) eq_refl)
      as (H1 & H2 & H3).
    split; [exact H1|]. split.
    + intros _. apply H2. lra.
    + intro. lra.
  - split; [lra|]. split; auto.
Qed.

Lemma wrap_up_range (h : R) :
  - PI <= wrap_up h
  /\ (h <= PI -> wrap_up h <= PI)
  /\ (- PI <= h -> wrap_up h = h).
Proof.
  remember (turns_below h) as n eqn:Hn.
  revert h Hn. induction n as [n IH] using lt_wf_ind. intros h Hn.
  rewrite wrap_up_eq. destruct (Rlt_dec h (- PI)) as [Hlt | Hge].
  - assert (Hdec := turns_below_decreases h Hlt).
    destruct (IH (turns_below (h + 2 * PI)) ltac:(lia) (h + 2 * PI) eq_refl)
      as (H1 & H2 & H3).
    pose proof PI_RGT_0.
    split; [exact H1|]. split.
    + intros _. apply H2. lra.
    + intro. lra.
  - split; [lra|]. split; auto.
Qed.

Lemma normalize_range (h : R) : - PI <= normalize h <= PI.
Proof.
  unfold normalize.
  destruct (wrap_down_range h) as (H1 & _ & _).
  destruct (wrap_up_range (wrap_down h)) as (H2 & H3 & _).
  split; [exact H2 | exact (H3 H1)].
Qed.

Lemma normalize_id (h : R) : - PI <= h <= PI -> normalize h = h.
Proof.
  intros [Hlo Hhi]. unfold normalize.
  destruct (wrap_down_range h) as (_ & _ & H). rewrite (H Hhi).
  destruct (wrap_up_range h) as (_ & _ & H'). exact (H' Hlo).
Qed.

Lemma wrap_down_turns (h : R) :
  (exists k : Z, wrap_down h = h + IZR k * (2 * PI))
  /\ (PI < h -> - PI < wrap_down h).
Proof.
  remember (turns_above h) as n eqn:Hn.
  revert h Hn. induction n as [n IH] using lt_wf_ind. intros h Hn.
  rewrite wrap_down_eq. destruct (Rlt_dec PI h) as [Hgt | Hle].
  - assert (Hdec := turns_above_decreases h Hgt).
    destruct (IH (turns_above (h - 2 * PI)) ltac:(lia) (h - 2 * PI) eq_refl)
      as ([k Hk] & Hlow).
    split.
    + exists (k - 1)%Z. rewrite Hk, minus_IZR. ring.
    + intros _. destruct (Rlt_dec PI (h - 2 * PI)) as [Hfar | Hnear].
      * exact (Hlow Hfar).
      * destruct (wrap_down_range (h - 2 * PI)) as (_ & _ & Hid).
        rewrite Hid by lra. lra.
  - split; [exists 0%Z; ring | intro; lra].
Qed.

Lemma wrap_up_turns (h : R) :
  (exists k : Z, wrap_up h = h + IZR k * (2 * PI))
  /\ (h < - PI -> wrap_up h < PI).
Proof.
  remember (turns_below h) as n eqn:Hn.
  revert h Hn. induction n as [n IH] using lt_wf_ind. intros h Hn.
  rewrite wrap_up_eq. destruct (Rlt_dec h (- PI)) as [Hlt | Hge].
  - assert (Hdec := turns_below_decreases h Hlt).
    destruct (IH (turns_below (h + 2 * PI)) ltac:(lia) (h + 2 * PI) eq_refl)
      as ([k Hk] & Hhigh).
    split.
    + exists (k + 1)%Z. rewrite Hk, plus_IZR. ring.
    + intros _. destruct (Rlt_dec (h + 2 * PI) (- PI)) as [Hfar | Hnear].
      * exact (Hhigh Hfar).
      * destruct (wrap_up_range (h + 2 * PI)) as (_ & _ & Hid).
        rewrite Hid by lra. lra.
  - split; [exists 0%Z; ring | intro; lra].
Qed.

(** What the two loops compute: the heading moved by whole turns into
    [[- PI, PI]]; a heading above [PI] never lands on [- PI] and one
    below [- PI] never lands on [PI], so the result is the only such
    value. *)
Lemma normalize_spec (h : R) :
  - PI <= normalize h <= PI
  /\ (exists k : Z, normalize h = h + IZR k * (2 * PI))
  /\ (- PI <= h <= PI -> normalize h = h)
  /\ (PI < h -> - PI < normalize h)
  /\ (h < - PI -> normalize h < PI).
Proof.
  pose proof PI_RGT_0 as Hpi.
  split; [apply normalize_range|].
  split; [|split; [apply normalize_id|split]].
  - unfold normalize.
    destruct (wrap_down_turns h) as ([k1 H1] & _).
    destruct (wrap_up_turns (wrap_down h)) as ([k2 H2] & _).
    exists (k1 + k2)%Z. rewrite H2, H1, plus_IZR. ring.
  - intro Hgt. unfold normalize.
    destruct (wrap_down_turns h) as (_ & Hlow). specialize (Hlow Hgt).
    destruct (wrap_up_range (wrap_down h)) as (_ & _ & Hid).
    rewrite Hid by lra. exact Hlow.
  - intro Hlt. unfold normalize.
    destruct (wrap_down_range h) as (_ & _ & Hid).
    rewrite Hid by lra.
    destruct (wrap_up_turns h) as (_ & Hhigh). exact (Hhigh Hlt).
Qed.

(** The loops at work: three quarters of a turn to the left is a quarter
    turn to the right, and the other way round. *)
Lemma normalize_wraps :
  normalize (3 * PI / 2) = - (PI / 2)
  /\ normalize (- (3 * PI / 2)) = PI / 2.
Proof.
  pose proof PI_RGT_0 as Hpi. unfold normalize. split.
  - rewrite wrap_down_eq. destruct (Rlt_dec PI (3 * PI / 2)); [|lra].
    rewrite wrap_down_eq. destruct (Rlt_dec PI (3 * PI / 2 - 2 * PI)); [lra|].
    rewrite wrap_up_eq.
    destruct (Rlt_dec (3 * PI / 2 - 2 * PI) (- PI)); lra.
  - rewrite wrap_down_eq. destruct (Rlt_dec PI (- (3 * PI / 2))); [lra|].
    rewrite wrap_up_eq. destruct (Rlt_dec (- (3 * PI / 2)) (- PI)); [|lra].
    rewrite wrap_up_eq.
    destruct (Rlt_dec (- (3 * PI / 2) + 2 * PI) (- PI)); lra.
Qed.

(** What a call of [_update_odometry] can do to the heading. *)
Lemma update_heading_cases (now : R) (m : Manager) :
  (update_count (_update_odometry now m) = update_count m
   /\ heading (robot_state (_update_odometry now m)) = heading (robot_state m))
  \/ (update_count (_update_odometry now m) = (update_count m + 1)%Z
      /\ exists delta_heading,
          heading (robot_state (_update_odometry now m))
          = normalize (heading (robot_state m) + delta_heading)).
Proof.
  unfold _update_odometry.
  destruct (Rlt_dec _ _); [left; auto|].
  destruct (left_encoder_data m) as [l |]; [|left; auto].
  destruct (right_encoder_data m) as [r |]; [|left; auto].
  destruct (Req_dec_T _ _); [left; auto|].
  right. simpl. split; [reflexivity|]. eexists. reflexivity.
Qed.

(** ** The odometry update *)

(** The state an update that is carried out leaves behind. *)
Lemma update_carried_out
    (now : R) (m : Manager) (left_data right_data : EncoderData) :
  left_encoder_data m = Some left_data ->
  right_encoder_data m = Some right_data ->
  wheel_base m <> 0 ->
  1 / 1000 <= now - last_update_time m ->
  let dt := now - last_update_time m in
  let left_distance := dict_get "total_distance" 0 left_data in
  let right_distance := dict_get "total_distance" 0 right_data in
  let delta_left := left_distance - last_left_distance m in
  let delta_right := right_distance - last_right_distance m in
  let delta_distance := (delta_left + delta_right) / 2 in
  let delta_heading := (delta_right - delta_left) / wheel_base m in
  let s := robot_state m in
  let heading' := normalize (heading s + delta_heading) in
  _update_odometry now m
  = {| wheel_base := wheel_base m;
       robot_state :=
         {| position :=
              {| x := x (position s) + delta_distance * cos heading';
                 y := y (position s) + delta_distance * sin heading' |};
            heading := heading';
            velocity := {| linear := delta_distance / dt;
                           angular := delta_heading / dt |};
            status := status s;
            mission_status := mission_status s;
            last_updated := now;
            odometry_valid := true;
            encoder_data := Some (left_encoder_data m, right_encoder_data m) |};
       left_encoder_data := left_encoder_data m;
       right_encoder_data := right_encoder_data m;
       last_left_distance := left_distance;
       last_right_distance := right_distance;
       last_update_time := now;
       update_count := (update_count m + 1)%Z;
       last_encoder_update := last_encoder_update m |}.
Proof.
  intros Hl Hr Hwb Hdt. cbv zeta. unfold _update_odometry.
  destruct (Rlt_dec (now - last_update_time m) (1 / 1000)) as [Hlt | _]; [lra|].
  rewrite Hl, Hr.
  destruct (Req_dec_T (wheel_base m) 0) as [Hz | _]; [contradiction|].
  reflexivity.
Qed.

Lemma update_skipped (now : R) (m : Manager) :
  now - last_update_time m < 1 / 1000 -> _update_odometry now m = m.
Proof.
  intro Hdt. unfold _update_odometry.
  destruct (Rlt_dec (now - last_update_time m) (1 / 1000)) as [_ | Hge];
    [reflexivity | lra].
Qed.

(** C5: with both wheels' data present and at least 1 ms since the last
    update, the update computes [delta_distance = (delta_left +
    delta_right) / 2] and [delta_heading = (delta_right - delta_left) /
    wheel_base], normalizes the new heading first, moves the position by
    [delta_distance] along the new heading and sets the velocities to
    [delta_distance / dt] and [delta_heading / dt]; with less than 1 ms
    nothing changes; from a zero baseline, wheel distances of
    [- wheel_base * PI / 4] and [wheel_base * PI / 4] give the heading
    [PI / 2].  Normalized means: the new heading lies in [[- PI, PI]],
    differs from [heading + delta_heading] by a whole number of turns of
    [2 * PI], is that sum itself when the sum is in range, and is not
    [- PI] when the sum was above [PI] nor [PI] when it was below
    [- PI]. *)
Theorem odometry_update_formulas
    (now : R) (m : Manager) (left_data right_data : EncoderData) :
  left_encoder_data m = Some left_data ->
  right_encoder_data m = Some right_data ->
  wheel_base m <> 0 ->
  let dt := now - last_update_time m in
  let left_distance := dict_get "total_distance" 0 left_data in
  let right_distance := dict_get "total_distance" 0 right_data in
  let delta_left := left_distance - last_left_distance m in
  let delta_right := right_distance - last_right_distance m in
  let delta_distance := (delta_left + delta_right) / 2 in
  let delta_heading := (delta_right - delta_left) / wheel_base m in
  let s := robot_state m in
  let m' := _update_odometry now m in
  let s' := robot_state m' in
  (1 / 1000 <= dt ->
     heading s' = normalize (heading s + delta_heading)
     /\ - PI <= heading s' <= PI
     /\ (exists k : Z,
           heading s' = heading s + delta_heading + IZR k * (2 * PI))
     /\ (- PI <= heading s + delta_heading <= PI ->
         heading s' = heading s + delta_heading)
     /\ (PI < heading s + delta_heading -> - PI < heading s')
     /\ (heading s + delta_heading < - PI -> heading s' < PI)
     /\ x (position s') = x (position s) + delta_distance * cos (heading s')
     /\ y (position s') = y (position s) + delta_distance * sin (heading s')
     /\ linear (velocity s') = delta_distance / dt
     /\ angular (velocity s') = delta_heading / dt
     /\ last_left_distance m' = left_distance
     /\ last_right_distance m' = right_distance
     /\ last_update_time m' = now)
  /\ (dt < 1 / 1000 -> m' = m)
  /\ (1 / 1000 <= dt ->
      heading s = 0 ->
      delta_left = - wheel_base m * PI / 4 ->
      delta_right = wheel_base m * PI / 4 ->
      heading s' = PI / 2).
Proof.
  intros Hl Hr Hwb dt left_distance right_distance delta_left delta_right
         delta_distance delta_heading s m' s'.
  assert (Hdone := fun Hdt : 1 / 1000 <= dt =>
                      update_carried_out now m left_data right_data Hl Hr Hwb Hdt).
  cbv zeta in Hdone. fold dt left_distance right_distance in Hdone.
  fold delta_left delta_right in Hdone.
  fold delta_distance delta_heading s in Hdone. fold m' in Hdone.
  split; [|split].
  - intro Hdt. unfold s'. rewrite (Hdone Hdt). simpl.
    destruct (normalize_spec (heading s + delta_heading))
      as (Hrange & Hturns & Hid & Hhigh & Hlow).
    split; [reflexivity|].
    split; [exact Hrange|].
    split; [exact Hturns|].
    split; [exact Hid|].
    split; [exact Hhigh|].
    split; [exact Hlow|].
    repeat split.
  - intro Hdt. apply update_skipped. exact Hdt.
  - intros Hdt Hh Hdl Hdr. unfold s'. rewrite (Hdone Hdt). simpl.
    rewrite Hh. unfold delta_heading. rewrite Hdl, Hdr.
    replace (0 + (wheel_base m * PI / 4 - - wheel_base m * PI / 4) / wheel_base m)
      with (PI / 2) by (field; exact Hwb).
    apply normalize_id. pose proof PI_RGT_0. lra.
Qed.

Lemma odometry_update_formulas_witness :
  let m := {| wheel_base := 1;
              robot_state := robot_state (init 1 0);
              left_encoder_data := Some [("total_distance"%string, - PI / 4)];
              right_encoder_data := Some [("total_distance"%string, PI / 4)];
              last_left_distance := 0;
              last_right_distance := 0;
              last_update_time := 0;
              update_count := 0;
              last_encoder_update := 0 |} in
  heading (robot_state (_update_odometry 1 m)) = PI / 2.
Proof.
  intro m.
  assert (Hwb : wheel_base m <> 0) by (simpl; lra).
  assert (Hdt : 1 / 1000 <= 1 - last_update_time m) by (simpl; lra).
  assert (Hdl : dict_get "total_distance" 0 [("total_distance"%string, - PI / 4)]
                - last_left_distance m = - wheel_base m * PI / 4)
    by (simpl; lra).
  assert (Hdr : dict_get "total_distance" 0 [("total_distance"%string, PI / 4)]
                - last_right_distance m = wheel_base m * PI / 4)
    by (simpl; lra).
  exact (proj2 (proj2 (odometry_update_formulas 1 m
                         [("total_distance"%string, - PI / 4)]
                         [("total_distance"%string, PI / 4)]
                         eq_refl eq_refl Hwb))
           Hdt eq_refl Hdl Hdr).
Defined.

(** ** The range of the heading *)

(** C4, as stated, fails: [set_position] stores a heading of 10 radians
    unchanged, and an odometry update that turns the robot from heading
    0 by [- PI] stores [- PI]; neither lies in the half-open interval
    from [- PI] (excluded) to [PI]. *)
Lemma heading_half_open_range_fails :
  ~ (- PI < heading (robot_state (_set_position 0 0 0 10 (init 1 0))) <= PI)
  /\ ~ (- PI < heading (robot_state (_update_odometry 1 half_turn)) <= PI).
Proof.
  split.
  - simpl. pose proof PI_4. lra.
  - rewrite (update_carried_out 1 half_turn
               [("total_distance"%string, PI)] [("total_distance"%string, 0)]
               eq_refl eq_refl) by (simpl; lra).
    simpl.
    replace (0 + (0 - 0 - (PI - 0)) / 1) with (- PI) by field.
    rewrite normalize_id by (pose proof PI_RGT_0; lra).
    lra.
Qed.

(** C4, amended: an odometry update that is carried out leaves the
    heading in the closed interval from [- PI] to [PI], and one that is
    not leaves the heading as it was; [reset_odometry] sets the heading
    to 0; [set_position] stores the heading it is given, whatever its
    value. *)
Theorem heading_within_closed_range (now px py h : R) (m : Manager) :
  (update_count (_update_odometry now m) = (update_count m + 1)%Z ->
     - PI <= heading (robot_state (_update_odometry now m)) <= PI)
  /\ (update_count (_update_odometry now m) <> (update_count m + 1)%Z ->
     heading (robot_state (_update_odometry now m)) = heading (robot_state m))
  /\ heading (robot_state (_reset_odometry now m)) = 0
  /\ heading (robot_state (_set_position now px py h m)) = h.
Proof.
  destruct (update_heading_cases now m) as [[Hc Hh] | [Hc [dh Hh]]].
  - split; [intro H; rewrite Hc in H; lia|].
    split; [intros _; exact Hh|]. split; reflexivity.
  - split; [intros _; rewrite Hh; apply normalize_range|].
    split; [intro H; contradiction|]. split; reflexivity.
Qed.

Lemma heading_within_closed_range_witness :
  - PI <= heading (robot_state (_update_odometry 1 half_turn)) <= PI.
Proof.
  refine (proj1 (heading_within_closed_range 1 0 0 0 half_turn) _).
  rewrite (update_carried_out 1 half_turn
             [("total_distance"%string, PI)] [("total_distance"%string, 0)]
             eq_refl eq_refl) by (simpl; lra).
  reflexivity.
Defined.

(** ** Status commands *)

Lemma valid_status_iff (s : string) :
  existsb (String.eqb s) valid_statuses = true <-> In s valid_statuses.
Proof.
  rewrite existsb_exists. split.
  - intros [v [Hin Heq]]. apply String.eqb_eq in Heq. subst. exact Hin.
  - intro Hin. exists s. split; [exact Hin | apply String.eqb_refl].
Qed.

(** C9, as stated, fails: [set_status("stopped")] is rejected. *)
Lemma set_status_stopped_rejected :
  status (robot_state (_set_status 1 "stopped" (init 1 0))) <> "stopped"%string
  /\ _set_status 1 "stopped" (init 1 0) = init 1 0.
Proof. split; [simpl; discriminate | reflexivity]. Qed.

(** C9, amended: [set_status(s)] is validated against the statuses
    [active], [idle], [error] and [emergency_stop]; for one of these the
    stored status becomes [s] and the pose and velocity stay as they
    were, and for any other string, [stopped] among them, the whole state
    is left unchanged. *)
Theorem set_status_validated (now : R) (s : string) (m : Manager) :
  valid_statuses = ["active"; "idle"; "error"; "emergency_stop"]%string
  /\ (In s valid_statuses ->
      status (robot_state (_set_status now s m)) = s
      /\ position (robot_state (_set_status now s m)) = position (robot_state m)
      /\ heading (robot_state (_set_status now s m)) = heading (robot_state m)
      /\ velocity (robot_state (_set_status now s m)) = velocity (robot_state m))
  /\ (~ In s valid_statuses -> _set_status now s m = m)
  /\ ~ In "stopped"%string valid_statuses.
Proof.
  split; [reflexivity|]. split; [|split].
  - intro Hin. apply valid_status_iff in Hin.
    unfold _set_status. rewrite Hin. simpl. repeat split.
  - intro Hout. unfold _set_status.
    destruct (existsb (String.eqb s) valid_statuses) eqn:E; [|reflexivity].
    apply valid_status_iff in E. contradiction.
  - simpl. intros [H | [H | [H | [H | []]]]]; discriminate.
Qed.

Lemma set_status_validated_witness :
  status (robot_state (_set_status 1 "error" (init 1 0))) = "error"%string.
Proof.
  refine (proj1 (proj1 (proj2 (set_status_validated 1 "error" (init 1 0))) _)).
  simpl. auto.
Defined.

End StateManagerFacts.

Section MqttClientFacts.

Import MqttClient TopicSegments.
Local Open Scope Z_scope.

(** ** Strings *)

Lemma append_assoc (a b c : string) :
  ((a ++ b) ++ c = a ++ (b ++ c))%string.
Proof. induction a as [| x a IH]; simpl; [|rewrite IH]; reflexivity. Qed.

Lemma append_nil_r (a : string) : (a ++ "" = a)%string.
Proof. induction a as [| x a IH]; simpl; [|rewrite IH]; reflexivity. Qed.

(** ** Regular expressions *)

Lemma match_lit (p : string) (r : regex) (s : string) :
  match_items (lit p ++ r) s = true <->
  exists s', s = (p ++ s')%string /\ match_items r s' = true.
Proof.
  revert s. induction p as [| c p IH]; intro s; simpl.
  - split; [intro H; exists s; auto | intros [s' [-> H]]; exact H].
  - destruct s as [| x s].
    + split; [discriminate | intros [s' [H _]]; discriminate].
    + rewrite andb_true_iff, Ascii.eqb_eq. unfold lit in IH. rewrite IH.
      split.
      * intros [-> [s' [-> H]]]. exists s'. auto.
      * intros [s' [Heq H]]. injection Heq as -> ->. split; [reflexivity|].
        exists s'. auto.
Qed.

Lemma end_anchor_spec (s : string) :
  end_anchor s = true <-> s = EmptyString \/ s = String newline EmptyString.
Proof.
  destruct s as [| c [| d s]]; simpl.
  - split; auto.
  - rewrite Ascii.eqb_eq. split.
    + intros ->. right. reflexivity.
    + intros [H | H]; [discriminate | injection H; auto].
  - split; [discriminate | intros [H | H]; discriminate].
Qed.

Lemma star_then_cons (k : char_class) (cont : string -> bool)
    (c : ascii) (s : string) :
  star_then k cont (String c s)
  = cont (String c s) || (class_mem k c && star_then k cont s).
Proof. reflexivity. Qed.

(** [k*$] reads a run of [k], with or without a line break after it. *)
Lemma star_end (k : char_class) (s : string) :
  star_then k end_anchor s = true <->
  exists w, all_in k w = true
            /\ (s = w \/ s = (w ++ String newline EmptyString)%string).
Proof.
  split.
  - induction s as [| c s IH].
    + intros _. exists EmptyString. auto.
    + rewrite star_then_cons, orb_true_iff. intros [H | H].
      * apply end_anchor_spec in H. destruct H as [H | H]; [discriminate|].
        exists EmptyString. rewrite H. auto.
      * apply andb_true_iff in H. destruct H as [Hc Hs].
        destruct (IH Hs) as [w [Hw Heq]].
        exists (String c w). simpl. rewrite Hc, Hw.
        split; [reflexivity|]. destruct Heq as [-> | ->]; auto.
  - intros [w [Hw Heq]]. revert s Heq.
    induction w as [| c w IH]; intros s Heq.
    + assert (He : end_anchor s = true)
        by (apply end_anchor_spec; simpl in Heq; tauto).
      destruct s as [| x s]; [reflexivity|].
      rewrite star_then_cons, He. reflexivity.
    + simpl in Hw. apply andb_true_iff in Hw. destruct Hw as [Hc Hw].
      destruct s as [| x s]; [destruct Heq; discriminate|].
      assert (Hx : x = c) by (destruct Heq as [H | H]; injection H; auto).
      subst x. rewrite star_then_cons, Hc, (IH Hw).
      * apply orb_true_r.
      * destruct Heq as [H | H]; injection H; auto.
Qed.

(** [k+$] *)
Lemma plus_end (k : char_class) (s : string) :
  match_items [RPlus k] s = true <->
  exists w, w <> EmptyString /\ all_in k w = true
            /\ (s = w \/ s = (w ++ String newline EmptyString)%string).
Proof.
  simpl. destruct s as [| x s].
  - split; [discriminate|]. intros [w [Hne [_ [H | H]]]].
    + congruence.
    + destruct w; [congruence | discriminate].
  - rewrite andb_true_iff, star_end. split.
    + intros [Hx [w [Hw Heq]]]. exists (String x w). simpl. rewrite Hx, Hw.
      split; [discriminate|]. split; [reflexivity|].
      destruct Heq as [-> | ->]; auto.
    + intros [w [Hne [Hw Heq]]]. destruct w as [| c w]; [congruence|].
      simpl in Hw. apply andb_true_iff in Hw. destruct Hw as [Hc Hw].
      assert (Hx : x = c) by (destruct Heq as [H | H]; injection H; auto).
      subst x. split; [exact Hc|]. exists w. split; [exact Hw|].
      destruct Heq as [H | H]; injection H; auto.
Qed.

(** ** Topic validation *)

Lemma valid_pattern_matches (kind t : string) :
  match_items (lit ("orchestrator/" ++ kind ++ "/") ++ [RPlus WordChar]) t = true
  <-> exists id, id <> EmptyString /\ all_in WordChar id = true
         /\ (t = ("orchestrator/" ++ kind ++ "/" ++ id)%string
             \/ t = ("orchestrator/" ++ kind ++ "/" ++ id
                     ++ String newline EmptyString)%string).
Proof.
  rewrite match_lit. split.
  - intros [s' [-> H]]. apply plus_end in H.
    destruct H as [id [Hne [Hw Heq]]]. exists id.
    split; [exact Hne|]. split; [exact Hw|].
    rewrite !append_assoc.
    destruct Heq as [-> | ->]; auto.
  - intros [id [Hne [Hw Heq]]].
    destruct Heq as [-> | ->].
    + exists id. split.
      * rewrite !append_assoc. reflexivity.
      * apply plus_end. exists id. auto.
    + exists (id ++ String newline EmptyString)%string. split.
      * rewrite !append_assoc. reflexivity.
      * apply plus_end. exists id. auto.
Qed.

(** [validate_topic] accepts the names of the three shapes and, because
    [$] also matches in front of a line break that ends the text, each
    of them followed by a line break; it accepts nothing else. *)
Lemma validate_topic_accepts (t : string) :
  validate_topic t = true
  <-> topic_shape t
      \/ exists t0, topic_shape t0
                    /\ t = (t0 ++ String newline EmptyString)%string.
Proof.
  assert (Hre : forall kind text,
            compile text
            = Some (lit ("orchestrator/" ++ kind ++ "/") ++ [RPlus WordChar]) ->
            re_match text t
            = Some (match_items
                      (lit ("orchestrator/" ++ kind ++ "/") ++ [RPlus WordChar]) t)).
  { intros kind text H. unfold re_match. rewrite H. reflexivity. }
  assert (Hshape : forall kind, In kind ["cmd"; "data"; "status"]%string ->
            ((exists id, id <> EmptyString /\ all_in WordChar id = true
                /\ (t = ("orchestrator/" ++ kind ++ "/" ++ id)%string
                    \/ t = ("orchestrator/" ++ kind ++ "/" ++ id
                            ++ String newline EmptyString)%string))
             -> topic_shape t
                \/ exists t0, topic_shape t0
                      /\ t = (t0 ++ String newline EmptyString)%string)).
  { intros kind Hk [id [Hne [Hw [Ht | Ht]]]].
    - left. exists kind, id. auto.
    - right. exists ("orchestrator/" ++ kind ++ "/" ++ id)%string. split.
      + exists kind, id. auto.
      + rewrite Ht, !append_assoc. reflexivity. }
  unfold validate_topic, VALID_PATTERNS.
  cbn [existsb snd].
  rewrite (Hre "cmd"%string "^orchestrator/cmd/[a-zA-Z0-9_]+$"%string eq_refl).
  rewrite (Hre "data"%string "^orchestrator/data/[a-zA-Z0-9_]+$"%string eq_refl).
  rewrite (Hre "status"%string "^orchestrator/status/[a-zA-Z0-9_]+$"%string eq_refl).
  rewrite !orb_true_iff, !valid_pattern_matches. split.
  - intros [H | [H | [H | H]]]; [| | | discriminate].
    + apply (Hshape "cmd"%string); simpl; tauto.
    + apply (Hshape "data"%string); simpl; tauto.
    + apply (Hshape "status"%string); simpl; tauto.
  - assert (Hid : (topic_shape t
                   \/ exists t0, topic_shape t0
                         /\ t = (t0 ++ String newline EmptyString)%string) ->
                  exists kind id,
                    In kind ["cmd"; "data"; "status"]%string
                    /\ id <> EmptyString /\ all_in WordChar id = true
                    /\ (t = ("orchestrator/" ++ kind ++ "/" ++ id)%string
                        \/ t = ("orchestrator/" ++ kind ++ "/" ++ id
                                ++ String newline EmptyString)%string)).
    { intros [[kind [id [Hk [Hne [Hw Ht]]]]]
             | [t0 [[kind [id [Hk [Hne [Hw Ht0]]]]] Ht]]];
        exists kind, id; repeat split; auto.
      right. rewrite Ht, Ht0, !append_assoc. reflexivity. }
    intro H. destruct (Hid H) as [kind [id [Hk Hrest]]]. simpl in Hk.
    destruct Hk as [<- | [<- | [<- | []]]].
    + left. exists id. exact Hrest.
    + right. left. exists id. exact Hrest.
    + right. right. left. exists id. exact Hrest.
Qed.

(** ** From a pattern to its regular expression *)

Lemma replace_app (old : ascii) (new a b : string) :
  replace old new (a ++ b)
  = (replace old new a ++ replace old new b)%string.
Proof.
  induction a as [| c a IH]; simpl; [reflexivity|].
  destruct (Ascii.eqb c old); rewrite IH; simpl;
    [rewrite append_assoc|]; reflexivity.
Qed.

Lemma literal_char_facts (c : ascii) :
  literal_char c = true ->
  Ascii.eqb "[" c = false /\ Ascii.eqb "." c = false
  /\ Ascii.eqb c "." = false /\ Ascii.eqb c "$" = false
  /\ Ascii.eqb c "+" = false /\ Ascii.eqb c "#" = false
  /\ is_meta c = false.
Proof.
  unfold literal_char. rewrite andb_true_iff, !negb_true_iff.
  intros [Hm Hh]. pose proof Hm as Hm'.
  unfold is_meta in Hm. simpl in Hm.
  rewrite !orb_false_iff in Hm.
  rewrite !(Ascii.eqb_sym _ c). tauto.
Qed.

Lemma parse_literal (c : ascii) (rest : string) :
  literal_char c = true ->
  parse_items (String c rest) 0
  = option_map (cons (RChar c)) (parse_items rest 0).
Proof.
  intro Hc.
  destruct (literal_char_facts c Hc) as (H1 & H2 & H3 & H4 & _ & _ & H7).
  cbn [parse_items starts_with]. rewrite H1, H2, H3, H4, H7. reflexivity.
Qed.

(** The text handed to [re.compile] reads back as [pattern_items]. *)
Lemma parse_pattern (p : string) :
  wildcards_and_literals p = true ->
  parse_items (replace "#" ".*" (replace "+" "[^/]+" p) ++ "$") 0
  = Some (pattern_items p).
Proof.
  induction p as [| c p IH]; intro Hp; [reflexivity|].
  cbn [wildcards_and_literals] in Hp.
  apply andb_true_iff in Hp. destruct Hp as [Hc Hp].
  specialize (IH Hp).
  destruct (Ascii.eqb c "+") eqn:Eplus.
  - apply Ascii.eqb_eq in Eplus. subst c.
    change (replace "+" "[^/]+" (String "+" p))
      with ("[^/]+" ++ replace "+" "[^/]+" p)%string.
    rewrite replace_app.
    change (replace "#" ".*" "[^/]+") with "[^/]+"%string.
    rewrite append_assoc. simpl. rewrite IH. reflexivity.
  - destruct (Ascii.eqb c "#") eqn:Ehash.
    + apply Ascii.eqb_eq in Ehash. subst c.
      simpl. rewrite IH. reflexivity.
    + rewrite !orb_false_r in Hc.
      cbn [replace]. rewrite Eplus. cbn [replace]. rewrite Ehash.
      cbn [String.append]. rewrite (parse_literal c _ Hc), IH.
      cbn [pattern_items]. unfold item_of. rewrite Eplus, Ehash. reflexivity.
Qed.

Lemma topic_matches_pattern_items (topic pattern : string) :
  wildcards_and_literals pattern = true ->
  _topic_matches_pattern topic pattern
  = Some (match_items (pattern_items pattern) topic).
Proof.
  intro Hp. unfold _topic_matches_pattern, re_match.
  change (compile ("^" ++ ?x)) with (parse_items x 0).
  simpl. rewrite (parse_pattern pattern Hp). reflexivity.
Qed.

(** ** Segments *)

Lemma all_in_app (k : char_class) (a b : string) :
  all_in k (a ++ b) = all_in k a && all_in k b.
Proof.
  induction a as [| c a IH]; simpl; [reflexivity|].
  rewrite IH, andb_assoc. reflexivity.
Qed.

Lemma pattern_items_app (a b : string) :
  pattern_items (a ++ b) = (pattern_items a ++ pattern_items b)%list.
Proof. induction a as [| c a IH]; simpl; [|rewrite IH]; reflexivity. Qed.

Lemma pattern_items_literal (p : string) :
  all_literal p = true -> pattern_items p = lit p.
Proof.
  induction p as [| c p IH]; intro H; [reflexivity|].
  cbn [all_literal] in H. apply andb_true_iff in H. destruct H as [Hc Hp].
  destruct (literal_char_facts c Hc) as (_ & _ & _ & _ & H5 & H6 & _).
  cbn [pattern_items]. unfold item_of. rewrite H5, H6, (IH Hp). reflexivity.
Qed.

Lemma all_literal_wildcards (p : string) :
  all_literal p = true -> wildcards_and_literals p = true.
Proof.
  induction p as [| c p IH]; intro H; [reflexivity|].
  cbn [all_literal] in H. apply andb_true_iff in H. destruct H as [Hc Hp].
  cbn [wildcards_and_literals]. rewrite Hc, (IH Hp). reflexivity.
Qed.

Lemma wildcards_and_literals_app (a b : string) :
  wildcards_and_literals (a ++ b)
  = wildcards_and_literals a && wildcards_and_literals b.
Proof.
  induction a as [| c a IH]; [reflexivity|].
  cbn [String.append wildcards_and_literals]. rewrite IH, andb_assoc.
  reflexivity.
Qed.

(** Every topic is free of [/] or has a first [/]. *)
Lemma first_slash (t : string) :
  all_in NotSlash t = true
  \/ exists w t', all_in NotSlash w = true /\ t = (w ++ String "/" t')%string.
Proof.
  induction t as [| c t IH]; [left; reflexivity|].
  destruct (Ascii.eqb c "/") eqn:E.
  - apply Ascii.eqb_eq in E. subst c. right.
    exists EmptyString, t. split; reflexivity.
  - destruct IH as [H | [w [t' [Hw ->]]]].
    + left. cbn [all_in class_mem]. rewrite E, H. reflexivity.
    + right. exists (String c w), t'. cbn [all_in class_mem].
      rewrite E, Hw. split; reflexivity.
Qed.

Lemma first_slash_unique (w w0 t t0 : string) :
  all_in NotSlash w = true -> all_in NotSlash w0 = true ->
  (w ++ String "/" t)%string = (w0 ++ String "/" t0)%string ->
  w = w0 /\ t = t0.
Proof.
  revert w0. induction w as [| c w IH]; intros [| c0 w0] Hw Hw0 Heq;
    cbn [String.append] in Heq.
  - injection Heq as ->. auto.
  - injection Heq as <- _. discriminate.
  - injection Heq as -> _. discriminate.
  - injection Heq as -> Heq.
    cbn [all_in] in Hw, Hw0.
    apply andb_true_iff in Hw. apply andb_true_iff in Hw0.
    destruct (IH w0 (proj2 Hw) (proj2 Hw0) Heq) as [-> ->]. auto.
Qed.

Lemma slash_free_no_slash (w t : string) :
  all_in NotSlash (w ++ String "/" t) = false.
Proof.
  rewrite all_in_app. cbn [all_in class_mem]. simpl.
  apply andb_false_r.
Qed.

Lemma split_nonempty (t : string) : split "/" t <> [].
Proof.
  destruct t as [| c t]; cbn [split]; [discriminate|].
  destruct (Ascii.eqb c "/"); [discriminate|].
  destruct (split "/" t); discriminate.
Qed.

Lemma split_slash_free (t : string) :
  all_in NotSlash t = true -> split "/" t = [t].
Proof.
  induction t as [| c t IH]; intro H; [reflexivity|].
  cbn [all_in class_mem] in H. apply andb_true_iff in H.
  destruct H as [Hc Ht]. apply negb_true_iff in Hc.
  cbn [split]. rewrite Hc, (IH Ht). reflexivity.
Qed.

Lemma split_first_slash (w t : string) :
  all_in NotSlash w = true ->
  split "/" (w ++ String "/" t) = w :: split "/" t.
Proof.
  induction w as [| c w IH]; intro H; [reflexivity|].
  cbn [all_in class_mem] in H. apply andb_true_iff in H.
  destruct H as [Hc Hw]. apply negb_true_iff in Hc.
  cbn [String.append split]. rewrite Hc, (IH Hw). reflexivity.
Qed.

Lemma split_parts_slash_free (t : string) :
  Forall (fun seg => all_in NotSlash seg = true) (split "/" t).
Proof.
  induction t as [| c t IH]; [repeat constructor|].
  cbn [split]. destruct (Ascii.eqb c "/") eqn:E.
  - constructor; [reflexivity | exact IH].
  - destruct (split "/" t) as [| seg segs]; [repeat constructor; simpl|].
    + rewrite E. reflexivity.
    + inversion IH as [| ? ? Hseg Hsegs]; subst.
      constructor; [|exact Hsegs].
      cbn [all_in class_mem]. rewrite E, Hseg. reflexivity.
Qed.

Lemma join_split (t : string) : join "/" (split "/" t) = t.
Proof.
  induction t as [| c t IH]; [reflexivity|].
  cbn [split]. destruct (Ascii.eqb c "/") eqn:E.
  - apply Ascii.eqb_eq in E. subst c.
    pose proof (split_nonempty t) as Hne.
    destruct (split "/" t) as [| seg segs]; [contradiction|].
    cbn [join String.append]. cbn [join] in IH. rewrite IH. reflexivity.
  - pose proof (split_nonempty t) as Hne.
    destruct (split "/" t) as [| seg segs]; [contradiction|].
    destruct segs as [| seg2 segs].
    + cbn [join] in *. rewrite IH. reflexivity.
    + cbn [join String.append] in *. rewrite IH. reflexivity.
Qed.

(** ** Matching segment by segment *)

Lemma one_line_app (a b : string) :
  one_line (a ++ b) -> one_line a /\ one_line b.
Proof. unfold one_line. rewrite all_in_app. apply andb_true_iff. Qed.

Lemma one_line_not_broken (a : string) :
  ~ one_line (a ++ String newline EmptyString).
Proof.
  intro H. apply one_line_app in H. destruct H as [_ H]. discriminate.
Qed.

Lemma word_char_one_line (id : string) :
  all_in WordChar id = true -> one_line id.
Proof.
  unfold one_line.
  induction id as [| c id IH]; intro H; [reflexivity|].
  cbn [all_in] in *. apply andb_true_iff in H. destruct H as [Hc Hid].
  rewrite (IH Hid), andb_true_r.
  destruct (Ascii.eqb c newline) eqn:E.
  - apply Ascii.eqb_eq in E. subst c. discriminate.
  - cbn [class_mem]. rewrite E. reflexivity.
Qed.

(** A name of one of the three shapes holds no line break. *)
Lemma topic_shape_one_line (t : string) : topic_shape t -> one_line t.
Proof.
  intros [kind [id [Hk [_ [Hw ->]]]]]. unfold one_line.
  rewrite !all_in_app, (word_char_one_line id Hw).
  simpl in Hk. destruct Hk as [<- | [<- | [<- | []]]]; reflexivity.
Qed.

(** A literal pattern matches its own text only. *)
Lemma match_literal (p t : string) :
  one_line t -> (match_items (lit p) t = true <-> p = t).
Proof.
  intro Ht. rewrite <- (app_nil_r (lit p)), match_lit. split.
  - intros [s' [-> H]]. apply end_anchor_spec in H.
    destruct H as [-> | ->].
    + rewrite append_nil_r. reflexivity.
    + exfalso. exact (one_line_not_broken p Ht).
  - intros ->. exists EmptyString. rewrite append_nil_r. auto.
Qed.

(** [[^/]+$] *)
Lemma match_plus_last (t : string) :
  match_items [RPlus NotSlash] t = true
  <-> t <> EmptyString /\ all_in NotSlash t = true.
Proof.
  rewrite plus_end. split.
  - intros [w [Hne [Hw [-> | ->]]]].
    + auto.
    + split; [destruct w; discriminate|].
      rewrite all_in_app, Hw. reflexivity.
  - intros [Hne Ht]. exists t. auto.
Qed.

(** [[^/]*] in front of a [/]. *)
Lemma star_before_slash (r : regex) (s : string) :
  star_then NotSlash (match_items (RChar "/" :: r)) s = true
  <-> exists w t', all_in NotSlash w = true
                   /\ s = (w ++ String "/" t')%string
                   /\ match_items r t' = true.
Proof.
  induction s as [| c s IH].
  - split; [discriminate|].
    intros [[| x w] [t' [_ [H _]]]]; discriminate.
  - rewrite star_then_cons, orb_true_iff. cbn [match_items].
    rewrite !andb_true_iff, Ascii.eqb_eq, IH. split.
    + intros [[-> Hr] | [Hc [w [t' [Hw [-> Hr]]]]]].
      * exists EmptyString, s. auto.
      * exists (String c w), t'. cbn [all_in]. rewrite Hc, Hw. auto.
    + intros [[| x w] [t' [Hw [Heq Hr]]]]; cbn [String.append] in Heq;
        injection Heq as -> ->.
      * left. auto.
      * right. cbn [all_in] in Hw. apply andb_true_iff in Hw.
        destruct Hw as [Hx Hw]. split; [exact Hx|].
        exists w, t'. auto.
Qed.

Lemma match_plus_cons (k : char_class) (r : regex) (x : ascii) (t : string) :
  match_items (RPlus k :: r) (String x t)
  = class_mem k x && star_then k (match_items r) t.
Proof. reflexivity. Qed.

(** A pattern segment followed by [/] reads the topic up to its first
    [/]. *)
Lemma match_leading_segment (seg : string) (r : regex) (t : string) :
  all_in NotSlash seg = true -> plain_or_plus seg ->
  (match_items (pattern_items seg ++ RChar "/" :: r) t = true
   <-> exists w t', all_in NotSlash w = true
                    /\ t = (w ++ String "/" t')%string
                    /\ segment_matches seg w
                    /\ match_items r t' = true).
Proof.
  intros Hfree [-> | Hlit].
  - change (pattern_items "+" ++ RChar "/" :: r)%list
      with (RPlus NotSlash :: RChar "/" :: r).
    destruct t as [| x t].
    + split; [discriminate|].
      intros [[| y w] [t' [Hw [H [Hm _]]]]]; [|discriminate].
      destruct Hm as [[_ Hm] | Hm]; [congruence | discriminate].
    + rewrite match_plus_cons, andb_true_iff, star_before_slash. split.
      * intros [Hx [w [t' [Hw [-> Hr]]]]].
        exists (String x w), t'. cbn [all_in]. rewrite Hx, Hw.
        repeat split; auto. left. split; [reflexivity | discriminate].
      * intros [w [t' [Hw [Heq [Hm Hr]]]]].
        assert (Hne : w <> EmptyString)
          by (destruct Hm as [[_ H] | <-]; [exact H | discriminate]).
        destruct w as [| y w]; [congruence|].
        cbn [String.append] in Heq. injection Heq as -> ->.
        cbn [all_in] in Hw. apply andb_true_iff in Hw.
        destruct Hw as [Hy Hw]. split; [exact Hy|].
        exists w, t'. auto.
  - rewrite (pattern_items_literal seg Hlit), match_lit. split.
    + intros [s' [-> H]]. cbn [match_items] in H.
      destruct s' as [| x s']; [discriminate|].
      apply andb_true_iff in H. destruct H as [Hx Hr].
      apply Ascii.eqb_eq in Hx. subst x.
      exists seg, s'. repeat split; auto. right. reflexivity.
    + intros [w [t' [Hw [-> [Hm Hr]]]]].
      assert (Heq : seg = w).
      { destruct Hm as [[-> _] | H]; [discriminate | exact H]. }
      subst w. exists (String "/" t'). split; [reflexivity|].
      cbn [match_items]. rewrite Ascii.eqb_refl. exact Hr.
Qed.

(** The last segment of a pattern reads the rest of the topic. *)
Lemma match_last_segment (seg t : string) :
  all_in NotSlash seg = true -> plain_or_plus seg -> one_line t ->
  (match_items (pattern_items seg) t = true
   <-> Forall2 segment_matches [seg] (split "/" t)).
Proof.
  intros Hfree Hseg Ht.
  assert (Hone : Forall2 segment_matches [seg] (split "/" t)
                 <-> all_in NotSlash t = true /\ segment_matches seg t).
  { destruct (first_slash t) as [Hf | [w [t' [Hw ->]]]].
    - rewrite (split_slash_free t Hf). split.
      + intro H. inversion H; subst. auto.
      + intros [_ H]. constructor; [exact H | constructor].
    - rewrite (split_first_slash w t' Hw), slash_free_no_slash. split.
      + intro H. inversion H as [| ? ? ? ? _ Hnil]; subst.
        inversion Hnil. exfalso.
        eapply split_nonempty. symmetry. eassumption.
      + intros [H _]. discriminate. }
  rewrite Hone. destruct Hseg as [-> | Hlit].
  - change (pattern_items "+") with [RPlus NotSlash].
    rewrite match_plus_last. split.
    + intros [Hne Hf]. split; [exact Hf|]. left. auto.
    + intros [Hf [[_ Hne] | <-]]; split; auto; discriminate.
  - rewrite (pattern_items_literal seg Hlit), (match_literal seg t Ht). split.
    + intros <-. split; [exact Hfree | right; reflexivity].
    + intros [_ [[-> _] | H]]; [discriminate | exact H].
Qed.

Lemma match_segments (psegs : list string) :
  psegs <> [] ->
  Forall (fun seg => all_in NotSlash seg = true /\ plain_or_plus seg) psegs ->
  forall t, one_line t ->
  (match_items (pattern_items (join "/" psegs)) t = true
   <-> Forall2 segment_matches psegs (split "/" t)).
Proof.
  induction psegs as [| seg tail IH]; intros Hne Hall t Ht; [contradiction|].
  inversion Hall as [| ? ? [Hfree Hseg] Htail]; subst.
  destruct tail as [| seg2 rest].
  - cbn [join]. apply match_last_segment; assumption.
  - change (join "/" (seg :: seg2 :: rest))
      with (seg ++ String "/" (join "/" (seg2 :: rest)))%string.
    rewrite pattern_items_app.
    change (pattern_items (String "/" (join "/" (seg2 :: rest))))
      with (RChar "/" :: pattern_items (join "/" (seg2 :: rest))).
    rewrite (match_leading_segment seg _ t Hfree Hseg). split.
    + intros [w [t' [Hw [-> [Hm Hr]]]]].
      rewrite (split_first_slash w t' Hw). constructor; [exact Hm|].
      apply IH; try assumption; [discriminate|].
      exact (proj2 (one_line_app w _ Ht)).
    + intro H. destruct (first_slash t) as [Hf | [w [t' [Hw ->]]]].
      * rewrite (split_slash_free t Hf) in H.
        inversion H as [| ? ? ? ? _ Hnil]; subst. inversion Hnil.
      * rewrite (split_first_slash w t' Hw) in H.
        inversion H as [| ? ? ? ? Hm Hrest]; subst.
        exists w, t'. repeat split; auto.
        apply IH; try assumption; [discriminate|].
        exact (proj2 (one_line_app w _ Ht)).
Qed.

Lemma join_wildcards_and_literals (psegs : list string) :
  Forall plain_or_plus psegs ->
  wildcards_and_literals (join "/" psegs) = true.
Proof.
  induction psegs as [| seg tail IH]; intro H; [reflexivity|].
  inversion H as [| ? ? Hseg Htail]; subst.
  assert (Hs : wildcards_and_literals seg = true).
  { destruct Hseg as [-> | Hlit]; [reflexivity|].
    apply all_literal_wildcards. exact Hlit. }
  destruct tail as [| seg2 rest]; [exact Hs|].
  change (join "/" (seg :: seg2 :: rest))
    with (seg ++ String "/" (join "/" (seg2 :: rest)))%string.
  rewrite wildcards_and_literals_app, Hs.
  cbn [wildcards_and_literals]. rewrite (IH Htail). reflexivity.
Qed.

Lemma Forall2_length_combine {A B : Type} (P : A -> B -> Prop)
    (l1 : list A) (l2 : list B) :
  Forall2 P l1 l2
  <-> List.length l1 = List.length l2
      /\ Forall (fun ab => P (fst ab) (snd ab)) (combine l1 l2).
Proof.
  split.
  - induction 1 as [| a b l1 l2 Hab _ [IH1 IH2]]; simpl.
    + split; [reflexivity | constructor].
    + split; [congruence | constructor; assumption].
  - revert l2. induction l1 as [| a l1 IH]; intros [| b l2] [Hlen Hall];
      simpl in *; try discriminate; constructor.
    + inversion Hall; subst. assumption.
    + apply IH. inversion Hall; subst. split; [congruence | assumption].
Qed.

(** [k*] in front of anything: the run of [k] ends somewhere. *)
Lemma star_then_split (k : char_class) (cont : string -> bool) (s : string) :
  star_then k cont s = true
  <-> exists w t', all_in k w = true /\ s = (w ++ t')%string
                   /\ cont t' = true.
Proof.
  induction s as [| c s IH].
  - simpl. rewrite orb_false_r. split.
    + intro H. exists EmptyString, EmptyString. auto.
    + intros [w [t' [_ [Heq H]]]].
      destruct w; [|discriminate]. simpl in Heq. subst t'. exact H.
  - rewrite star_then_cons, orb_true_iff, andb_true_iff, IH. split.
    + intros [H | [Hc [w [t' [Hw [-> H]]]]]].
      * exists EmptyString, (String c s). auto.
      * exists (String c w), t'. cbn [all_in]. rewrite Hc, Hw. auto.
    + intros [[| x w] [t' [Hw [Heq H]]]]; cbn [String.append] in Heq.
      * left. subst t'. exact H.
      * injection Heq as -> ->. right.
        cbn [all_in] in Hw. apply andb_true_iff in Hw.
        destruct Hw as [Hx Hw]. split; [exact Hx|].
        exists w, t'. auto.
Qed.

(** A [+] between two literal texts, wherever they end: the topic is the
    first text, one or more characters other than [/], and the second
    text. *)
Lemma match_plus_between (pre post t : string) :
  one_line t ->
  (match_items (lit pre ++ RPlus NotSlash :: lit post) t = true
   <-> exists w, w <> EmptyString /\ all_in NotSlash w = true
                 /\ t = (pre ++ w ++ post)%string).
Proof.
  intro Ht. rewrite match_lit. split.
  - intros [s' [-> H]].
    destruct s' as [| x s']; [discriminate|].
    rewrite match_plus_cons in H. apply andb_true_iff in H.
    destruct H as [Hx H]. apply star_then_split in H.
    destruct H as [w [t' [Hw [-> H]]]].
    assert (Ht' : one_line t').
    { apply one_line_app in Ht. destruct Ht as [_ Ht].
      change (String x (w ++ t')) with (String x w ++ t')%string in Ht.
      apply one_line_app in Ht. tauto. }
    apply (match_literal post t' Ht') in H. subst t'.
    exists (String x w). split; [discriminate|].
    cbn [all_in]. rewrite Hx, Hw. auto.
  - intros [w [Hne [Hw ->]]]. exists (w ++ post)%string.
    split; [reflexivity|].
    destruct w as [| x w]; [congruence|].
    cbn [all_in] in Hw. apply andb_true_iff in Hw. destruct Hw as [Hx Hw].
    cbn [String.append]. rewrite match_plus_cons, Hx. cbn [andb].
    apply star_then_split. exists w, post.
    split; [exact Hw|]. split; [reflexivity|].
    apply match_literal; [|reflexivity].
    apply one_line_app in Ht. destruct Ht as [_ Ht].
    change (String x w ++ post)%string with (String x w ++ post)%string in Ht.
    apply (one_line_app (String x w) post) in Ht. tauto.
Qed.

(** ** Topic matching *)

(** C6, as stated, fails: [+encoder] is neither [+] nor equal to
    [left_encoder], yet the pattern matches; [a/+] has as many segments
    as [a/], yet does not match it; the pattern [a.b] matches the
    different topic [axb]; and [a/#] does not match a topic that starts
    with [a/] and has a line break after it. *)
Lemma topic_matching_as_stated_fails :
  (_topic_matches_pattern "orchestrator/data/left_encoder"
                          "orchestrator/data/+encoder" = Some true
   /\ ~ (List.length (split "/" "orchestrator/data/+encoder")
         = List.length (split "/" "orchestrator/data/left_encoder")
         /\ Forall (fun pt => fst pt = "+"%string \/ fst pt = snd pt)
                   (combine (split "/" "orchestrator/data/+encoder")
                            (split "/" "orchestrator/data/left_encoder"))))
  /\ (_topic_matches_pattern "a/" "a/+" = Some false
      /\ List.length (split "/" "a/+") = List.length (split "/" "a/")
      /\ Forall (fun pt => fst pt = "+"%string \/ fst pt = snd pt)
                (combine (split "/" "a/+") (split "/" "a/")))
  /\ (_topic_matches_pattern "axb" "a.b" = Some true
      /\ "a.b"%string <> "axb"%string)
  /\ (_topic_matches_pattern ("a/" ++ String newline "b") "a/#" = Some false
      /\ starts_with "a/" ("a/" ++ String newline "b") = true).
Proof.
  split; [|split; [|split]].
  - split; [reflexivity|]. intros [_ H]. simpl in H.
    inversion H as [| ? ? _ H1]; subst.
    inversion H1 as [| ? ? _ H2]; subst.
    inversion H2 as [| ? ? [H3 | H3] _]; simpl in H3; discriminate.
  - split; [reflexivity|]. split; [reflexivity|]. simpl.
    constructor; [right; reflexivity|].
    constructor; [left; reflexivity | constructor].
  - split; [reflexivity | discriminate].
  - split; reflexivity.
Qed.

(** C6, amended: for a topic without a line break, a pattern of literal
    characters matches iff it equals the topic; a pattern whose segments
    are each [+] or literal text matches iff pattern and topic have the
    same number of segments and every pattern segment is [+] opposite a
    non-empty topic segment or equals the topic segment; and a literal
    prefix followed by [#] matches iff the topic starts with the prefix.
    A pattern made of literal text, one [+] and literal text, wherever
    the segments end, matches iff the topic is the first text, one or
    more characters other than [/], and the second text: a [+] inside a
    segment stands for such a run, as in [orchestrator/data/+encoder]. *)
Theorem topic_matching (topic pattern : string) :
  one_line topic ->
  (all_literal pattern = true ->
     (_topic_matches_pattern topic pattern = Some true <-> pattern = topic))
  /\ (Forall plain_or_plus (split "/" pattern) ->
      (_topic_matches_pattern topic pattern = Some true
       <-> List.length (split "/" pattern) = List.length (split "/" topic)
           /\ Forall (fun pt => segment_matches (fst pt) (snd pt))
                     (combine (split "/" pattern) (split "/" topic))))
  /\ (forall prefix, all_literal prefix = true ->
        pattern = (prefix ++ "#")%string ->
        (_topic_matches_pattern topic pattern = Some true
         <-> exists rest, topic = (prefix ++ rest)%string))
  /\ (forall pre post, all_literal pre = true -> all_literal post = true ->
        pattern = (pre ++ "+" ++ post)%string ->
        (_topic_matches_pattern topic pattern = Some true
         <-> exists w, w <> ""%string /\ all_in NotSlash w = true
                       /\ topic = (pre ++ w ++ post)%string))
  /\ _topic_matches_pattern "orchestrator/data/left_encoder"
                            "orchestrator/data/+encoder" = Some true.
Proof.
  intro Ht. split; [|split; [|split; [|split; [|reflexivity]]]].
  - intro Hlit.
    rewrite (topic_matches_pattern_items topic pattern
               (all_literal_wildcards pattern Hlit)).
    rewrite (pattern_items_literal pattern Hlit).
    rewrite <- (match_literal pattern topic Ht).
    split; [intro H; injection H; auto | intros ->; reflexivity].
  - intro Hsegs.
    assert (Hw : wildcards_and_literals pattern = true).
    { rewrite <- (join_split pattern).
      apply join_wildcards_and_literals. exact Hsegs. }
    rewrite (topic_matches_pattern_items topic pattern Hw).
    rewrite <- Forall2_length_combine.
    rewrite <- (match_segments (split "/" pattern)
                  (split_nonempty pattern)); [| |exact Ht].
    + rewrite (join_split pattern).
      split; [intro H; injection H; auto | intros ->; reflexivity].
    + pose proof (split_parts_slash_free pattern) as Hfree.
      rewrite Forall_forall in *. intros seg Hin. split; auto.
  - intros prefix Hlit ->.
    assert (Hw : wildcards_and_literals (prefix ++ "#") = true).
    { rewrite wildcards_and_literals_app, (all_literal_wildcards prefix Hlit).
      reflexivity. }
    rewrite (topic_matches_pattern_items topic _ Hw).
    rewrite pattern_items_app, (pattern_items_literal prefix Hlit).
    change (pattern_items "#") with [RStar Dot].
    split.
    + intro H. injection H as H. apply match_lit in H.
      destruct H as [rest [-> _]]. exists rest. reflexivity.
    + intros [rest ->]. f_equal. apply match_lit. exists rest.
      split; [reflexivity|]. cbn [match_items]. apply star_end.
      exists rest. split; [|left; reflexivity].
      exact (proj2 (one_line_app prefix rest Ht)).
  - intros pre post Hpre Hpost ->.
    assert (Hw : wildcards_and_literals (pre ++ "+" ++ post) = true).
    { rewrite !wildcards_and_literals_app,
        (all_literal_wildcards pre Hpre), (all_literal_wildcards post Hpost).
      reflexivity. }
    rewrite (topic_matches_pattern_items topic _ Hw).
    rewrite !pattern_items_app, (pattern_items_literal pre Hpre),
      (pattern_items_literal post Hpost).
    change (pattern_items "+") with [RPlus NotSlash].
    change ([RPlus NotSlash] ++ lit post)%list
      with (RPlus NotSlash :: lit post).
    rewrite <- (match_plus_between pre post topic Ht).
    split; [intro H; injection H; auto | intros ->; reflexivity].
Qed.

Lemma topic_matching_witness :
  (_topic_matches_pattern "orchestrator/cmd/motors" "orchestrator/cmd/+"
     = Some true
   <-> List.length (split "/" "orchestrator/cmd/+")
       = List.length (split "/" "orchestrator/cmd/motors")
       /\ Forall (fun pt => segment_matches (fst pt) (snd pt))
                 (combine (split "/" "orchestrator/cmd/+")
                          (split "/" "orchestrator/cmd/motors")))
  /\ (_topic_matches_pattern "orchestrator/data/left_encoder"
                             "orchestrator/data/+encoder" = Some true
      <-> exists w, w <> ""%string /\ all_in NotSlash w = true
                    /\ "orchestrator/data/left_encoder"%string
                       = ("orchestrator/data/" ++ w ++ "encoder")%string).
Proof.
  split.
  - refine (proj1 (proj2 (topic_matching "orchestrator/cmd/motors"
                                         "orchestrator/cmd/+" _)) _).
    + reflexivity.
    + simpl.
      repeat constructor; solve [right; reflexivity | left; reflexivity].
  - refine (proj1 (proj2 (proj2 (proj2
              (topic_matching "orchestrator/data/left_encoder"
                              "orchestrator/data/+encoder" _))))
              "orchestrator/data/"%string "encoder"%string _ _ _).
    + reflexivity.
    + reflexivity.
    + reflexivity.
    + reflexivity.
Defined.

(** ** Reconnection delay *)






(** ** Publishing *)

(** What [publish] does: on a client that is not connected, or with a
    topic that [validate_topic] rejects, it returns failure at once and
    leaves the payload and the client as they were; otherwise
    [timestamp] is added to the payload exactly when the caller left it
    out, the payload is serialized and the message handed to the
    connection, and the result is that of the send. *)
Lemma publish_outcomes (json_dumps : Dict -> option string)
    (now_iso : string) (rc : Z) (c : Client)
    (t : string) (payload : Dict) (q : Z) (r : bool) :
  let out := publish json_dumps now_iso rc c t payload q r in
  let result := fst (fst out) in
  let payload' := snd (fst out) in
  let c' := snd out in
  ((_connected c = false \/ validate_topic t = false) ->
     result = false /\ payload' = payload /\ c' = c)
  /\ (_connected c = true -> validate_topic t = true ->
      (contains "timestamp" payload = false ->
         payload' = add_key "timestamp" (PyStr now_iso) payload)
      /\ (contains "timestamp" payload = true -> payload' = payload)
      /\ contains "timestamp" payload' = true
      /\ (forall text, json_dumps payload' = Some text ->
            sent c' = (sent c ++ [ {| topic := t; json_payload := text;
                                      qos := q; retain := r |} ])%list
            /\ result = (rc =? 0))
      /\ (json_dumps payload' = None -> result = false /\ c' = c)).
Proof.
  cbv zeta. unfold publish. split.
  - intros [Hc | Ht].
    + rewrite Hc. simpl. auto.
    + destruct (_connected c); simpl; [rewrite Ht|]; simpl; auto.
  - intros Hc Ht. rewrite Hc, Ht. simpl.
    destruct (contains "timestamp" payload) eqn:Hts; simpl.
    + destruct (json_dumps payload) as [text |] eqn:Hj; simpl;
        repeat split; intros; try congruence; auto.
    + assert (Hin : contains "timestamp"
                      (add_key "timestamp" (PyStr now_iso) payload) = true).
      { unfold contains, add_key. rewrite existsb_app. simpl.
        apply orb_true_r. }
      destruct (json_dumps (add_key "timestamp" (PyStr now_iso) payload))
        as [text |] eqn:Hj; simpl; repeat split; intros; try congruence; auto.
Qed.

(** C8: [publish] fails at once, with payload and client untouched, on a
    client that is not connected or with a topic that [validate_topic]
    rejects, and otherwise adds [timestamp] exactly when it is missing,
    serializes and sends.  But [validate_topic] does not reject every
    topic outside the three shapes: it accepts a name of one of the
    shapes followed by a line break, which is not of any of the shapes.
    On a connected client [publish] with such a topic does not fail: it
    adds the timestamp and hands the message, line break in the topic
    included, to the connection, and returns the result of the send. *)
Theorem publish_sends_topic_with_trailing_line_break
    (json_dumps : Dict -> option string)
    (now_iso : string) (rc : Z) (c : Client)
    (t : string) (payload : Dict) (q : Z) (r : bool) :
  let out := publish json_dumps now_iso rc c t payload q r in
  let result := fst (fst out) in
  let payload' := snd (fst out) in
  let c' := snd out in
  (validate_topic t = true
   <-> topic_shape t
       \/ exists t0, topic_shape t0
                     /\ t = (t0 ++ String newline EmptyString)%string)
  /\ ((_connected c = false \/ validate_topic t = false) ->
      result = false /\ payload' = payload /\ c' = c)
  /\ (_connected c = true -> validate_topic t = true ->
      (contains "timestamp" payload = false ->
         payload' = add_key "timestamp" (PyStr now_iso) payload)
      /\ (contains "timestamp" payload = true -> payload' = payload)
      /\ contains "timestamp" payload' = true
      /\ (forall text, json_dumps payload' = Some text ->
            sent c' = (sent c ++ [ {| topic := t; json_payload := text;
                                      qos := q; retain := r |} ])%list
            /\ result = (rc =? 0))
      /\ (json_dumps payload' = None -> result = false /\ c' = c))
  /\ (forall t0, topic_shape t0 ->
        t = (t0 ++ String newline EmptyString)%string ->
        ~ topic_shape t
        /\ validate_topic t = true
        /\ (_connected c = true ->
            forall text, json_dumps payload' = Some text ->
              result = (rc =? 0)
              /\ contains "timestamp" payload' = true
              /\ sent c' = (sent c ++ [ {| topic := t; json_payload := text;
                                           qos := q; retain := r |} ])%list)).
Proof.
  cbv zeta.
  destruct (publish_outcomes json_dumps now_iso rc c t payload q r)
    as [Hfail Hsend]. cbv zeta in Hfail, Hsend.
  split; [apply validate_topic_accepts|].
  split; [exact Hfail|]. split; [exact Hsend|].
  intros t0 Ht0 Ht.
  assert (Hv : validate_topic t = true).
  { apply validate_topic_accepts. right. exists t0. auto. }
  split.
  { intro Hs. apply topic_shape_one_line in Hs. rewrite Ht in Hs.
    exact (one_line_not_broken t0 Hs). }
  split; [exact Hv|].
  intros Hc text Hj.
  destruct (Hsend Hc Hv) as (_ & _ & Hts & Hsent & _).
  destruct (Hsent text Hj) as [H1 H2]. auto.
Qed.

Lemma publish_sends_topic_with_trailing_line_break_witness :
  let json_dumps := fun _ : Dict => Some "{}"%string in
  let c := connection_run (new default_config) [OnConnect 0] in
  let t := ("orchestrator/cmd/estop" ++ String newline "")%string in
  let out := publish json_dumps "2024-01-01T00:00:00" 0 c t
                     [("action"%string, PyStr "emergency_stop")] 1 false in
  ~ topic_shape t
  /\ fst (fst out) = true
  /\ sent (snd out)
     = [ {| topic := t; json_payload := "{}"; qos := 1; retain := false |} ].
Proof.
  intros json_dumps c t out.
  assert (Hshape : topic_shape "orchestrator/cmd/estop").
  { exists "cmd"%string, "estop"%string. simpl.
    repeat split; auto. discriminate. }
  destruct (proj2 (proj2 (proj2
              (publish_sends_topic_with_trailing_line_break json_dumps
                 "2024-01-01T00:00:00" 0 c t
                 [("action"%string, PyStr "emergency_stop")] 1 false)))
              "orchestrator/cmd/estop"%string Hshape eq_refl)
    as (Hnot & _ & Hsent).
  destruct (Hsent eq_refl "{}"%string eq_refl) as (Hres & _ & Hmsg).
  split; [exact Hnot|]. split; [exact Hres | exact Hmsg].
Defined.

End MqttClientFacts.

(* ===================================================================== *)
(** * Further properties of the safety monitor *)
(* ===================================================================== *)

Section SafetyMonitorInvariants.

Import SafetyMonitor.
Local Open Scope Q_scope.

Lemma last_n_length {A : Type} (n : nat) (l : list A) :
  (List.length (last_n n l) <= n)%nat.
Proof. unfold last_n. rewrite length_skipn. lia. Qed.

Lemma limit_history_length (h : list ObstacleDetection) :
  (List.length (limit_history h) <= 1000)%nat.
Proof.
  unfold limit_history. destruct (1000 <? List.length h)%nat eqn:E.
  - pose proof (last_n_length 500 h). lia.
  - apply Nat.ltb_ge in E. exact E.
Qed.

Lemma estop_publishes_status (status : string) (m : Monitor) :
  estop_publishes (_publish_safety_status status m) = estop_publishes m.
Proof.
  unfold _publish_safety_status. rewrite estop_publishes_snoc. simpl. lia.
Qed.

Lemma process_invariant (zones : list SafetyZone) (now : Q) (success : bool)
    (d : LidarData) (m : Monitor) :
  last_lidar_data m <> None ->
  (safety_zones m = zones
   /\ (List.length (obstacle_detections m) <= 1000)%nat
   /\ emergency_stops_triggered m = Z.of_nat (estop_publishes m)
   /\ (emergency_stop_active m = true -> last_lidar_data m <> None)) ->
  (safety_zones (_process_lidar_data now success d m) = zones
   /\ (List.length (obstacle_detections (_process_lidar_data now success d m)) <= 1000)%nat
   /\ emergency_stops_triggered (_process_lidar_data now success d m) = Z.of_nat (estop_publishes (_process_lidar_data now success d m))
   /\ (emergency_stop_active (_process_lidar_data now success d m) = true -> last_lidar_data (_process_lidar_data now success d m) <> None)).
Proof.
  intros Hdata (Hz & Hlen & Hcnt & Hlatch). unfold _process_lidar_data.
  destruct (negb _); [repeat split; assumption|].
  destruct (critical_obstacles now (safety_zones m) (ranges d) (angles d))
    as [| c rest] eqn:Ecrit.
  - repeat split; simpl; trivial; try apply limit_history_length.
  - destruct (emergency_stop_active m) eqn:Hact.
    + rewrite trigger_latched by exact Hact.
      repeat split; simpl; trivial; try apply limit_history_length.
    + destruct (trigger_unlatched now success c rest m Hact)
        as (H1 & H2 & H3 & H4 & H5).
      assert (Hd : last_lidar_data
                     (_trigger_emergency_stop now success (c :: rest) m)
                   = last_lidar_data m).
      { unfold _trigger_emergency_stop. rewrite Hact.
        destruct success; reflexivity. }
      repeat split; simpl.
      * rewrite H5. exact Hz.
      * apply limit_history_length.
      * change (estop_publishes (set_detections ?h ?x))
          with (estop_publishes x).
        rewrite H2, H3, Hcnt. lia.
      * intros _. rewrite Hd. exact Hdata.
Qed.

Lemma step_invariant (zones : list SafetyZone) (m : Monitor) (e : Event) :
  (safety_zones m = zones
   /\ (List.length (obstacle_detections m) <= 1000)%nat
   /\ emergency_stops_triggered m = Z.of_nat (estop_publishes m)
   /\ (emergency_stop_active m = true -> last_lidar_data m <> None)) ->
  (safety_zones (step m e) = zones
   /\ (List.length (obstacle_detections (step m e)) <= 1000)%nat
   /\ emergency_stops_triggered (step m e) = Z.of_nat (estop_publishes (step m e))
   /\ (emergency_stop_active (step m e) = true -> last_lidar_data (step m e) <> None)).
Proof.
  intro Hinv. destruct e as [now success [d |] | now]; simpl.
  - destruct (scan_timestamp d) as [t |].
    + apply process_invariant; [discriminate|].
      destruct Hinv as (Hz & Hlen & Hcnt & Hlatch).
      repeat split; simpl; trivial. discriminate.
    + destruct Hinv as (Hz & Hlen & Hcnt & Hlatch).
      repeat split; simpl; trivial. discriminate.
  - exact Hinv.
  - unfold monitoring_cycle.
    destruct (_check_data_timeout now m); [|exact Hinv].
    destruct Hinv as (Hz & Hlen & Hcnt & Hlatch).
    unfold _check_emergency_stop_reset.
    set (m1 := _publish_safety_status "monitoring" m).
    assert (H1 : (safety_zones m1 = zones
                 /\ (List.length (obstacle_detections m1) <= 1000)%nat
                 /\ emergency_stops_triggered m1 = Z.of_nat (estop_publishes m1)
                 /\ (emergency_stop_active m1 = true -> last_lidar_data m1 <> None))).
    { repeat split; trivial.
      unfold m1. rewrite estop_publishes_status. exact Hcnt. }
    destruct (negb (emergency_stop_active m1)); [exact H1|].
    destruct (last_lidar_data m1) eqn:Hd;
      [|cbv beta iota; rewrite Hd; exact H1].
    destruct (filter _ _); [|cbv beta iota; rewrite Hd; exact H1].
    destruct H1 as (Hz1 & Hlen1 & Hcnt1 & _).
    repeat split; trivial.
    + rewrite estop_publishes_status. exact Hcnt1.
    + simpl. discriminate.
Qed.

Lemma run_invariant (zones : list SafetyZone) (es : list Event) (m : Monitor) :
  (safety_zones m = zones
   /\ (List.length (obstacle_detections m) <= 1000)%nat
   /\ emergency_stops_triggered m = Z.of_nat (estop_publishes m)
   /\ (emergency_stop_active m = true -> last_lidar_data m <> None)) ->
  (safety_zones (run m es) = zones
   /\ (List.length (obstacle_detections (run m es)) <= 1000)%nat
   /\ emergency_stops_triggered (run m es) = Z.of_nat (estop_publishes (run m es))
   /\ (emergency_stop_active (run m es) = true -> last_lidar_data (run m es) <> None)).
Proof.
  revert m. induction es as [| e es IH]; intros m Hinv; [exact Hinv|].
  simpl. apply IH. apply step_invariant. exact Hinv.
Qed.

(** X1: in every state a monitor can reach, the zones are those it was
    built with, the detection history holds at most 1000 entries, the
    trigger counter equals the number of emergency-stop commands
    published, and an active latch implies that LiDAR data has been
    received. *)
Theorem reachable_state_invariants
    (threshold : Q) (configured : list ZoneConfig) (m : Monitor) :
  reachable threshold configured m ->
  safety_zones m = _initialize_safety_zones threshold configured
  /\ (List.length (obstacle_detections m) <= 1000)%nat
  /\ emergency_stops_triggered m = Z.of_nat (estop_publishes m)
  /\ (emergency_stop_active m = true -> last_lidar_data m <> None).
Proof.
  intros [es ->]. apply run_invariant.
  repeat split; simpl; try lia; discriminate.
Qed.

Lemma reachable_state_invariants_witness :
  let scan := {| ranges := [3 # 10]; angles := [0]; scan_timestamp := 7 |} in
  let m := run (init (1 # 2) []) [LidarMessage 7 true (Some scan)] in
  emergency_stops_triggered m = Z.of_nat (estop_publishes m).
Proof.
  intros scan m.
  refine (proj1 (proj2 (proj2 (reachable_state_invariants (1 # 2) [] m _)))).
  exists [LidarMessage 7 true (Some scan)]. reflexivity.
Defined.

(** Without a stop zone that sees an obstacle there is no critical
    detection. *)
Lemma no_critical_obstacles (now : Q) (zones : list SafetyZone)
    (rs angs : list Q) :
  Forall (fun z => action z = "stop"%string ->
                   _check_zone_for_obstacles z rs angs = []) zones ->
  critical_obstacles now zones rs angs = [].
Proof.
  intro H. unfold critical_obstacles.
  induction H as [| z zones Hz _ IH]; [reflexivity|].
  simpl. destruct (String.eqb (action z) "stop") eqn:E; [|exact IH].
  simpl. unfold detections_of_zone at 1.
  rewrite (Hz (proj1 (String.eqb_eq _ _) E)). exact IH.
Qed.

Lemma warning_obstacles_severity (now : Q) (zones : list SafetyZone)
    (rs angs : list Q) :
  Forall (fun d => timestamp d = now /\ severity d = "warning"%string)
         (warning_obstacles now zones rs angs).
Proof.
  unfold warning_obstacles. apply Forall_flat_map. apply Forall_forall.
  intros z Hz. apply filter_In in Hz. destruct Hz as [_ Hz].
  apply negb_true_iff in Hz.
  unfold detections_of_zone. apply Forall_forall.
  intros d Hd. apply in_map_iff in Hd. destruct Hd as [o [<- _]]. simpl.
  rewrite Hz. split; reflexivity.
Qed.

(** X2: a scan in which no zone with action [stop] sees an obstacle
    leaves the latch, the trigger counter and the published messages as
    they were, whatever the other zones see; what they see is recorded
    with severity [warning]. *)
Theorem side_zone_obstacles_never_stop
    (now : Q) (success : bool) (scan : LidarData) (m : Monitor) :
  Forall (fun z => action z = "stop"%string ->
                   _check_zone_for_obstacles z (ranges scan) (angles scan) = [])
         (safety_zones m) ->
  let m' := _process_lidar_data now success scan m in
  let warn := warning_obstacles now (safety_zones m) (ranges scan)
                                (angles scan) in
  emergency_stop_active m' = emergency_stop_active m
  /\ emergency_stops_triggered m' = emergency_stops_triggered m
  /\ published m' = published m
  /\ Forall (fun d => severity d = "warning"%string) warn
  /\ (List.length (ranges scan) = List.length (angles scan) ->
      obstacle_detections m'
      = limit_history (obstacle_detections m ++ warn)).
Proof.
  intros Hstop. cbv zeta.
  pose proof (no_critical_obstacles now _ _ _ Hstop) as Hcrit.
  assert (Hsev : Forall (fun d => severity d = "warning"%string)
                   (warning_obstacles now (safety_zones m) (ranges scan)
                                      (angles scan))).
  { eapply Forall_impl; [|apply warning_obstacles_severity].
    intros d [_ H]. exact H. }
  unfold _process_lidar_data.
  destruct (List.length (ranges scan) =? List.length (angles scan))%nat eqn:E;
    simpl.
  - rewrite Hcrit. simpl. repeat split; trivial.
  - repeat split; trivial. intro H. rewrite H, Nat.eqb_refl in E. discriminate.
Qed.

Lemma side_zone_obstacles_never_stop_witness :
  let scan := {| ranges := [3 # 10]; angles := [90]; scan_timestamp := 1 |} in
  published (_process_lidar_data 1 true scan (init (1 # 2) [])) = [].
Proof.
  intro scan.
  refine (proj1 (proj2 (proj2 (side_zone_obstacles_never_stop
                                 1 true scan (init (1 # 2) []) _)))).
  repeat constructor; simpl; discriminate.
Defined.

Lemma is_obstacle_out_of_range (z : SafetyZone) (d a : Q) :
  d < 1 # 10 \/ min_distance z < d -> is_obstacle z (d, a) = false.
Proof.
  intro H. unfold is_obstacle.
  apply andb_false_iff. right. apply andb_false_iff.
  destruct H as [H | H]; [left | right]; apply Qle_bool_false; exact H.
Qed.

Lemma check_zone_out_of_range (z : SafetyZone) (rs angs : list Q) :
  Forall (fun d => d < 1 # 10 \/ min_distance z < d) rs ->
  _check_zone_for_obstacles z rs angs = [].
Proof.
  intro H. unfold _check_zone_for_obstacles. revert angs.
  induction H as [| d rs Hd _ IH]; intros [| a angs]; trivial.
  cbn [combine filter].
  rewrite (is_obstacle_out_of_range z d a Hd). apply IH.
Qed.

(** X3: points nearer than 0.1 m, or farther than the [min_distance] of
    every zone, are no obstacles: a scan made of such points yields no
    detection, sets no latch and publishes nothing. *)
Theorem out_of_range_points_ignored
    (now : Q) (success : bool) (scan : LidarData) (m : Monitor) :
  Forall (fun d => d < 1 # 10
                   \/ Forall (fun z => min_distance z < d) (safety_zones m))
         (ranges scan) ->
  let m' := _process_lidar_data now success scan m in
  critical_obstacles now (safety_zones m) (ranges scan) (angles scan) = []
  /\ warning_obstacles now (safety_zones m) (ranges scan) (angles scan) = []
  /\ emergency_stop_active m' = emergency_stop_active m
  /\ emergency_stops_triggered m' = emergency_stops_triggered m
  /\ published m' = published m
  /\ ((List.length (obstacle_detections m) <= 1000)%nat ->
      obstacle_detections m' = obstacle_detections m).
Proof.
  intro Hfar. cbv zeta.
  assert (Hzone : forall z, In z (safety_zones m) ->
            _check_zone_for_obstacles z (ranges scan) (angles scan) = []).
  { intros z Hz. apply check_zone_out_of_range.
    eapply Forall_impl; [|exact Hfar]. intros d [H | H]; [left; exact H|].
    right. rewrite Forall_forall in H. exact (H z Hz). }
  assert (Hnone : forall zs, incl zs (safety_zones m) ->
            flat_map (detections_of_zone now (ranges scan) (angles scan)) zs
            = []).
  { induction zs as [| z zs IH]; intro Hincl; [reflexivity|].
    simpl. unfold detections_of_zone at 1.
    rewrite (Hzone z (Hincl z (or_introl eq_refl))). simpl.
    apply IH. intros y Hy. apply Hincl. right. exact Hy. }
  assert (Hcrit : critical_obstacles now (safety_zones m) (ranges scan)
                                     (angles scan) = []).
  { apply Hnone. intros z Hz. apply filter_In in Hz. tauto. }
  assert (Hwarn : warning_obstacles now (safety_zones m) (ranges scan)
                                    (angles scan) = []).
  { apply Hnone. intros z Hz. apply filter_In in Hz. tauto. }
  split; [exact Hcrit|]. split; [exact Hwarn|].
  unfold _process_lidar_data.
  destruct (negb _); [repeat split; trivial|].
  rewrite Hcrit, Hwarn. simpl. rewrite app_nil_r.
  repeat split; trivial.
  intro Hlen. unfold limit_history.
  apply Nat.ltb_ge in Hlen. rewrite Hlen. reflexivity.
Qed.

Lemma out_of_range_points_ignored_witness :
  let scan := {| ranges := [1 # 20; 3]; angles := [0; 10];
                 scan_timestamp := 1 |} in
  published (_process_lidar_data 1 true scan (init (1 # 2) [])) = [].
Proof.
  intro scan.
  refine (proj1 (proj2 (proj2 (proj2 (proj2
            (out_of_range_points_ignored 1 true scan (init (1 # 2) []) _)))))).
  constructor; [left; reflexivity|].
  constructor; [right | constructor].
  repeat constructor.
Defined.

(** [closest_from] picks an element of least distance. *)
Lemma closest_from_least (best : ObstacleDetection)
    (l : list ObstacleDetection) :
  In (closest_from best l) (best :: l)
  /\ Forall (fun d => distance (closest_from best l) <= distance d)
            (best :: l).
Proof.
  revert best. induction l as [| d l IH]; intro best; simpl.
  - split; [left; reflexivity|]. constructor; [apply Qle_refl | constructor].
  - destruct (Qlt_bool (distance d) (distance best)) eqn:E.
    + destruct (IH d) as [Hin Hall]. inversion Hall as [| ? ? Hd Hl]; subst.
      apply Qlt_bool_true in E.
      split; [destruct Hin as [<- | Hin]; auto|].
      constructor; [|constructor; assumption].
      apply Qle_trans with (distance d); [exact Hd | apply Qlt_le_weak; exact E].
    + destruct (IH best) as [Hin Hall]. inversion Hall as [| ? ? Hb Hl]; subst.
      assert (Hbd : distance best <= distance d).
      { apply Qnot_lt_le. intro H. apply Qlt_bool_true in H. congruence. }
      split; [destruct Hin as [<- | Hin]; auto|].
      constructor; [exact Hb|]. constructor; [|exact Hl].
      apply Qle_trans with (distance best); assumption.
Qed.

(** X4: the emergency-stop command that sets the latch is published on
    [orchestrator/cmd/estop] with QoS 1, names a critical detection of
    the scan whose distance is the least among them, and carries their
    number. *)
Theorem estop_command_reports_closest
    (now : Q) (success : bool) (scan : LidarData) (m : Monitor) :
  emergency_stop_active m = false ->
  List.length (ranges scan) = List.length (angles scan) ->
  critical_obstacles now (safety_zones m) (ranges scan) (angles scan) <> [] ->
  let crit := critical_obstacles now (safety_zones m) (ranges scan)
                                 (angles scan) in
  exists closest,
    In closest crit
    /\ Forall (fun d => distance closest <= distance d) crit
    /\ In {| topic := estop_topic;
             payload := EstopCommand now closest (List.length crit);
             qos := 1 |}
          (published (_process_lidar_data now success scan m)).
Proof.
  intros Hoff Hlen Hne. cbv zeta.
  unfold _process_lidar_data. rewrite Hlen, Nat.eqb_refl. simpl.
  destruct (critical_obstacles now (safety_zones m) (ranges scan)
                               (angles scan)) as [| c rest] eqn:Ec;
    [contradiction|].
  destruct (closest_from_least c rest) as [Hin Hall].
  exists (closest_from c rest). split; [exact Hin|]. split; [exact Hall|].
  unfold _trigger_emergency_stop. rewrite Hoff.
  destruct success; simpl; rewrite ?in_app_iff; simpl; auto.
Qed.

Lemma estop_command_reports_closest_witness :
  let scan := {| ranges := [4 # 10; 3 # 10]; angles := [0; 10];
                 scan_timestamp := 1 |} in
  exists closest,
    In closest (critical_obstacles 1 (safety_zones (init (1 # 2) []))
                                   (ranges scan) (angles scan))
    /\ Forall (fun d => distance closest <= distance d)
              (critical_obstacles 1 (safety_zones (init (1 # 2) []))
                                  (ranges scan) (angles scan))
    /\ In {| topic := estop_topic;
             payload := EstopCommand 1 closest 2;
             qos := 1 |}
          (published (_process_lidar_data 1 true scan (init (1 # 2) []))).
Proof.
  intro scan.
  refine (estop_command_reports_closest 1 true scan (init (1 # 2) []) _ _ _).
  - reflexivity.
  - reflexivity.
  - vm_compute. discriminate.
Defined.

Lemma reset_frame (now : Q) (m : Monitor) :
  estop_publishes (_check_emergency_stop_reset now m) = estop_publishes m
  /\ obstacle_detections (_check_emergency_stop_reset now m)
     = obstacle_detections m
  /\ emergency_stops_triggered (_check_emergency_stop_reset now m)
     = emergency_stops_triggered m
  /\ (emergency_stop_active m = false ->
      emergency_stop_active (_check_emergency_stop_reset now m) = false).
Proof.
  unfold _check_emergency_stop_reset.
  destruct (emergency_stop_active m) eqn:E; simpl;
    [|repeat split; auto].
  destruct (last_lidar_data m); [|repeat split; try discriminate; auto].
  destruct (filter _ _); [|repeat split; try discriminate; auto].
  rewrite estop_publishes_status. repeat split; try discriminate; auto.
Qed.

(** X5: a LiDAR message never releases the latch and a monitoring cycle
    never sets it; a monitoring cycle publishes no emergency-stop
    command and leaves the detection history and the trigger counter
    alone. *)
Theorem latch_set_and_released_on_separate_paths
    (now : Q) (success : bool) (msg : option LidarData) (m : Monitor) :
  (emergency_stop_active m = true ->
     emergency_stop_active (_handle_lidar_data now success msg m) = true)
  /\ (emergency_stop_active m = false ->
      emergency_stop_active (monitoring_cycle now m) = false)
  /\ estop_publishes (monitoring_cycle now m) = estop_publishes m
  /\ obstacle_detections (monitoring_cycle now m) = obstacle_detections m
  /\ emergency_stops_triggered (monitoring_cycle now m)
     = emergency_stops_triggered m.
Proof.
  split.
  { intro Hon. destruct msg as [d |]; [|exact Hon].
    unfold _handle_lidar_data.
    destruct (scan_timestamp d) as [t |]; [|exact Hon].
    unfold _process_lidar_data. destruct (negb _); [exact Hon|].
    destruct (critical_obstacles _ _ _ _); [exact Hon|].
    rewrite trigger_latched by exact Hon. exact Hon. }
  unfold monitoring_cycle.
  destruct (_check_data_timeout now m); [|repeat split; auto].
  set (m1 := _publish_safety_status "monitoring" m).
  destruct (reset_frame now m1) as (Hp & Hd & Hc & Ha).
  rewrite Hp, Hd, Hc. unfold m1. rewrite estop_publishes_status.
  repeat split. exact Ha.
Qed.

Lemma latch_set_and_released_on_separate_paths_witness :
  let scan := {| ranges := [3 # 10]; angles := [0]; scan_timestamp := 1 |} in
  let m := run (init (1 # 2) []) [LidarMessage 1 true (Some scan)] in
  emergency_stop_active
    (_handle_lidar_data 9 true
       (Some {| ranges := [2]; angles := [0]; scan_timestamp := 9 |}) m) = true.
Proof.
  intros scan m.
  refine (proj1 (latch_set_and_released_on_separate_paths 9 true _ m) _).
  reflexivity.
Defined.

Lemma is_recent_critical_old (now : Q) (d : ObstacleDetection) :
  (severity d = "critical"%string -> 3 <= now - timestamp d) ->
  is_recent_critical now d = false.
Proof.
  intro H. unfold is_recent_critical.
  destruct (String.eqb (severity d) "critical") eqn:E; [|reflexivity].
  apply String.eqb_eq in E. simpl.
  unfold Qlt_bool. apply negb_false_iff. apply Qle_bool_iff. exact (H E).
Qed.

Lemma filter_none {A : Type} (f : A -> bool) (l : list A) :
  (forall x, In x l -> f x = false) -> filter f l = [].
Proof.
  induction l as [| a l IH]; intro H; [reflexivity|].
  simpl. rewrite (H a (or_introl eq_refl)). apply IH.
  intros x Hx. apply H. right. exact Hx.
Qed.

Lemma reachable_data_seen
    (threshold : Q) (configured : list ZoneConfig) (m : Monitor) :
  reachable threshold configured m ->
  emergency_stop_active m = true ->
  exists d, last_lidar_data m = Some d.
Proof.
  intros [es ->] Hon.
  destruct (run_invariant (_initialize_safety_zones threshold configured)
              es (init threshold configured)) as (_ & _ & _ & Hdata).
  { repeat split; simpl; try lia; discriminate. }
  specialize (Hdata Hon).
  destruct (last_lidar_data _) as [d |]; [exists d; reflexivity | congruence].
Qed.

Lemma trigger_keeps_timestamp (now : Q) (success : bool)
    (obstacles : list ObstacleDetection) (m : Monitor) :
  last_lidar_timestamp (_trigger_emergency_stop now success obstacles m)
  = last_lidar_timestamp m.
Proof.
  unfold _trigger_emergency_stop.
  destruct (emergency_stop_active m); [reflexivity|].
  destruct obstacles; [reflexivity|]. destruct success; reflexivity.
Qed.

Lemma process_keeps_timestamp (now : Q) (success : bool) (d : LidarData)
    (m : Monitor) :
  last_lidar_timestamp (_process_lidar_data now success d m)
  = last_lidar_timestamp m.
Proof.
  unfold _process_lidar_data. destruct (negb _); [reflexivity|].
  destruct (critical_obstacles _ _ _ _); [reflexivity|].
  simpl. apply trigger_keeps_timestamp.
Qed.

Lemma reset_keeps_timestamp (now : Q) (m : Monitor) :
  last_lidar_timestamp (_check_emergency_stop_reset now m)
  = last_lidar_timestamp m.
Proof.
  unfold _check_emergency_stop_reset.
  destruct (negb _); [reflexivity|].
  destruct (last_lidar_data m); [|reflexivity].
  destruct (filter _ _); reflexivity.
Qed.

Lemma cycle_keeps_timestamp (now : Q) (m : Monitor) :
  last_lidar_timestamp (monitoring_cycle now m) = last_lidar_timestamp m.
Proof.
  unfold monitoring_cycle.
  destruct (_check_data_timeout now m); [|reflexivity].
  rewrite reset_keeps_timestamp. reflexivity.
Qed.

Lemma handle_stores_timestamp (now : Q) (success : bool) (d : LidarData)
    (m : Monitor) :
  last_lidar_timestamp (_handle_lidar_data now success (Some d) m)
  = match scan_timestamp d with
    | Parsed t => Some t
    | Unparsable => last_lidar_timestamp m
    end.
Proof.
  unfold _handle_lidar_data. destruct (scan_timestamp d) as [t |].
  - rewrite process_keeps_timestamp. reflexivity.
  - reflexivity.
Qed.

Lemma cycle_never_latches (now : Q) (m : Monitor) :
  emergency_stop_active m = false ->
  emergency_stop_active (monitoring_cycle now m) = false.
Proof.
  intro Hoff. unfold monitoring_cycle.
  destruct (_check_data_timeout now m); [|exact Hoff].
  apply (reset_frame now (_publish_safety_status "monitoring" m)).
  exact Hoff.
Qed.

Lemma step_timestamp_seen (m : Monitor) (e : Event) :
  (emergency_stop_active m = true -> last_lidar_timestamp m <> None) ->
  emergency_stop_active (step m e) = true ->
  last_lidar_timestamp (step m e) <> None.
Proof.
  intros Hinv. destruct e as [now success [d |] | now]; cbn [step].
  - rewrite handle_stores_timestamp. unfold _handle_lidar_data.
    destruct (scan_timestamp d) as [t |]; [discriminate|]. exact Hinv.
  - exact Hinv.
  - rewrite cycle_keeps_timestamp. intro Hon. apply Hinv.
    destruct (emergency_stop_active m) eqn:E; [reflexivity|].
    rewrite (cycle_never_latches now m E) in Hon. discriminate.
Qed.

Lemma reachable_timestamp_seen
    (threshold : Q) (configured : list ZoneConfig) (m : Monitor) :
  reachable threshold configured m ->
  emergency_stop_active m = true ->
  exists t, last_lidar_timestamp m = Some t.
Proof.
  intros [es ->] Hon.
  assert (Hrun : forall es m0,
            (emergency_stop_active m0 = true ->
             last_lidar_timestamp m0 <> None) ->
            emergency_stop_active (run m0 es) = true ->
            last_lidar_timestamp (run m0 es) <> None).
  { clear. induction es as [| e es IH]; intros m0 H0; [exact H0|].
    simpl. apply IH. apply step_timestamp_seen. exact H0. }
  specialize (Hrun es (init threshold configured)
                (fun H : false = true => False_ind _ (diff_false_true H)) Hon).
  destruct (last_lidar_timestamp _) as [t |];
    [exists t; reflexivity | congruence].
Qed.

(** X6: a state the monitor can reach with the latch set holds the
    timestamp of a scan.  When that timestamp is a naive one, a
    monitoring cycle at a time when every critical detection of the
    history is at least three seconds old releases the latch and
    publishes two status messages and nothing else.  When it carries a
    UTC offset the data timeout check raises, and the cycle ends before
    the status is published and before the reset check: the monitor is
    left as it was, latch included. *)
Theorem quiet_period_releases_latch
    (threshold : Q) (configured : list ZoneConfig) (now : Q) (m : Monitor) :
  reachable threshold configured m ->
  emergency_stop_active m = true ->
  Forall (fun d => severity d = "critical"%string -> 3 <= now - timestamp d)
         (obstacle_detections m) ->
  (exists t, last_lidar_timestamp m = Some t)
  /\ (forall t, last_lidar_timestamp m = Some (Naive t) ->
      emergency_stop_active (monitoring_cycle now m) = false
      /\ published (monitoring_cycle now m)
         = (published m
            ++ [ {| topic := status_topic;
                    payload := SafetyStatus "monitoring"
                                 (emergency_stops_triggered m)
                                 (List.length (obstacle_detections m));
                    qos := 0 |};
                 {| topic := status_topic;
                    payload := SafetyStatus "monitoring"
                                 (emergency_stops_triggered m)
                                 (List.length (obstacle_detections m));
                    qos := 0 |} ])%list)
  /\ (forall t, last_lidar_timestamp m = Some (Aware t) ->
      _check_data_timeout now m = None
      /\ monitoring_cycle now m = m).
Proof.
  intros Hreach Hon Hold.
  split; [exact (reachable_timestamp_seen threshold configured m Hreach Hon)|].
  split.
  - intros t Ht.
    destruct (reachable_data_seen threshold configured m Hreach Hon)
      as [d Hd].
    assert (Hcheck : exists l, _check_data_timeout now m = Some l).
    { unfold _check_data_timeout. rewrite Ht. cbv zeta.
      destruct (Qlt_bool 2 _); [destruct (Qlt_bool 5 _)|]; eexists;
        reflexivity. }
    destruct Hcheck as [l Hcheck].
    unfold monitoring_cycle. rewrite Hcheck.
    unfold _check_emergency_stop_reset.
    set (m1 := _publish_safety_status "monitoring" m).
    change (emergency_stop_active m1) with (emergency_stop_active m).
    change (last_lidar_data m1) with (last_lidar_data m).
    change (obstacle_detections m1) with (obstacle_detections m).
    rewrite Hon, Hd. simpl negb. cbv iota.
    assert (Hnone : filter (is_recent_critical now)
                           (last_n 10 (obstacle_detections m)) = []).
    { apply filter_none.
      rewrite Forall_forall in Hold. intros x Hx.
      apply is_recent_critical_old. apply Hold.
      exact (last_n_incl 10 _ x Hx). }
    rewrite Hnone. split; [reflexivity|].
    unfold m1, _publish_safety_status, publish. simpl.
    rewrite <- app_assoc. reflexivity.
  - intros t Ht. unfold monitoring_cycle, _check_data_timeout.
    rewrite Ht. split; reflexivity.
Qed.

Lemma quiet_period_releases_latch_witness :
  let naive := {| ranges := [3 # 10]; angles := [0]; scan_timestamp := 1 |} in
  let aware := {| ranges := [3 # 10]; angles := [0];
                  scan_timestamp := Aware 1 |} in
  let m := run (init (1 # 2) []) [LidarMessage 1 true (Some naive)] in
  let m' := run (init (1 # 2) []) [LidarMessage 1 true (Some aware)] in
  emergency_stop_active (monitoring_cycle 5 m) = false
  /\ emergency_stop_active (monitoring_cycle 5 m') = true.
Proof.
  intros naive aware m m'. split.
  - refine (proj1 (proj1 (proj2
              (quiet_period_releases_latch (1 # 2) [] 5 m _ _ _)) 1 _)).
    + exists [LidarMessage 1 true (Some naive)]. reflexivity.
    + reflexivity.
    + repeat constructor. intros _. vm_compute. discriminate.
    + reflexivity.
  - refine (eq_trans (f_equal emergency_stop_active
              (proj2 (proj2 (proj2
                 (quiet_period_releases_latch (1 # 2) [] 5 m' _ _ _)) 1 _)))
              _).
    + exists [LidarMessage 1 true (Some aware)]. reflexivity.
    + reflexivity.
    + repeat constructor. intros _. vm_compute. discriminate.
    + reflexivity.
    + reflexivity.
Defined.

End SafetyMonitorInvariants.

Section PerformanceFacts.

Import SafetyMonitor Performance.
Local Open Scope Q_scope.

Lemma py_max_bounds (a b : Q) : a <= py_max a b /\ b <= py_max a b.
Proof.
  unfold py_max. destruct (Qlt_bool a b) eqn:E.
  - apply Qlt_bool_true in E. split; [apply Qlt_le_weak; exact E | apply Qle_refl].
  - split; [apply Qle_refl|].
    apply Qnot_lt_le. intro H. apply Qlt_bool_true in H. congruence.
Qed.

Lemma py_sum_bound (M : Q) (l : list Q) (a : Q) :
  Forall (fun t => t <= M) l ->
  fold_left Qplus l a <= a + inject_Z (Z.of_nat (List.length l)) * M.
Proof.
  intro H. revert a. induction H as [| t l Ht _ IH]; intro a.
  - cbn [fold_left List.length]. change (inject_Z (Z.of_nat 0)) with 0.
    Lqa.lra.
  - cbn [fold_left List.length]. rewrite Nat2Z.inj_succ.
    unfold Z.succ. rewrite inject_Z_plus.
    change (inject_Z 1) with 1.
    eapply Qle_trans; [apply IH|].
    set (n := inject_Z (Z.of_nat (List.length l))). clearbody n.
    Lqa.lra.
Qed.

Lemma track_invariant (t : Q) (p : Perf) :
  Forall (fun x => x <= max_processing_time p) (processing_times p) ->
  let p' := track t p in
  (1 <= List.length (processing_times p') <= 100)%nat
  /\ Forall (fun x => x <= max_processing_time p') (processing_times p')
  /\ max_processing_time p <= max_processing_time p'
  /\ t <= max_processing_time p'
  /\ In t (processing_times p')
  /\ avg_processing_time p' <= max_processing_time p'.
Proof.
  intro Hinv. cbv zeta.
  destruct (py_max_bounds (max_processing_time p) t) as [Hm Ht].
  assert (Hall : Forall (fun x => x <= py_max (max_processing_time p) t)
                        (processing_times p ++ [t])).
  { apply Forall_app. split.
    - eapply Forall_impl; [|exact Hinv]. intros x Hx.
      eapply Qle_trans; [exact Hx | exact Hm].
    - constructor; [exact Ht | constructor]. }
  set (times := if (100 <? List.length (processing_times p ++ [t]))%nat
                then last_n 50 (processing_times p ++ [t])
                else processing_times p ++ [t]).
  assert (Hlen : (1 <= List.length times <= 100)%nat).
  { unfold times. destruct (100 <? _)%nat eqn:E.
    - apply Nat.ltb_lt in E. unfold last_n. rewrite length_skipn. lia.
    - apply Nat.ltb_ge in E. rewrite length_app in *. simpl in *. lia. }
  assert (Hin : In t times).
  { unfold times. destruct (100 <? _)%nat.
    - rewrite <- (app_nil_r (processing_times p ++ [t])).
      rewrite <- app_assoc. apply last_n_keeps. simpl. lia.
    - apply in_or_app. right. left. reflexivity. }
  assert (Htimes : Forall (fun x => x <= py_max (max_processing_time p) t)
                          times).
  { unfold times. destruct (100 <? _)%nat; [|exact Hall].
    rewrite Forall_forall in *. intros x Hx. apply Hall.
    exact (last_n_incl 50 _ x Hx). }
  unfold track. fold times. simpl.
  repeat split; try lia; trivial.
  apply Qle_shift_div_r.
  - change 0 with (inject_Z 0). rewrite <- Zlt_Qlt. lia.
  - unfold py_sum. eapply Qle_trans; [apply py_sum_bound; exact Htimes|].
    Lqa.lra.
Qed.

(** X7: after any number of scans, at least one, the window of
    processing times holds between 1 and 100 samples, the last of them
    the newest, none of them above the recorded maximum, and the average
    is not above the maximum either. *)
Theorem processing_times_window_bounded (ts : list Q) (t : Q) :
  let p := fold_left (fun p x => track x p) (ts ++ [t]) init_perf in
  (1 <= List.length (processing_times p) <= 100)%nat
  /\ In t (processing_times p)
  /\ Forall (fun x => x <= max_processing_time p) (processing_times p)
  /\ avg_processing_time p <= max_processing_time p.
Proof.
  cbv zeta. rewrite fold_left_app. simpl.
  assert (Hinv : forall l p0,
            Forall (fun x => x <= max_processing_time p0) (processing_times p0) ->
            Forall (fun x => x <= max_processing_time
                                    (fold_left (fun p x => track x p) l p0))
                   (processing_times (fold_left (fun p x => track x p) l p0))).
  { induction l as [| x l IH]; intros p0 H0; [exact H0|].
    simpl. apply IH. apply (track_invariant x p0 H0). }
  destruct (track_invariant t _ (Hinv ts init_perf (Forall_nil _)))
    as (H1 & H2 & _ & _ & H5 & H6).
  auto.
Qed.

Lemma run_without_timestamp (es : list Event) (m : Monitor) :
  last_lidar_timestamp m = None ->
  Forall (fun e => match e with
                   | LidarMessage _ _ (Some d) => scan_timestamp d = Unparsable
                   | _ => True
                   end) es ->
  last_lidar_timestamp (run m es) = None.
Proof.
  intros Hm Hes. revert m Hm.
  induction Hes as [| e es He _ IH]; intros m Hm; [exact Hm|].
  simpl. apply IH.
  destruct e as [now success [d |] | now]; cbn [step].
  - unfold _handle_lidar_data. rewrite He. exact Hm.
  - exact Hm.
  - unfold monitoring_cycle.
    destruct (_check_data_timeout now m); [|exact Hm].
    unfold _check_emergency_stop_reset.
    destruct (negb _); [exact Hm|].
    destruct (last_lidar_data _); [|exact Hm].
    destruct (filter _ _); exact Hm.
Qed.

(** X8: the data timeout check reads [last_lidar_timestamp], which a
    LiDAR message sets only when its timestamp can be read: a message
    whose timestamp cannot be read is stored as the last scan and leaves
    the clock of the check alone.  A monitor that has received no
    message with a readable timestamp logs no data timeout, however late
    it is.  Once a naive timestamp is held, the check warns exactly when
    it is more than 2 s old and adds the critical report exactly when it
    is more than 5 s old.  Once a timestamp with a UTC offset is held,
    the check raises at every call, and a monitoring cycle does
    nothing. *)
Theorem data_timeout_needs_a_first_scan
    (threshold : Q) (configured : list ZoneConfig) (es : list Event)
    (now : Q) (success : bool) (m : Monitor) (d : LidarData) (t : Q) :
  (Forall (fun e => match e with
                    | LidarMessage _ _ (Some d) =>
                        scan_timestamp d = Unparsable
                    | _ => True
                    end) es ->
   _check_data_timeout now (run (init threshold configured) es) = Some Quiet)
  /\ (last_lidar_timestamp (_handle_lidar_data now success (Some d) m)
      = match scan_timestamp d with
        | Parsed t' => Some t'
        | Unparsable => last_lidar_timestamp m
        end)
  /\ (scan_timestamp d = Unparsable ->
      _handle_lidar_data now success (Some d) m = set_last_lidar_data d m)
  /\ (last_lidar_timestamp m = Some (Naive t) ->
      (_check_data_timeout now m = Some Quiet <-> now - t <= 2)
      /\ (_check_data_timeout now m = Some Warning
          <-> 2 < now - t /\ now - t <= 5)
      /\ (_check_data_timeout now m = Some WarningAndError
          <-> 5 < now - t))
  /\ (last_lidar_timestamp m = Some (Aware t) ->
      _check_data_timeout now m = None
      /\ monitoring_cycle now m = m).
Proof.
  split; [|split; [|split; [|split]]].
  - intro Hes. unfold _check_data_timeout.
    rewrite (run_without_timestamp es (init threshold configured)
               eq_refl Hes).
    reflexivity.
  - apply handle_stores_timestamp.
  - intro Hd. unfold _handle_lidar_data. rewrite Hd. reflexivity.
  - intro Hd. unfold _check_data_timeout. rewrite Hd. cbv zeta.
    set (age := now - t). clearbody age.
    destruct (Qlt_bool 2 age) eqn:E2; destruct (Qlt_bool 5 age) eqn:E5;
      try apply Qlt_bool_true in E2; try apply Qlt_bool_true in E5;
      try (assert (age <= 2)
             by (apply Qnot_lt_le; intro H; apply Qlt_bool_true in H;
                 congruence));
      try (assert (age <= 5)
             by (apply Qnot_lt_le; intro H; apply Qlt_bool_true in H;
                 congruence));
      repeat split; intros; try discriminate; try reflexivity;
      try Lqa.lra.
  - intro Hd. unfold monitoring_cycle, _check_data_timeout. rewrite Hd.
    split; reflexivity.
Qed.

Lemma data_timeout_needs_a_first_scan_witness :
  let unread := {| ranges := [3 # 10]; angles := [0];
                   scan_timestamp := Unparsable |} in
  let m := run (init (1 # 2) [])
               [MonitoringCycle 5; LidarMessage 6 true (Some unread);
                LidarMessage 7 true None] in
  _check_data_timeout 1000 m = Some Quiet
  /\ (_check_data_timeout 10
        (_handle_lidar_data 4 true
           (Some {| ranges := []; angles := []; scan_timestamp := 4 |}) m)
      = Some WarningAndError <-> 5 < 10 - 4)
  /\ monitoring_cycle 10
       (_handle_lidar_data 4 true
          (Some {| ranges := []; angles := []; scan_timestamp := Aware 4 |}) m)
     = _handle_lidar_data 4 true
         (Some {| ranges := []; angles := []; scan_timestamp := Aware 4 |}) m.
Proof.
  intros unread m. split; [|split].
  - refine (proj1 (data_timeout_needs_a_first_scan
                     (1 # 2) []
                     [MonitoringCycle 5; LidarMessage 6 true (Some unread);
                      LidarMessage 7 true None]
                     1000 true (init (1 # 2) []) unread 0) _).
    repeat constructor.
  - refine (proj2 (proj2 (proj1 (proj2 (proj2 (proj2
              (data_timeout_needs_a_first_scan (1 # 2) [] [] 10 true
                 (_handle_lidar_data 4 true
                    (Some {| ranges := []; angles := [];
                             scan_timestamp := 4 |}) m)
                 unread 4)))) _))).
    reflexivity.
  - refine (proj2 (proj2 (proj2 (proj2 (proj2
              (data_timeout_needs_a_first_scan (1 # 2) [] [] 10 true
                 (_handle_lidar_data 4 true
                    (Some {| ranges := []; angles := [];
                             scan_timestamp := Aware 4 |}) m)
                 unread 4)))) _)).
    reflexivity.
Defined.

End PerformanceFacts.

(* ===================================================================== *)
(** * Further properties of the state manager *)
(* ===================================================================== *)

Section StateManagerMore.

Import StateManager Commands.
Local Open Scope R_scope.

(** ** Motion *)

(** X9: after [reset_odometry] with data of both wheels at hand, an
    odometry update on the same encoder readings finds no motion: the
    pose stays at the origin with heading 0 and both velocities are 0. *)
Theorem reset_rebaselines_wheel_distances
    (reset_time now : R) (m : Manager)
    (kl kr : string) (vl vr : R) (left_rest right_rest : EncoderData) :
  left_encoder_data m = Some ((kl, vl) :: left_rest) ->
  right_encoder_data m = Some ((kr, vr) :: right_rest) ->
  wheel_base m <> 0 ->
  1 / 1000 <= now - last_update_time m ->
  let s := robot_state (_update_odometry now (_reset_odometry reset_time m)) in
  x (position s) = 0 /\ y (position s) = 0 /\ heading s = 0
  /\ linear (velocity s) = 0 /\ angular (velocity s) = 0
  /\ odometry_valid s = true.
Proof.
  intros Hl Hr Hwb Hdt. cbv zeta.
  set (m1 := _reset_odometry reset_time m).
  assert (Hl1 : left_encoder_data m1 = Some ((kl, vl) :: left_rest))
    by exact Hl.
  assert (Hr1 : right_encoder_data m1 = Some ((kr, vr) :: right_rest))
    by exact Hr.
  rewrite (update_carried_out now m1 _ _ Hl1 Hr1 Hwb Hdt).
  cbn [robot_state position heading velocity x y linear angular
       odometry_valid].
  assert (Hbl : last_left_distance m1
                = dict_get "total_distance" 0 ((kl, vl) :: left_rest))
    by (unfold m1, _reset_odometry; cbn [last_left_distance]; rewrite Hl;
        reflexivity).
  assert (Hbr : last_right_distance m1
                = dict_get "total_distance" 0 ((kr, vr) :: right_rest))
    by (unfold m1, _reset_odometry; cbn [last_right_distance]; rewrite Hr;
        reflexivity).
  rewrite Hbl, Hbr.
  change (heading (robot_state m1)) with 0.
  change (x (position (robot_state m1))) with 0.
  change (y (position (robot_state m1))) with 0.
  change (wheel_base m1) with (wheel_base m).
  change (last_update_time m1) with (last_update_time m).
  set (dl := dict_get "total_distance" 0 ((kl, vl) :: left_rest)).
  set (dr := dict_get "total_distance" 0 ((kr, vr) :: right_rest)).
  assert (Hdh : 0 + (dr - dr - (dl - dl)) / wheel_base m = 0)
    by (field; exact Hwb).
  assert (Hdd : (dl - dl + (dr - dr)) / 2 = 0) by field.
  rewrite Hdh, Hdd.
  rewrite normalize_id by (pose proof PI_RGT_0; lra).
  assert (Hne : now - last_update_time m <> 0) by lra.
  repeat split; try lra; try (field; assumption).
Qed.

Lemma reset_rebaselines_wheel_distances_witness :
  let m := {| wheel_base := 1;
              robot_state := robot_state (init 1 0);
              left_encoder_data := Some [("total_distance"%string, 2)];
              right_encoder_data := Some [("total_distance"%string, 3)];
              last_left_distance := 0;
              last_right_distance := 0;
              last_update_time := 0;
              update_count := 0;
              last_encoder_update := 0 |} in
  x (position (robot_state (_update_odometry 1 (_reset_odometry 0 m)))) = 0.
Proof.
  intro m.
  refine (proj1 (reset_rebaselines_wheel_distances 0 1 m
                   "total_distance" "total_distance" 2 3 [] []
                   eq_refl eq_refl _ _)); simpl; lra.
Defined.

(** X10: equal wheel travel moves the robot straight along its heading
    and gives no angular velocity; opposite wheel travel turns it on the
    spot, leaving the position as it was with no linear velocity. *)
Theorem straight_line_and_turn_on_the_spot
    (now : R) (m : Manager) (left_data right_data : EncoderData) :
  left_encoder_data m = Some left_data ->
  right_encoder_data m = Some right_data ->
  wheel_base m <> 0 ->
  1 / 1000 <= now - last_update_time m ->
  let delta_left := dict_get "total_distance" 0 left_data
                    - last_left_distance m in
  let delta_right := dict_get "total_distance" 0 right_data
                     - last_right_distance m in
  let s := robot_state m in
  let s' := robot_state (_update_odometry now m) in
  (delta_left = delta_right ->
     - PI <= heading s <= PI ->
     heading s' = heading s
     /\ x (position s') = x (position s) + delta_left * cos (heading s)
     /\ y (position s') = y (position s) + delta_left * sin (heading s)
     /\ angular (velocity s') = 0)
  /\ (delta_left = - delta_right ->
      x (position s') = x (position s)
      /\ y (position s') = y (position s)
      /\ linear (velocity s') = 0
      /\ heading s'
         = normalize (heading s + 2 * delta_right / wheel_base m)).
Proof.
  intros Hl Hr Hwb Hdt. cbv zeta.
  rewrite (update_carried_out now m _ _ Hl Hr Hwb Hdt).
  cbn [robot_state position heading velocity x y linear angular].
  set (dl := dict_get "total_distance" 0 left_data - last_left_distance m).
  set (dr := dict_get "total_distance" 0 right_data - last_right_distance m).
  assert (Hne : now - last_update_time m <> 0) by lra.
  split.
  - intros Heq Hh. rewrite <- Heq.
    replace (heading (robot_state m) + (dl - dl) / wheel_base m)
      with (heading (robot_state m)) by (field; exact Hwb).
    rewrite (normalize_id _ Hh).
    replace ((dl + dl) / 2) with dl by field.
    repeat split; try (field; auto).
  - intro Heq. rewrite Heq.
    replace ((- dr + dr) / 2) with 0 by field.
    replace (heading (robot_state m) + (dr - - dr) / wheel_base m)
      with (heading (robot_state m) + 2 * dr / wheel_base m)
      by (field; exact Hwb).
    repeat split; try lra; try (field; auto).
Qed.

Lemma straight_line_and_turn_on_the_spot_witness :
  let m := {| wheel_base := 3 / 10;
              robot_state := robot_state (init (3 / 10) 0);
              left_encoder_data := Some [("total_distance"%string, 1)];
              right_encoder_data := Some [("total_distance"%string, 1)];
              last_left_distance := 0;
              last_right_distance := 0;
              last_update_time := 0;
              update_count := 0;
              last_encoder_update := 0 |} in
  x (position (robot_state (_update_odometry 1 m))) = 1
  /\ y (position (robot_state (_update_odometry 1 m))) = 0
  /\ heading (robot_state (_update_odometry 1 m)) = 0.
Proof.
  intro m.
  assert (Hwb : wheel_base m <> 0) by (simpl; lra).
  assert (Hdt : 1 / 1000 <= 1 - last_update_time m) by (simpl; lra).
  assert (Hh : - PI <= heading (robot_state m) <= PI)
    by (simpl; pose proof PI_RGT_0; lra).
  destruct (proj1 (straight_line_and_turn_on_the_spot 1 m
                     [("total_distance"%string, 1)]
                     [("total_distance"%string, 1)]
                     eq_refl eq_refl Hwb Hdt) eq_refl Hh)
    as (H1 & H2 & H3 & _).
  rewrite H1, H2, H3. simpl. rewrite cos_0, sin_0.
  repeat split; lra.
Defined.

(** ** Updates that cannot be carried out *)

(** X11: an odometry update that finds the data of a wheel missing or a
    wheel base of zero only marks the odometry invalid: pose, heading,
    velocity, status and the remembered wheel distances stay as they
    were. *)
Theorem failed_update_keeps_pose (now : R) (m : Manager) :
  1 / 1000 <= now - last_update_time m ->
  left_encoder_data m = None \/ right_encoder_data m = None
  \/ wheel_base m = 0 ->
  let m' := _update_odometry now m in
  odometry_valid (robot_state m') = false
  /\ position (robot_state m') = position (robot_state m)
  /\ heading (robot_state m') = heading (robot_state m)
  /\ velocity (robot_state m') = velocity (robot_state m)
  /\ status (robot_state m') = status (robot_state m)
  /\ last_left_distance m' = last_left_distance m
  /\ last_right_distance m' = last_right_distance m
  /\ last_update_time m' = last_update_time m
  /\ update_count m' = update_count m.
Proof.
  intros Hdt Hbad. cbv zeta. unfold _update_odometry.
  destruct (Rlt_dec (now - last_update_time m) (1 / 1000)) as [Hlt | _];
    [lra|].
  destruct (left_encoder_data m) as [l |];
    [destruct (right_encoder_data m) as [r |]|];
    try (repeat split; reflexivity).
  destruct (Req_dec_T (wheel_base m) 0) as [_ | Hne];
    [repeat split; reflexivity|].
  destruct Hbad as [H | [H | H]]; [discriminate | discriminate | contradiction].
Qed.

Lemma failed_update_keeps_pose_witness :
  odometry_valid (robot_state (_update_odometry 1 (init 0 0))) = false.
Proof.
  refine (proj1 (failed_update_keeps_pose 1 (init 0 0) _ _)).
  - simpl. lra.
  - left. reflexivity.
Defined.

Lemma update_keeps_status (now : R) (m : Manager) :
  status (robot_state (_update_odometry now m)) = status (robot_state m)
  /\ wheel_base (_update_odometry now m) = wheel_base m.
Proof.
  unfold _update_odometry.
  destruct (Rlt_dec _ _); [auto|].
  destruct (left_encoder_data m); [|auto].
  destruct (right_encoder_data m); [|auto].
  destruct (Req_dec_T _ _); auto.
Qed.

Lemma left_only_run (es : list Event) (m : Manager) :
  right_encoder_data m = None ->
  Forall (fun e => match e with LeftEncoder _ _ => True | _ => False end) es ->
  robot_state (run m es) = robot_state m
  /\ right_encoder_data (run m es) = None.
Proof.
  intros Hr Hes. revert m Hr.
  induction Hes as [| e es He _ IH]; intros m Hr; [auto|].
  destruct e as [now data | | |]; try contradiction.
  simpl. unfold _handle_left_encoder_data. cbn [right_encoder_data].
  rewrite Hr. cbn [truthy].
  match goal with |- context [run ?m1 es] =>
    destruct (IH m1 eq_refl) as [H1 H2] end.
  rewrite H1, H2. auto.
Qed.

(** X12: no odometry is integrated before both wheels have reported
    data: an encoder message that arrives while the other wheel's data
    is missing or empty leaves the robot state untouched, and so does
    any sequence of messages from the left wheel alone after start. *)
Theorem no_update_before_both_wheels
    (now : R) (data : option EncoderData) (m : Manager)
    (wheel_base_m start : R) (es : list Event) :
  (truthy (right_encoder_data m) = false ->
     robot_state (_handle_left_encoder_data now data m) = robot_state m
     /\ update_count (_handle_left_encoder_data now data m) = update_count m)
  /\ (truthy (left_encoder_data m) = false ->
      robot_state (_handle_right_encoder_data now data m) = robot_state m
      /\ update_count (_handle_right_encoder_data now data m) = update_count m)
  /\ (Forall (fun e => match e with LeftEncoder _ _ => True | _ => False end)
             es ->
      robot_state (run (init wheel_base_m start) es)
      = robot_state (init wheel_base_m start)).
Proof.
  split; [|split]; intro H.
  - unfold _handle_left_encoder_data. cbn [right_encoder_data].
    rewrite H. split; reflexivity.
  - unfold _handle_right_encoder_data. cbn [left_encoder_data].
    rewrite H. split; reflexivity.
  - exact (proj1 (left_only_run es (init wheel_base_m start) eq_refl H)).
Qed.

Lemma no_update_before_both_wheels_witness :
  robot_state (run (init 1 0)
                   [LeftEncoder 5 (Some [("total_distance"%string, 1)]);
                    LeftEncoder 6 (Some [("total_distance"%string, 2)])])
  = robot_state (init 1 0).
Proof.
  refine (proj2 (proj2 (no_update_before_both_wheels 0 None (init 1 0) 1 0 _)) _).
  repeat constructor.
Defined.

(** ** Commands *)

Lemma step_keeps_status (m : Manager) (e : Event) :
  match e with
  | CommandMessage _ payload =>
      get (cmd_action payload) ""%string <> "set_status"%string
  | EmergencyStop _ => False
  | _ => True
  end ->
  status (robot_state (step m e)) = status (robot_state m).
Proof.
  destruct e as [now data | now data | now payload | now]; simpl; intro H.
  - unfold _handle_left_encoder_data.
    destruct (truthy _); [|reflexivity].
    rewrite (proj1 (update_keeps_status _ _)). reflexivity.
  - unfold _handle_right_encoder_data.
    destruct (truthy _); [|reflexivity].
    rewrite (proj1 (update_keeps_status _ _)). reflexivity.
  - unfold _handle_command.
    destruct (String.eqb _ "reset_odometry"); [reflexivity|].
    destruct (String.eqb _ "set_position"); [reflexivity|].
    destruct (String.eqb _ "set_status") eqn:E; [|reflexivity].
    apply String.eqb_eq in E. contradiction.
  - contradiction.
Qed.

(** X13: an emergency-stop notification sets the status to
    [emergency_stop] and both velocities to 0 and keeps the pose; the
    status then stays [emergency_stop] through encoder messages, further
    notifications and every command other than [set_status]. *)
Theorem emergency_stop_status_persists
    (now : R) (m : Manager) (es : list Event) :
  Forall (fun e => match e with
                   | CommandMessage _ payload =>
                       get (cmd_action payload) ""%string
                       <> "set_status"%string
                   | _ => True
                   end) es ->
  let stopped := _handle_emergency_stop now m in
  status (robot_state stopped) = "emergency_stop"%string
  /\ velocity (robot_state stopped) = {| linear := 0; angular := 0 |}
  /\ position (robot_state stopped) = position (robot_state m)
  /\ heading (robot_state stopped) = heading (robot_state m)
  /\ status (robot_state (run stopped es)) = "emergency_stop"%string.
Proof.
  intro Hes. cbv zeta. repeat split.
  set (stopped := _handle_emergency_stop now m).
  assert (Hs : status (robot_state stopped) = "emergency_stop"%string)
    by reflexivity.
  clearbody stopped. revert stopped Hs.
  induction Hes as [| e es He _ IH]; intros stopped Hs; [exact Hs|].
  simpl. apply IH.
  destruct e as [t d | t d | t payload | t]; [| | |reflexivity];
    rewrite step_keeps_status; assumption.
Qed.

Lemma emergency_stop_status_persists_witness :
  status (robot_state
            (run (_handle_emergency_stop 3 (init 1 0))
                 [CommandMessage 4 {| cmd_action := Some "reset_odometry"%string;
                                      cmd_x := None; cmd_y := None;
                                      cmd_heading := None;
                                      cmd_status := None |}]))
  = "emergency_stop"%string.
Proof.
  refine (proj2 (proj2 (proj2 (proj2
            (emergency_stop_status_persists 3 (init 1 0) _ _))))).
  repeat constructor. simpl. discriminate.
Defined.

(** X14: a command without [action], or with an action other than
    [reset_odometry], [set_position] and [set_status], changes nothing;
    [set_status] without a [status] sets the status to [idle];
    [set_position] without coordinates puts the robot at the origin with
    heading 0. *)
Theorem command_defaults (now : R) (payload : Command) (m : Manager) :
  (get (cmd_action payload) ""%string <> "reset_odometry"%string ->
   get (cmd_action payload) ""%string <> "set_position"%string ->
   get (cmd_action payload) ""%string <> "set_status"%string ->
   _handle_command now payload m = m)
  /\ (cmd_action payload = Some "set_status"%string ->
      cmd_status payload = None ->
      status (robot_state (_handle_command now payload m)) = "idle"%string)
  /\ (cmd_action payload = Some "set_position"%string ->
      cmd_x payload = None -> cmd_y payload = None ->
      cmd_heading payload = None ->
      position (robot_state (_handle_command now payload m))
      = {| x := 0; y := 0 |}
      /\ heading (robot_state (_handle_command now payload m)) = 0).
Proof.
  unfold _handle_command. split; [|split].
  - intros H1 H2 H3.
    apply String.eqb_neq in H1. apply String.eqb_neq in H2.
    apply String.eqb_neq in H3. rewrite H1, H2, H3. reflexivity.
  - intros Ha Hs. rewrite Ha, Hs. reflexivity.
  - intros Ha Hx Hy Hh. rewrite Ha, Hx, Hy, Hh. split; reflexivity.
Qed.

Lemma command_defaults_witness :
  status (robot_state
            (_handle_command 2
               {| cmd_action := Some "set_status"%string; cmd_x := None;
                  cmd_y := None; cmd_heading := None; cmd_status := None |}
               (_handle_emergency_stop 1 (init 1 0))))
  = "idle"%string.
Proof.
  refine (proj1 (proj2 (command_defaults 2 _ _)) _ _); reflexivity.
Defined.

(** ** The heading along a run *)

Lemma step_keeps_heading_range (m : Manager) (e : Event) :
  match e with
  | CommandMessage _ payload =>
      get (cmd_action payload) ""%string = "set_position"%string ->
      - PI <= get (cmd_heading payload) 0 <= PI
  | _ => True
  end ->
  - PI <= heading (robot_state m) <= PI ->
  - PI <= heading (robot_state (step m e)) <= PI.
Proof.
  assert (Hup : forall now m0,
            - PI <= heading (robot_state m0) <= PI ->
            - PI <= heading (robot_state (_update_odometry now m0)) <= PI).
  { intros now m0 H0.
    destruct (update_heading_cases now m0) as [[_ Hh] | [_ [dh Hh]]];
      rewrite Hh; [exact H0 | apply normalize_range]. }
  destruct e as [now data | now data | now payload | now]; simpl;
    intros He Hm.
  - unfold _handle_left_encoder_data.
    destruct (truthy _); [apply Hup|]; exact Hm.
  - unfold _handle_right_encoder_data.
    destruct (truthy _); [apply Hup|]; exact Hm.
  - unfold _handle_command.
    destruct (String.eqb _ "reset_odometry");
      [simpl; pose proof PI_RGT_0; lra|].
    destruct (String.eqb _ "set_position") eqn:E.
    + apply String.eqb_eq in E. simpl. exact (He E).
    + destruct (String.eqb _ "set_status"); [|exact Hm].
      unfold _set_status. destruct (negb _); exact Hm.
  - exact Hm.
Qed.

(** X15: from start on, through any sequence of encoder messages,
    emergency stops and commands whose [set_position] headings lie
    between [- PI] and [PI], the stored heading stays between [- PI] and
    [PI]. *)
Theorem heading_stays_in_range_along_run
    (wheel_base_m start : R) (es : list Event) :
  Forall (fun e => match e with
                   | CommandMessage _ payload =>
                       get (cmd_action payload) ""%string
                       = "set_position"%string ->
                       - PI <= get (cmd_heading payload) 0 <= PI
                   | _ => True
                   end) es ->
  - PI <= heading (robot_state (run (init wheel_base_m start) es)) <= PI.
Proof.
  intro Hes.
  assert (H0 : - PI <= heading (robot_state (init wheel_base_m start)) <= PI)
    by (simpl; pose proof PI_RGT_0; lra).
  revert H0. generalize (init wheel_base_m start).
  induction Hes as [| e es He _ IH]; intros m Hm; [exact Hm|].
  simpl. apply IH. apply step_keeps_heading_range; assumption.
Qed.

Lemma heading_stays_in_range_along_run_witness :
  - PI <= heading (robot_state
                     (run (init 1 0)
                          [LeftEncoder 1 (Some [("total_distance"%string, 40)]);
                           RightEncoder 2 (Some [("total_distance"%string, 1)])]))
       <= PI.
Proof.
  refine (heading_stays_in_range_along_run 1 0 _ _).
  repeat constructor.
Defined.

(** ** Encoder messages *)

(** X23: an encoder message without [data] is stored as an empty record
    and, when the other wheel has data, integrated with a wheel distance
    of 0: the remembered distance of that wheel drops to 0 and the
    update counts as carried out. *)
Theorem encoder_message_without_data_counts_as_zero
    (now : R) (m : Manager) (k : string) (v : R) (right_rest : EncoderData) :
  right_encoder_data m = Some ((k, v) :: right_rest) ->
  wheel_base m <> 0 ->
  1 / 1000 <= now - last_update_time m ->
  let m' := _handle_left_encoder_data now None m in
  let delta_right := dict_get "total_distance" 0 ((k, v) :: right_rest)
                     - last_right_distance m in
  left_encoder_data m' = Some []
  /\ last_left_distance m' = 0
  /\ update_count m' = (update_count m + 1)%Z
  /\ linear (velocity (robot_state m'))
     = (0 - last_left_distance m + delta_right) / 2
       / (now - last_update_time m)
  /\ heading (robot_state m')
     = normalize (heading (robot_state m)
                  + (delta_right - (0 - last_left_distance m)) / wheel_base m).
Proof.
  intros Hr Hwb Hdt. cbv zeta.
  unfold _handle_left_encoder_data. cbn [right_encoder_data].
  rewrite Hr. cbn [truthy].
  match goal with |- context [_update_odometry now ?m1] =>
    rewrite (update_carried_out now m1 [] ((k, v) :: right_rest)
               eq_refl eq_refl Hwb Hdt) end.
  repeat split.
Qed.

Lemma encoder_message_without_data_counts_as_zero_witness :
  let m := {| wheel_base := 1;
              robot_state := robot_state (init 1 0);
              left_encoder_data := Some [("total_distance"%string, 5)];
              right_encoder_data := Some [("total_distance"%string, 5)];
              last_left_distance := 5;
              last_right_distance := 5;
              last_update_time := 0;
              update_count := 0;
              last_encoder_update := 0 |} in
  last_left_distance (_handle_left_encoder_data 1 None m) = 0.
Proof.
  intro m.
  refine (proj1 (proj2 (encoder_message_without_data_counts_as_zero
                          1 m "total_distance" 5 [] eq_refl _ _)));
    simpl; lra.
Defined.

(** X24: the fallback handler, called on a left-wheel message within
    1 ms of an update that was carried out, integrates nothing a second
    time: robot state, remembered wheel distances and update count stay
    as the first handler left them. *)
Theorem fallback_copy_is_not_integrated_twice
    (now later : R) (topic : string) (device_id : option string)
    (data : option EncoderData) (m : Manager) :
  let m1 := _handle_left_encoder_data now data m in
  update_count m1 = (update_count m + 1)%Z ->
  later - now < 1 / 1000 ->
  contains "left" (lower topic) = true ->
  let m2 := _handle_encoder_data later topic device_id data m1 in
  robot_state m2 = robot_state m1
  /\ last_left_distance m2 = last_left_distance m1
  /\ last_right_distance m2 = last_right_distance m1
  /\ update_count m2 = update_count m1
  /\ left_encoder_data m2 = left_encoder_data m1.
Proof.
  cbv zeta. intros Hdone Hsoon Htopic.
  set (m1 := _handle_left_encoder_data now data m) in *.
  assert (Hfacts : last_update_time m1 = now
                   /\ left_encoder_data m1
                      = Some (match data with Some d => d | None => [] end)).
  { unfold m1, _handle_left_encoder_data in *.
    cbn [right_encoder_data] in *.
    destruct (truthy (right_encoder_data m)).
    - unfold _update_odometry in *.
      cbn [last_update_time left_encoder_data right_encoder_data
           wheel_base] in *.
      destruct (Rlt_dec _ _); [cbn [update_count] in Hdone; lia|].
      destruct (right_encoder_data m);
        [|cbn [update_count odometry_failed with_state] in Hdone; lia].
      destruct (Req_dec_T _ _);
        [cbn [update_count odometry_failed with_state] in Hdone; lia|].
      split; reflexivity.
    - cbn [update_count] in Hdone. lia. }
  destruct Hfacts as [Htime Hleft].
  unfold _handle_encoder_data. rewrite Htopic. cbn [orb].
  cbn [left_encoder_data right_encoder_data].
  match goal with |- context [if ?c then _ else _] => destruct c end.
  - rewrite update_skipped by (cbn [last_update_time]; rewrite Htime; exact Hsoon).
    repeat split. cbn [left_encoder_data]. rewrite Hleft.
    destruct data; reflexivity.
  - repeat split. cbn [left_encoder_data]. rewrite Hleft.
    destruct data; reflexivity.
Qed.

Lemma fallback_copy_is_not_integrated_twice_witness :
  let m := {| wheel_base := 1;
              robot_state := robot_state (init 1 0);
              left_encoder_data := None;
              right_encoder_data := Some [("total_distance"%string, 1)];
              last_left_distance := 0;
              last_right_distance := 0;
              last_update_time := 0;
              update_count := 0;
              last_encoder_update := 0 |} in
  let data := Some [("total_distance"%string, 1)] in
  robot_state (_handle_encoder_data 1 "orchestrator/data/left_encoder" None
                 data (_handle_left_encoder_data 1 data m))
  = robot_state (_handle_left_encoder_data 1 data m).
Proof.
  intros m data.
  refine (proj1 (fallback_copy_is_not_integrated_twice
                   1 1 "orchestrator/data/left_encoder" None data m _ _ _)).
  - subst m data. unfold _handle_left_encoder_data.
    cbn [right_encoder_data truthy].
    match goal with |- context [_update_odometry 1 ?m1] =>
      rewrite (update_carried_out 1 m1 [("total_distance"%string, 1)]
                 [("total_distance"%string, 1)] eq_refl eq_refl)
        by (simpl; lra)
    end.
    reflexivity.
  - lra.
  - reflexivity.
Defined.

End StateManagerMore.

(* ===================================================================== *)
(** * Further properties of the message bus client *)
(* ===================================================================== *)

Section SubscriptionFacts.

Import MqttClient TopicSegments Subscriptions.
Local Open Scope Z_scope.

(** ** Topic types *)

Lemma re_match_valid_pattern (kind text t : string) :
  compile text
  = Some (lit ("orchestrator/" ++ kind ++ "/") ++ [RPlus WordChar])%list ->
  re_match text t
  = Some (match_items
            (lit ("orchestrator/" ++ kind ++ "/") ++ [RPlus WordChar]) t).
Proof. intro H. unfold re_match. rewrite H. reflexivity. Qed.

(** X16: [get_topic_type] answers [command], [data] or [status] exactly
    for the topics of the shape [orchestrator/cmd/<id>],
    [orchestrator/data/<id>] and [orchestrator/status/<id>], and [None]
    exactly for the topics that [validate_topic] rejects. *)
Theorem topic_type_classifies (t : string) :
  let shape kind :=
    exists id, id <> EmptyString /\ all_in WordChar id = true
               /\ (t = ("orchestrator/" ++ kind ++ "/" ++ id)%string
                   \/ t = ("orchestrator/" ++ kind ++ "/" ++ id
                           ++ String newline EmptyString)%string) in
  (get_topic_type t = Some "command"%string <-> shape "cmd"%string)
  /\ (get_topic_type t = Some "data"%string <-> shape "data"%string)
  /\ (get_topic_type t = Some "status"%string <-> shape "status"%string)
  /\ (get_topic_type t = None <-> validate_topic t = false)
  /\ (forall kind, get_topic_type t = Some kind ->
        In kind ["command"; "data"; "status"]%string).
Proof.
  cbv zeta.
  rewrite <- !valid_pattern_matches.
  unfold get_topic_type, validate_topic, VALID_PATTERNS.
  cbn [find existsb snd].
  rewrite (re_match_valid_pattern "cmd" "^orchestrator/cmd/[a-zA-Z0-9_]+$"
             t eq_refl).
  rewrite (re_match_valid_pattern "data" "^orchestrator/data/[a-zA-Z0-9_]+$"
             t eq_refl).
  rewrite (re_match_valid_pattern "status"
             "^orchestrator/status/[a-zA-Z0-9_]+$" t eq_refl).
  assert (Hcd : match_items (lit ("orchestrator/" ++ "cmd" ++ "/")
                             ++ [RPlus WordChar]) t = true ->
                match_items (lit ("orchestrator/" ++ "data" ++ "/")
                             ++ [RPlus WordChar]) t = true -> False).
  { intros H1 H2. apply match_lit in H1. apply match_lit in H2.
    destruct H1 as [s1 [-> _]]. destruct H2 as [s2 [H2 _]]. discriminate. }
  assert (Hcs : match_items (lit ("orchestrator/" ++ "cmd" ++ "/")
                             ++ [RPlus WordChar]) t = true ->
                match_items (lit ("orchestrator/" ++ "status" ++ "/")
                             ++ [RPlus WordChar]) t = true -> False).
  { intros H1 H2. apply match_lit in H1. apply match_lit in H2.
    destruct H1 as [s1 [-> _]]. destruct H2 as [s2 [H2 _]]. discriminate. }
  assert (Hds : match_items (lit ("orchestrator/" ++ "data" ++ "/")
                             ++ [RPlus WordChar]) t = true ->
                match_items (lit ("orchestrator/" ++ "status" ++ "/")
                             ++ [RPlus WordChar]) t = true -> False).
  { intros H1 H2. apply match_lit in H1. apply match_lit in H2.
    destruct H1 as [s1 [-> _]]. destruct H2 as [s2 [H2 _]]. discriminate. }
  destruct (match_items (lit ("orchestrator/" ++ "cmd" ++ "/")
                         ++ [RPlus WordChar]) t) eqn:Ec;
    destruct (match_items (lit ("orchestrator/" ++ "data" ++ "/")
                           ++ [RPlus WordChar]) t) eqn:Ed;
    destruct (match_items (lit ("orchestrator/" ++ "status" ++ "/")
                           ++ [RPlus WordChar]) t) eqn:Es;
    try (exfalso; auto; fail);
    cbn [option_map fst orb];
    repeat split; intros; try discriminate; try reflexivity;
    try match goal with H : Some _ = Some _ |- _ =>
          injection H as <-; simpl; auto end.
Qed.

(** ** Backoff *)

Lemma backoff_step (d p M : Z) :
  d <= M -> 1 <= p ->
  Z.min (Z.min (d * p) M * 2) M = Z.min (d * (2 * p)) M.
Proof. intros Hd Hp. destruct (Z.min_spec (d * p) M) as [[H ->] | [H ->]]; nia. Qed.

Lemma failed_attempts (c : Client) (n : nat) :
  _connected c = false -> _stop_reconnect c = false ->
  let c' := connection_run c (repeat (ReconnectAttempt true) n) in
  _connected c' = false /\ _stop_reconnect c' = false
  /\ config c' = config c
  /\ (_reconnect_delay c <= max_reconnect_delay (config c) ->
      _reconnect_delay c'
      = Z.min (_reconnect_delay c * 2 ^ Z.of_nat n)
              (max_reconnect_delay (config c))).
Proof.
  intros Hc Hs. cbv zeta.
  replace (repeat (ReconnectAttempt true) n)
    with (rev (repeat (ReconnectAttempt true) n))
    by (induction n as [| n IH]; [reflexivity|];
        simpl; rewrite IH; symmetry; apply repeat_cons).
  induction n as [| n IH].
  - simpl. repeat split; trivial. intro H. rewrite Z.mul_1_r. lia.
  - cbn [repeat rev]. unfold connection_run in *. rewrite fold_left_app.
    cbn [fold_left connection_step].
    destruct IH as (Hc' & Hs' & Hcfg & Hd).
    unfold _reconnect_loop_turn. rewrite Hc', Hs'.
    cbn [negb andb _connected _stop_reconnect _reconnect_delay config].
    repeat split; trivial.
    intro Hle. rewrite (Hd Hle), Hcfg.
    rewrite Nat2Z.inj_succ, Z.pow_succ_r by lia.
    apply backoff_step; [exact Hle|].
    assert (0 < 2 ^ Z.of_nat n) by (apply Z.pow_pos_nonneg; lia). lia.
Qed.

(** X17: while the reconnect loop runs, [n] failed attempts in a row take
    a delay [d] that is not above the maximum to the smaller of
    [d * 2^n] and the maximum; in particular, once at the maximum it
    stays there. *)
Theorem backoff_after_failed_attempts (c : Client) (n : nat) :
  _connected c = false -> _stop_reconnect c = false ->
  _reconnect_delay c <= max_reconnect_delay (config c) ->
  _reconnect_delay (connection_run c (repeat (ReconnectAttempt true) n))
  = Z.min (_reconnect_delay c * 2 ^ Z.of_nat n)
          (max_reconnect_delay (config c)).
Proof.
  intros Hc Hs Hd.
  exact (proj2 (proj2 (proj2 (failed_attempts c n Hc Hs))) Hd).
Qed.

Lemma backoff_after_failed_attempts_witness :
  _reconnect_delay
    (connection_run (new default_config) (repeat (ReconnectAttempt true) 9))
  = Z.min (1 * 2 ^ 9) 300.
Proof.
  refine (backoff_after_failed_attempts (new default_config) 9 _ _ _).
  - reflexivity.
  - reflexivity.
  - simpl. lia.
Defined.

(** ** Connection state *)

Lemma cancelled_attempts (c : Client) (attempts : list bool) :
  _stop_reconnect c = true ->
  connection_run c (map ReconnectAttempt attempts) = c.
Proof.
  intro Hs. induction attempts as [| a attempts IH]; [reflexivity|].
  simpl. unfold _reconnect_loop_turn. rewrite Hs. simpl. exact IH.
Qed.

(** X18: [connect] returning success does not make the client connected:
    until [_on_connect] reports result code 0, [publish] fails and
    leaves the payload alone; after [disconnect], [publish] fails again,
    and reconnect attempts change nothing. *)
Theorem connected_only_between_on_connect_and_disconnect
    (json_dumps : Dict -> option string) (cfg : MQTTConfig) (c : Client)
    (now_iso t : string) (rc : Z) (payload : Dict) (q : Z) (r : bool)
    (attempts : list bool) :
  let fresh := snd (connect false (new cfg)) in
  fst (connect false (new cfg)) = true
  /\ publish json_dumps now_iso rc fresh t payload q r
     = (false, payload, fresh)
  /\ _connected (_on_connect 0 fresh) = true
  /\ publish json_dumps now_iso rc (disconnect c) t payload q r
     = (false, payload, disconnect c)
  /\ connection_run (disconnect c) (map ReconnectAttempt attempts)
     = disconnect c.
Proof.
  cbv zeta. repeat split.
  apply cancelled_attempts. reflexivity.
Qed.

(** ** Valid topics have three segments *)

Lemma word_char_not_slash (id : string) :
  all_in WordChar id = true -> all_in NotSlash id = true.
Proof.
  induction id as [| c id IH]; intro H; [reflexivity|].
  cbn [all_in] in *. apply andb_true_iff in H. destruct H as [Hc Hid].
  rewrite (IH Hid), andb_true_r.
  destruct (Ascii.eqb c "/") eqn:E.
  - apply Ascii.eqb_eq in E. subst c. discriminate.
  - cbn [class_mem]. rewrite E. reflexivity.
Qed.

Lemma valid_topic_segments (t : string) :
  validate_topic t = true ->
  exists kind last_segment,
    In kind ["cmd"; "data"; "status"]%string
    /\ split "/" t = ["orchestrator"; kind; last_segment]%string.
Proof.
  intro H. apply validate_topic_accepts in H.
  assert (Hid : exists kind id,
            In kind ["cmd"; "data"; "status"]%string
            /\ all_in WordChar id = true
            /\ (t = ("orchestrator/" ++ kind ++ "/" ++ id)%string
                \/ t = ("orchestrator/" ++ kind ++ "/" ++ id
                        ++ String newline EmptyString)%string)).
  { destruct H as [[kind [id [Hk [_ [Hw Ht]]]]]
                  | [t0 [[kind [id [Hk [_ [Hw Ht0]]]]] Ht]]];
      exists kind, id; repeat split; auto.
    right. rewrite Ht, Ht0, !append_assoc. reflexivity. }
  destruct Hid as [kind [id [Hk [Hw Ht]]]].
  apply word_char_not_slash in Hw.
  assert (Hk' : all_in NotSlash kind = true)
    by (simpl in Hk; destruct Hk as [<- | [<- | [<- | []]]]; reflexivity).
  assert (Hsplit : forall tail, all_in NotSlash tail = true ->
            split "/" ("orchestrator/" ++ kind ++ "/" ++ tail)
            = ["orchestrator"; kind; tail]%string).
  { intros tail Htail.
    change ("orchestrator/" ++ kind ++ "/" ++ tail)%string
      with ("orchestrator" ++ String "/" (kind ++ String "/" tail))%string.
    rewrite split_first_slash by reflexivity.
    rewrite (split_first_slash kind tail Hk').
    rewrite (split_slash_free tail Htail). reflexivity. }
  destruct Ht as [-> | ->].
  - exists kind, id. split; [exact Hk | apply Hsplit; exact Hw].
  - exists kind, (id ++ String newline EmptyString)%string.
    split; [exact Hk|]. apply Hsplit.
    rewrite all_in_app, Hw. reflexivity.
Qed.

Section Dispatch.

Variable Callback : Type.
Variable json_loads : string -> option PyValue.

(** X19: an inbound message whose topic does not have exactly three
    segments, the first of them [orchestrator], reaches no handler,
    whatever is subscribed; neither does a message whose payload does
    not decode. *)
Theorem deeper_topics_reach_no_handler
    (now_iso : string) (b : Bus Callback) (t payload : string)
    (q : Z) (r : bool) :
  (List.length (split "/" t) <> 3%nat
   \/ hd EmptyString (split "/" t) <> "orchestrator"%string
   \/ json_loads payload = None) ->
  _on_message json_loads now_iso b t payload q r = Some ([], None).
Proof.
  intro H. unfold _on_message.
  destruct (validate_topic t) eqn:Ev; [|reflexivity]. simpl.
  destruct (valid_topic_segments t Ev) as [kind [seg [_ Hs]]].
  rewrite Hs in H. simpl in H.
  destruct H as [H | [H | H]]; [congruence | congruence |].
  rewrite H. reflexivity.
Qed.

(** ** The registry of handlers *)

Lemma dict_set_lookup (p : string) (cb : Callback)
    (d : list (string * Callback)) :
  dict_lookup p (dict_set p cb d) = Some cb
  /\ (forall q, q <> p ->
        dict_lookup q (dict_set p cb d) = dict_lookup q d)
  /\ (forall k, In k (map fst (dict_set p cb d)) -> k = p \/ In k (map fst d))
  /\ (NoDup (map fst d) -> NoDup (map fst (dict_set p cb d))).
Proof.
  induction d as [| [k x] d (IH1 & IH2 & IH3 & IH4)].
  - cbn [dict_set dict_lookup map fst]. rewrite String.eqb_refl.
    split; [reflexivity|]. split; [|split].
    + intros q Hq. apply String.eqb_neq in Hq.
      rewrite String.eqb_sym, Hq. reflexivity.
    + intros k [H | []]. left. symmetry. exact H.
    + intros _. constructor; [intros [] | constructor].
  - cbn [dict_set]. destruct (String.eqb k p) eqn:E.
    + apply String.eqb_eq in E. subst k. cbn [dict_lookup map fst].
      rewrite String.eqb_refl.
      split; [reflexivity|]. split; [|split].
      * intros q Hq. apply String.eqb_neq in Hq.
        rewrite String.eqb_sym, Hq. reflexivity.
      * intros k [H | H]; [left; symmetry; exact H | right; right; exact H].
      * intro H. exact H.
    + cbn [dict_lookup map fst]. rewrite E.
      split; [exact IH1|]. split; [|split].
      * intros q Hq. destruct (String.eqb k q); [reflexivity|].
        apply IH2. exact Hq.
      * intros y [H | H]; [right; left; exact H|].
        destruct (IH3 y H) as [Hy | Hy]; [left; exact Hy | right; right; exact Hy].
      * intro Hnd. inversion Hnd as [| ? ? Hk Hd]; subst.
        constructor; [|apply IH4; exact Hd].
        intro Hin. destruct (IH3 k Hin) as [-> | Hin'];
          [rewrite String.eqb_refl in E; discriminate | contradiction].
Qed.

Lemma dict_lookup_absent (p : string) (d : list (string * Callback)) :
  ~ In p (map fst d) -> dict_lookup p d = None.
Proof.
  induction d as [| [k x] d IH]; intro H; [reflexivity|].
  cbn [dict_lookup]. destruct (String.eqb k p) eqn:E.
  - apply String.eqb_eq in E. subst k. exfalso. apply H. left. reflexivity.
  - apply IH. intro Hin. apply H. right. exact Hin.
Qed.

Lemma dict_pop_lookup (p : string) (d : list (string * Callback)) :
  (forall q, q <> p -> dict_lookup q (dict_pop p d) = dict_lookup q d)
  /\ (forall k, In k (map fst (dict_pop p d)) -> In k (map fst d))
  /\ (NoDup (map fst d) ->
      NoDup (map fst (dict_pop p d)) /\ dict_lookup p (dict_pop p d) = None)
  /\ (dict_lookup p d = None -> dict_pop p d = d).
Proof.
  induction d as [| [k x] d (IH1 & IH2 & IH3 & IH4)].
  - cbn [dict_pop dict_lookup map]. repeat split; auto; constructor.
  - cbn [dict_pop dict_lookup]. destruct (String.eqb k p) eqn:E.
    + apply String.eqb_eq in E. subst k.
      split; [|split; [|split]].
      * intros q Hq. apply String.eqb_neq in Hq.
        rewrite String.eqb_sym, Hq. reflexivity.
      * intros y Hy. right. exact Hy.
      * intro Hnd. inversion Hnd as [| ? ? Hk Hd]; subst.
        split; [exact Hd | apply dict_lookup_absent; exact Hk].
      * discriminate.
    + cbn [dict_lookup map fst]. rewrite E.
      split; [|split; [|split]].
      * intros q Hq. destruct (String.eqb k q); [reflexivity|].
        apply IH1. exact Hq.
      * intros y [H | H]; [left; exact H | right; apply IH2; exact H].
      * intro Hnd. inversion Hnd as [| ? ? Hk Hd]; subst.
        destruct (IH3 Hd) as [H1 H2]. split; [|exact H2].
        constructor; [|exact H1].
        intro Hin. apply Hk. apply IH2. exact Hin.
      * intro Hl. rewrite (IH4 Hl). reflexivity.
Qed.

(** X20: on a connected client whose broker accepts the request,
    [subscribe] registers the handler under its pattern, replacing the
    one registered before and leaving the other patterns alone, each
    pattern being held once; [unsubscribe] then removes the pattern and
    gives back the registry as it was when the pattern was new; on a
    client that is not connected both fail and change nothing. *)
Theorem subscribe_unsubscribe_round_trip
    (b : Bus Callback) (p : string) (cb : Callback) :
  NoDup (map fst (_message_callbacks b)) ->
  let sub := subscribe (Some 0) b p cb in
  let unsub := unsubscribe (Some 0) (snd sub) p in
  (_connected (client b) = false ->
     sub = (false, b) /\ unsubscribe (Some 0) b p = (false, b))
  /\ (_connected (client b) = true ->
      fst sub = true /\ fst unsub = true
      /\ dict_lookup p (_message_callbacks (snd sub)) = Some cb
      /\ (forall q, q <> p ->
            dict_lookup q (_message_callbacks (snd sub))
            = dict_lookup q (_message_callbacks b))
      /\ NoDup (map fst (_message_callbacks (snd sub)))
      /\ dict_lookup p (_message_callbacks (snd unsub)) = None
      /\ (dict_lookup p (_message_callbacks b) = None ->
          _message_callbacks (snd unsub) = _message_callbacks b)).
Proof.
  intro Hnd. cbv zeta. unfold subscribe, unsubscribe. split; intro Hc.
  - rewrite Hc. simpl. auto.
  - rewrite Hc. cbn [negb Z.eqb snd fst client _message_callbacks].
    rewrite Hc. cbn [negb snd fst client _message_callbacks].
    destruct (dict_set_lookup p cb (_message_callbacks b))
      as (H1 & H2 & H3 & H4).
    destruct (dict_pop_lookup p (dict_set p cb (_message_callbacks b)))
      as (P1 & P2 & P3 & P4).
    destruct (P3 (H4 Hnd)) as [P5 P6].
    split; [reflexivity|]. split; [reflexivity|]. split; [exact H1|].
    split; [exact H2|]. split; [exact (H4 Hnd)|]. split; [exact P6|].
    intro Hnew. clear - Hnew.
    induction (_message_callbacks b) as [| [k x] d IH].
    + cbn [dict_set dict_pop]. rewrite String.eqb_refl. reflexivity.
    + cbn [dict_lookup] in Hnew. cbn [dict_set].
      destruct (String.eqb k p) eqn:E; [discriminate|].
      cbn [dict_pop]. rewrite E, (IH Hnew). reflexivity.
Qed.

(** ** Dispatch *)

Lemma dispatch_calls (t : string) (callbacks : list (string * Callback)) :
  Forall (fun kv => wildcards_and_literals (fst kv) = true) callbacks ->
  dispatch t callbacks
  = Some (map snd (filter (fun kv => match_items (pattern_items (fst kv)) t)
                          callbacks)).
Proof.
  intro H. induction H as [| [p cb] l Hp _ IH]; [reflexivity|].
  cbn [dispatch filter fst]. simpl in Hp.
  rewrite (topic_matches_pattern_items t p Hp), IH.
  destruct (match_items (pattern_items p) t); reflexivity.
Qed.

(** X21: a message with a valid topic and a payload that decodes is
    handed to the handler of every subscribed pattern that matches the
    topic, not only the first, in the order of subscription and each
    time with the same message data, and to no other handler. *)
Theorem every_matching_handler_is_called
    (now_iso : string) (b : Bus Callback) (t payload : string)
    (q : Z) (r : bool) (value : PyValue) :
  Forall (fun kv => wildcards_and_literals (fst kv) = true)
         (_message_callbacks b) ->
  validate_topic t = true ->
  json_loads payload = Some value ->
  exists called,
    _on_message json_loads now_iso b t payload q r
    = Some (called, Some {| md_topic := t; md_payload := value;
                            md_qos := q; md_retain := r;
                            md_received_at := now_iso |})
    /\ called
       = map snd (filter (fun kv =>
                            match _topic_matches_pattern t (fst kv) with
                            | Some matched => matched
                            | None => false
                            end) (_message_callbacks b))
    /\ (forall cb, In cb called <->
          exists pattern, In (pattern, cb) (_message_callbacks b)
                          /\ _topic_matches_pattern t pattern = Some true).
Proof.
  intros Hw Hv Hj. unfold _on_message. rewrite Hv, Hj. cbn [negb].
  rewrite (dispatch_calls t _ Hw). cbn [option_map].
  assert (Hf : filter (fun kv => match_items (pattern_items (fst kv)) t)
                      (_message_callbacks b)
               = filter (fun kv =>
                           match _topic_matches_pattern t (fst kv) with
                           | Some matched => matched
                           | None => false
                           end) (_message_callbacks b)).
  { apply filter_ext_in. intros kv Hin. rewrite Forall_forall in Hw.
    rewrite (topic_matches_pattern_items t (fst kv) (Hw kv Hin)).
    reflexivity. }
  eexists. split; [reflexivity|]. split; [rewrite Hf; reflexivity|].
  intro cb. rewrite in_map_iff. split.
  - intros [[p cb'] [Heq Hin]]. simpl in Heq. subst cb'.
    apply filter_In in Hin. destruct Hin as [Hin Hm]. simpl in Hm.
    exists p. split; [exact Hin|].
    rewrite Forall_forall in Hw.
    rewrite (topic_matches_pattern_items t p (Hw (p, cb) Hin)), Hm.
    reflexivity.
  - intros [p [Hin Hm]]. exists (p, cb). split; [reflexivity|].
    apply filter_In. split; [exact Hin|]. simpl.
    rewrite Forall_forall in Hw.
    rewrite (topic_matches_pattern_items t p (Hw (p, cb) Hin)) in Hm.
    injection Hm. auto.
Qed.


End Dispatch.

Lemma deeper_topics_reach_no_handler_witness :
  _on_message (fun _ => Some PyNone) "2024-01-01T00:00:00"
    {| client := _on_connect 0 (new default_config);
       _message_callbacks := [("orchestrator/data/#"%string, 1%nat)] |}
    "orchestrator/data/lidar/scan" "{}" 0 false
  = Some ([], None).
Proof.
  refine (deeper_topics_reach_no_handler nat (fun _ => Some PyNone) _ _ _ _ _ _ _).
  left. simpl. discriminate.
Defined.

Lemma subscribe_unsubscribe_round_trip_witness :
  let b := {| client := _on_connect 0 (new default_config);
              _message_callbacks := [("orchestrator/cmd/estop"%string, 1%nat)] |} in
  dict_lookup "orchestrator/data/lidar_01"
    (_message_callbacks
       (snd (subscribe (Some 0) b "orchestrator/data/lidar_01" 2%nat)))
  = Some 2%nat.
Proof.
  intro b.
  refine (proj1 (proj2 (proj2 (proj2
            (subscribe_unsubscribe_round_trip nat b
               "orchestrator/data/lidar_01" 2%nat _) eq_refl)))).
  simpl. constructor; [intros [] | constructor].
Defined.

Lemma every_matching_handler_is_called_witness :
  let b := {| client := _on_connect 0 (new default_config);
              _message_callbacks :=
                [("orchestrator/cmd/+"%string, 1%nat);
                 ("orchestrator/data/#"%string, 2%nat);
                 ("orchestrator/cmd/estop"%string, 3%nat)] |} in
  exists called,
    _on_message (fun _ => Some PyNone) "2024-01-01T00:00:00" b
                "orchestrator/cmd/estop" "null" 1 false
    = Some (called, Some {| md_topic := "orchestrator/cmd/estop";
                            md_payload := PyNone; md_qos := 1;
                            md_retain := false;
                            md_received_at := "2024-01-01T00:00:00" |})
    /\ called = [1%nat; 3%nat].
Proof.
  intro b.
  destruct (every_matching_handler_is_called nat (fun _ => Some PyNone)
              "2024-01-01T00:00:00" b "orchestrator/cmd/estop" "null"
              1 false PyNone)
    as [called [H1 [H2 _]]].
  - repeat constructor.
  - reflexivity.
  - reflexivity.
  - exists called. split; [exact H1 | exact H2].
Defined.


End SubscriptionFacts.
